(** * Veo 3 playground: session persistence and generation job

    A shallow embedding of [streamlit_app.py]: the session functions
    ([create_new_session], [delete_session], [save_sessions_to_file],
    [load_sessions_from_file]), the generation job
    ([generate_videos_with_veo3]), the card of a video
    ([display_video_card]) and what [main] does with the result of a job,
    over an explicit model of what the script touches: the Streamlit
    session state, the file system, the remote client and the messages
    shown to the user. *)

From stdpp Require Import gmap strings list.
From Stdlib Require Import ZArith.

Set Warnings "-register-all".
Local Open Scope string_scope.
Local Open Scope list_scope.

(** ** Python values

    The session mapping is whatever [json.load] returned or what the script
    built from dict and list literals, so it is modelled as an untyped value.
    A dict keeps its items in insertion order; its keys are strings (the
    script and [json.load] produce no others).  [PObj] is an opaque
    in-memory object: not subscriptable, not iterable, and refused by
    [json.dump].  A [str] is held as its UTF-8 bytes.  Floats do not occur in
    the data the script stores. *)

Inductive pyval : Type :=
| PNone
| PBool (b : bool)
| PInt (z : Z)
| PStr (s : string)
| PList (l : list pyval)
| PDict (d : list (string * pyval))
| PObj (h : nat).

(** The exceptions the modelled calls raise; all are subclasses of
    [Exception].  [RemoteError] stands for any error of the remote client. *)
Inductive exn : Type :=
| KeyError (k : string)
| TypeError
| AttributeError
| IndexError
| FileNotFoundError (p : string)
| PermissionError (p : string)
| JSONDecodeError
| OverflowError
| RemoteError (code : nat).

Inductive result (A : Type) : Type :=
| Ok (a : A)
| Raise (e : exn).
Arguments Ok {A} a.
Arguments Raise {A} e.

(** ** Dict and sequence operations *)

Fixpoint assoc (k : string) (d : list (string * pyval)) : option pyval :=
  match d with
  | [] => None
  | (k', v) :: d' => if String.eqb k k' then Some v else assoc k d'
  end.

Fixpoint assoc_del (k : string) (d : list (string * pyval))
  : list (string * pyval) :=
  match d with
  | [] => []
  | (k', v) :: d' =>
      if String.eqb k k' then assoc_del k d' else (k', v) :: assoc_del k d'
  end.

(** [d[k] = v] on a dict: replaces the value in place, or appends the item. *)
Fixpoint assoc_set (k : string) (v : pyval) (d : list (string * pyval))
  : list (string * pyval) :=
  match d with
  | [] => [(k, v)]
  | (k', v') :: d' =>
      if String.eqb k k' then (k, v) :: d' else (k', v') :: assoc_set k v d'
  end.

Fixpoint is_substring (needle hay : string) : bool :=
  if String.prefix needle hay then true
  else match hay with
       | EmptyString => false
       | String _ hay' => is_substring needle hay'
       end.

Definition is_str (k : string) (v : pyval) : bool :=
  match v with PStr s => String.eqb k s | _ => false end.

(** [k in v] for a string [k]. *)
Definition py_in (k : string) (v : pyval) : result bool :=
  match v with
  | PDict d => Ok (bool_decide (is_Some (assoc k d)))
  | PList l => Ok (existsb (is_str k) l)
  | PStr s => Ok (is_substring k s)
  | _ => Raise TypeError
  end.

(** [v[k]] for a string [k]. *)
Definition py_getitem (v : pyval) (k : string) : result pyval :=
  match v with
  | PDict d => match assoc k d with
               | Some x => Ok x
               | None => Raise (KeyError k)
               end
  | _ => Raise TypeError
  end.

(** [v.get(k, dflt)]. *)
Definition py_get (v : pyval) (k : string) (dflt : pyval) : result pyval :=
  match v with
  | PDict d => Ok (default dflt (assoc k d))
  | _ => Raise AttributeError
  end.

Fixpoint chars (s : string) : list pyval :=
  match s with
  | EmptyString => []
  | String c s' => PStr (String c EmptyString) :: chars s'
  end.

(** The elements a [for] loop over [v] visits. *)
Definition py_iter (v : pyval) : result (list pyval) :=
  match v with
  | PList l => Ok l
  | PDict d => Ok (map (fun kv => PStr (fst kv)) d)
  | PStr s => Ok (chars s)
  | _ => Raise TypeError
  end.

(** [v.items()]. *)
Definition py_items (v : pyval) : result (list (string * pyval)) :=
  match v with
  | PDict d => Ok d
  | _ => Raise AttributeError
  end.

(** What [json.dump] accepts. *)
Fixpoint is_json (v : pyval) : bool :=
  match v with
  | PList l => forallb is_json l
  | PDict d => forallb (fun kv => is_json (snd kv)) d
  | PObj _ => false
  | _ => true
  end.

(** ** The file system

    A file holds a JSON document (what [json.dump] wrote in full; the model
    identifies a document with the value it denotes, so formatting is not
    represented), the beginning of one ([json.dump] raised midway), nothing
    (just opened for writing), or video data.  Every call that reaches the
    file system is recorded, in order, with its effect on the files given by
    [apply_op]: the files a concurrent reader can see are those after some
    prefix of the recorded calls. *)

Inductive fcontent : Type :=
| FEmpty
| FPartial
| FJson (doc : pyval)
| FMedia (video : nat).

Inductive fs_op : Type :=
| OpStat (p : string)
| OpOpenRead (p : string)
| OpOpenWrite (p : string)
| OpWriteJson (p : string) (doc : pyval)
| OpWritePartial (p : string)
| OpWriteMedia (p : string) (video : nat)
| OpRemove (p : string)
| OpRename (src dst : string).

Definition apply_op (fl : gmap string fcontent) (op : fs_op)
  : gmap string fcontent :=
  match op with
  | OpStat _ | OpOpenRead _ => fl
  | OpOpenWrite p => <[p := FEmpty]> fl
  | OpWriteJson p doc => <[p := FJson doc]> fl
  | OpWritePartial p => <[p := FPartial]> fl
  | OpWriteMedia p v => <[p := FMedia v]> fl
  | OpRemove p => delete p fl
  | OpRename src dst =>
      match fl !! src with
      | Some c => <[dst := c]> (delete src fl)
      | None => fl
      end
  end.

Definition run_ops (fl : gmap string fcontent) (ops : list fs_op)
  : gmap string fcontent :=
  foldl apply_op fl ops.

(** ** The remote client

    [operation.done] and [operation.response.generated_videos] are what the
    script reads of an operation; a generated video is named by a number.
    The client is any deterministic collaborator: each of its four calls
    answers from the calls made so far and the arguments, by returning or by
    raising.  Building the request ([types.GenerateVideosConfig],
    [types.Image]) belongs to the submission: an error there is an error of
    [generate_videos]. *)

Record remote_operation : Type := RemoteOperation {
  op_done : bool;
  op_response : option (list nat);
}.

Record request : Type := Request {
  rq_model : string;
  rq_prompt : string;
  rq_aspect_ratio : string;
  rq_number_of_videos : Z;
  rq_image : option (string * string);
}.

Inductive remote_call : Type :=
| CallGenerateVideos (r : request)
| CallOperationsGet (o : remote_operation)
| CallFilesDownload (video : nat)
| CallVideoSave (video : nat) (path : string).

Record Client : Type := {
  generate_videos : list remote_call -> request -> result remote_operation;
  operations_get :
    list remote_call -> remote_operation -> result remote_operation;
  files_download : list remote_call -> nat -> result unit;
  video_save : list remote_call -> nat -> string -> result unit;
}.

(** ** What the user is shown *)

Inductive message : Type :=
| MsgSaveError (e : exn)
| MsgLoadWarning (e : exn)
| MsgClientNotInitialized
| MsgGenerationError (e : exn)
| MsgCheckApiAccess
| MsgTimedOut (i : nat) (seconds : nat).

Inductive progress_text : Type :=
| TxtGenerating (i : nat) (n : Z)
| TxtElapsed (i : nat) (n : Z) (elapsed_time : nat)
| TxtCompleted (i : nat) (n : Z).

(** [StProgress h n t] shows the fraction [h / (2 * n)] with text [t]. *)
Inductive ui_event : Type :=
| StError (m : message)
| StWarning (m : message)
| StInfo (m : message)
| StProgress (halves : nat) (n : Z) (t : progress_text)
| StProgressEmpty.

(** ** The world *)

(** [uuid4 k] is the first eight characters of the [k]-th identifier drawn;
    [isoformat t] and [strftime t] print the time [t]. *)
Record oracle : Type := {
  uuid4 : nat -> string;
  isoformat : nat -> string;
  strftime : nat -> string;
}.

Record world : Type := World {
  sessions : pyval;
  current_session_id : option string;
  client : option Client;
  files : gmap string fcontent;
  readonly : gset string;
  open_fds : gset Z;
  fs_trace : list fs_op;
  ui : list ui_event;
  remote_log : list remote_call;
  clock : nat;
  uuid_next : nat;
  rand : oracle;
}.

Definition set_sessions (v : pyval) (w : world) : world :=
  World v (current_session_id w) (client w) (files w) (readonly w)
    (open_fds w) (fs_trace w) (ui w) (remote_log w) (clock w) (uuid_next w)
    (rand w).

Definition set_current_session_id (c : option string) (w : world) : world :=
  World (sessions w) c (client w) (files w) (readonly w)
    (open_fds w) (fs_trace w) (ui w) (remote_log w) (clock w) (uuid_next w)
    (rand w).

(** A call to the file system: recorded, and applied to the files. *)
Definition do_fs (op : fs_op) (w : world) : world :=
  World (sessions w) (current_session_id w) (client w)
    (apply_op (files w) op) (readonly w)
    (open_fds w) (fs_trace w ++ [op]) (ui w) (remote_log w) (clock w)
    (uuid_next w) (rand w).

Definition show (ev : ui_event) (w : world) : world :=
  World (sessions w) (current_session_id w) (client w) (files w) (readonly w)
    (open_fds w) (fs_trace w) (ui w ++ [ev]) (remote_log w) (clock w)
    (uuid_next w) (rand w).

Definition log_call (c : remote_call) (w : world) : world :=
  World (sessions w) (current_session_id w) (client w) (files w) (readonly w)
    (open_fds w) (fs_trace w) (ui w) (remote_log w ++ [c]) (clock w)
    (uuid_next w) (rand w).

Definition set_clock (t : nat) (w : world) : world :=
  World (sessions w) (current_session_id w) (client w) (files w) (readonly w)
    (open_fds w) (fs_trace w) (ui w) (remote_log w) t (uuid_next w) (rand w).

Definition set_uuid_next (k : nat) (w : world) : world :=
  World (sessions w) (current_session_id w) (client w) (files w) (readonly w)
    (open_fds w) (fs_trace w) (ui w) (remote_log w) (clock w) k (rand w).

(** ** Computations: state passing with exceptions

    A raised exception keeps the state reached so far: what Python had
    already done when it raised stays done. *)

Definition M (S A : Type) : Type := S -> result A * S.

Definition ret {S A} (a : A) : M S A := fun s => (Ok a, s).

Definition raise {S A} (e : exn) : M S A := fun s => (Raise e, s).

Definition bind {S A B} (c : M S A) (k : A -> M S B) : M S B :=
  fun s =>
    match c s with
    | (Ok a, s') => k a s'
    | (Raise e, s') => (Raise e, s')
    end.

Notation "'let*' x ':=' c 'in' k" := (bind c (fun x => k))
  (at level 10, x name, c at level 100, k at level 200).
Notation "c ';;;' k" := (bind c (fun _ => k))
  (at level 100, k at level 200, right associativity).

(** [try: body except Exception as e: handler e]. *)
Definition try_except {S A} (body : M S A) (handler : exn -> M S A) : M S A :=
  fun s =>
    match body s with
    | (Ok a, s') => (Ok a, s')
    | (Raise e, s') => handler e s'
    end.

Definition lift_result {S A} (r : result A) : M S A := fun s => (r, s).

Definition gets {S A} (f : S -> A) : M S A := fun s => (Ok (f s), s).

Definition modify {S} (f : S -> S) : M S unit := fun s => (Ok tt, f s).

(** [for x in xs: body x]. *)
Fixpoint for_each {S A} (xs : list A) (body : A -> M S unit) : M S unit :=
  match xs with
  | [] => ret tt
  | x :: xs' => body x ;;; for_each xs' body
  end.

(** ** Streamlit and operating-system calls *)

Definition st_error (m : message) : M world unit := modify (show (StError m)).
Definition st_warning (m : message) : M world unit :=
  modify (show (StWarning m)).
Definition st_info (m : message) : M world unit := modify (show (StInfo m)).

(** An integer given as a path is a file descriptor, and must fit a C
    [int]. *)
Definition stat_fd (z : Z) : M world bool :=
  if ((- 2 ^ 31 <=? z) && (z <? 2 ^ 31))%Z
  then gets (fun w => bool_decide (z ∈ open_fds w))
  else raise OverflowError.

(** [os.path.exists(v)]: [os.stat] on a path, or on a file descriptor when
    [v] is an integer ([True] is 1, [False] is 0); [None] and the other
    types make [os.stat] raise [TypeError], which [exists] lets through. *)
Definition os_path_exists (v : pyval) : M world bool :=
  match v with
  | PStr p =>
      modify (do_fs (OpStat p)) ;;;
      gets (fun w => bool_decide (is_Some (files w !! p)))
  | PInt z => stat_fd z
  | PBool b => stat_fd (if b then 1 else 0)
  | _ => raise TypeError
  end.

(** [os.remove(v)]. *)
Definition os_remove (v : pyval) : M world unit :=
  match v with
  | PStr p =>
      let* present := gets (fun w => bool_decide (is_Some (files w !! p))) in
      let* ro := gets (fun w => bool_decide (p ∈ readonly w)) in
      if negb present then raise (FileNotFoundError p)
      else if ro then raise (PermissionError p)
      else modify (do_fs (OpRemove p))
  | _ => raise TypeError
  end.

Definition generated_videos_dir : string := "generated_videos".

(** [dir / name] on paths. *)
Definition path_join (dir name : string) : string := dir +:+ "/" +:+ name.

(** ** [delete_session] *)

(** The body of the inner loop: the file of one video. *)
Definition remove_artifact (video : pyval) : M world unit :=
  let* has := lift_result (py_in "local_path" video) in
  let* there :=
    if has then
      let* p := lift_result (py_getitem video "local_path") in
      os_path_exists p
    else ret false in
  if there then
    try_except
      (let* p := lift_result (py_getitem video "local_path") in
       os_remove p)
      (fun _ => ret tt)
  else ret tt.

(** The body of the outer loop: the videos of one generation. *)
Definition remove_artifacts (generation : pyval) : M world unit :=
  let* vids := lift_result (py_get generation "videos" (PList [])) in
  let* vids := lift_result (py_iter vids) in
  for_each vids remove_artifact.

Definition delete_session (session_id : string) : M world unit :=
  let* ss := gets sessions in
  let* known := lift_result (py_in session_id ss) in
  if known then
    let* session := lift_result (py_getitem ss session_id) in
    let* gens := lift_result (py_get session "generations" (PList [])) in
    let* gens := lift_result (py_iter gens) in
    for_each gens remove_artifacts ;;;
    let* ss := gets sessions in
    match ss with
    | PDict d => modify (set_sessions (PDict (assoc_del session_id d)))
    | _ => raise TypeError
    end ;;;
    let* cur := gets current_session_id in
    if bool_decide (cur = Some session_id)
    then modify (set_current_session_id None)
    else ret tt
  else ret tt.

(** ** [save_sessions_to_file] *)

Definition rbind {A B} (r : result A) (k : A -> result B) : result B :=
  match r with
  | Ok a => k a
  | Raise e => Raise e
  end.

Notation "'let?' x ':=' r 'in' k" := (rbind r (fun x => k))
  (at level 10, x name, r at level 100, k at level 200).

Fixpoint map_result {A B} (f : A -> result B) (xs : list A)
  : result (list B) :=
  match xs with
  | [] => Ok []
  | x :: xs' =>
      let? y := f x in
      let? ys := map_result f xs' in
      Ok (y :: ys)
  end.

(** The dict literal [video_copy]; its values are evaluated in order. *)
Definition copy_video (video : pyval) : result pyval :=
  let? id := py_getitem video "id" in
  let? prompt := py_getitem video "prompt" in
  let? aspect_ratio := py_getitem video "aspect_ratio" in
  let? model_version := py_getitem video "model_version" in
  let? created_at := py_getitem video "created_at" in
  let? local_path := py_get video "local_path" (PStr "") in
  let? status := py_getitem video "status" in
  Ok (PDict [("id", id); ("prompt", prompt); ("aspect_ratio", aspect_ratio);
             ("model_version", model_version); ("created_at", created_at);
             ("local_path", local_path); ("status", status)]).

(** [gen_copy], once the loop over [gen.get("videos", [])] has appended
    the copy of each video to its ["videos"] list. *)
Definition copy_generation (gen : pyval) : result pyval :=
  let? timestamp := py_getitem gen "timestamp" in
  let? prompt := py_getitem gen "prompt" in
  let? settings := py_getitem gen "settings" in
  let? videos := py_get gen "videos" (PList []) in
  let? videos := py_iter videos in
  let? copies := map_result copy_video videos in
  Ok (PDict [("timestamp", timestamp); ("prompt", prompt);
             ("settings", settings); ("videos", PList copies)]).

(** [sessions_copy[sid]], once the loop over the generations has run. *)
Definition copy_session (session : pyval) : result pyval :=
  let? id := py_getitem session "id" in
  let? created_at := py_getitem session "created_at" in
  let? name := py_getitem session "name" in
  let? gens := py_get session "generations" (PList []) in
  let? gens := py_iter gens in
  let? copies := map_result copy_generation gens in
  Ok (PDict [("id", id); ("created_at", created_at); ("name", name);
             ("generations", PList copies)]).

(** The loop over [sessions.items()], filling [sessions_copy]. *)
Fixpoint copy_items (items : list (string * pyval))
    (sessions_copy : list (string * pyval)) : result (list (string * pyval)) :=
  match items with
  | [] => Ok sessions_copy
  | (sid, session) :: rest =>
      let? c := copy_session session in
      copy_items rest (assoc_set sid c sessions_copy)
  end.

Definition copy_sessions (ss : pyval) : result pyval :=
  let? items := py_items ss in
  let? sessions_copy := copy_items items [] in
  Ok (PDict sessions_copy).

(** [open(p, "w")]: creates the file or truncates it. *)
Definition open_write (p : string) : M world unit :=
  let* ro := gets (fun w => bool_decide (p ∈ readonly w)) in
  if ro then raise (PermissionError p) else modify (do_fs (OpOpenWrite p)).

(** [open(p, "r")]. *)
Definition open_read (p : string) : M world unit :=
  let* present := gets (fun w => bool_decide (is_Some (files w !! p))) in
  if present then modify (do_fs (OpOpenRead p))
  else raise (FileNotFoundError p).

(** [json.dump(v, f, indent=2)] into the file opened at [p]: the document is
    written piece by piece, so a value it cannot serialize leaves the
    beginning of the document in the file. *)
Definition json_dump (v : pyval) (p : string) : M world unit :=
  if is_json v then modify (do_fs (OpWriteJson p v))
  else modify (do_fs (OpWritePartial p)) ;;; raise TypeError.

(** [json.load(f)] from the file opened at [p]. *)
Definition json_load (p : string) : M world pyval :=
  let* c := gets (fun w => files w !! p) in
  match c with
  | Some (FJson doc) => if is_json doc then ret doc else raise JSONDecodeError
  | _ => raise JSONDecodeError
  end.

(** [Path(p).exists()]. *)
Definition path_exists (p : string) : M world bool :=
  modify (do_fs (OpStat p)) ;;;
  gets (fun w => bool_decide (is_Some (files w !! p))).

Definition sessions_file : string :=
  path_join generated_videos_dir "sessions.json".

Definition legacy_file : string := "veo3_sessions.json".

(** The body of the [try] of [save_sessions_to_file]. *)
Definition save_body : M world unit :=
  let* ss := gets sessions in
  let* sessions_copy := lift_result (copy_sessions ss) in
  open_write sessions_file ;;;
  json_dump sessions_copy sessions_file.

Definition save_sessions_to_file : M world unit :=
  try_except save_body (fun e => st_error (MsgSaveError e)).

(** ** [load_sessions_from_file] *)

Definition load_body : M world unit :=
  let* there := path_exists sessions_file in
  if there then
    open_read sessions_file ;;;
    let* doc := json_load sessions_file in
    modify (set_sessions doc)
  else
    let* legacy := path_exists legacy_file in
    if legacy then
      open_read legacy_file ;;;
      let* doc := json_load legacy_file in
      modify (set_sessions doc) ;;;
      open_write sessions_file ;;;
      let* ss := gets sessions in
      json_dump ss sessions_file
    else ret tt.

Definition load_sessions_from_file : M world unit :=
  try_except load_body (fun e => st_warning (MsgLoadWarning e)).

(** ** [generate_videos_with_veo3] *)

(** The local variable [videos] next to the world: what was appended before
    an exception is still there when the function returns. *)
Definition frame : Type := list pyval * world.

Definition in_world {A} (c : M world A) : M frame A :=
  fun s =>
    match c (snd s) with
    | (r, w') => (r, (fst s, w'))
    end.

(** [videos.append(v)]. *)
Definition append_video (v : pyval) : M frame unit :=
  modify (fun s => (fst s ++ [v], snd s)).

(** [str(uuid.uuid4())[:8]]. *)
Definition new_video_id : M world string :=
  let* k := gets uuid_next in
  let* o := gets rand in
  modify (set_uuid_next (S k)) ;;;
  ret (uuid4 o k).

(** [datetime.now().strftime('%Y%m%d_%H%M%S')] and
    [datetime.now().isoformat()]. *)
Definition now_strftime : M world string :=
  let* t := gets clock in
  let* o := gets rand in
  ret (strftime o t).

Definition now_isoformat : M world string :=
  let* t := gets clock in
  let* o := gets rand in
  ret (isoformat o t).

(** [time.sleep(secs)]. *)
Definition time_sleep (secs : nat) : M world unit :=
  let* t := gets clock in
  modify (set_clock (t + secs)).

(** A call to the client is recorded whether it returns or raises. *)
Definition remote {A} (call : remote_call)
    (answer : list remote_call -> result A) : M world A :=
  let* history := gets remote_log in
  modify (log_call call) ;;;
  lift_result (answer history).

Definition client_generate_videos (c : Client) (r : request)
  : M world remote_operation :=
  remote (CallGenerateVideos r) (fun h => generate_videos c h r).

Definition client_operations_get (c : Client) (o : remote_operation)
  : M world remote_operation :=
  remote (CallOperationsGet o) (fun h => operations_get c h o).

Definition client_files_download (c : Client) (video : nat) : M world unit :=
  remote (CallFilesDownload video) (fun h => files_download c h video).

(** [generated_video.video.save(path)]: the file is written when the call
    returns. *)
Definition client_video_save (c : Client) (video : nat) (path : string)
  : M world unit :=
  remote (CallVideoSave video path) (fun h => video_save c h video path) ;;;
  modify (do_fs (OpWriteMedia path video)).

(** [operation.response.generated_videos[0]]. *)
Definition first_generated_video (o : remote_operation) : result nat :=
  match op_response o with
  | None => Raise AttributeError
  | Some [] => Raise IndexError
  | Some (v :: _) => Ok v
  end.

Definition max_polls : nat := 60.

Definition st_progress (halves : nat) (n : Z) (t : progress_text)
  : M world unit :=
  modify (show (StProgress halves n t)).

(** The [while] loop of variation [i].  It runs at most [max_polls] times;
    [fuel] bounds the recursion and is never what stops it (see
    [poll_loop_exit]). *)
Fixpoint poll_loop (fuel : nat) (c : Client) (i : nat) (num_variations : Z)
    (operation : remote_operation) (poll_count : nat)
  : M world (remote_operation * nat) :=
  if negb (op_done operation) && (poll_count <? max_polls)%nat then
    match fuel with
    | O => ret (operation, poll_count)
    | S fuel' =>
        time_sleep 10 ;;;
        let* operation := client_operations_get c operation in
        let poll_count := poll_count + 1 in
        let elapsed_time := poll_count * 10 in
        st_progress (2 * i + 1) num_variations
          (TxtElapsed i num_variations elapsed_time) ;;;
        poll_loop fuel' c i num_variations operation poll_count
    end
  else ret (operation, poll_count).

Definition video_data (video_id prompt aspect_ratio model_version
    created_at : string) (local_path : pyval) (status : string) : pyval :=
  PDict [("id", PStr video_id); ("prompt", PStr prompt);
         ("aspect_ratio", PStr aspect_ratio);
         ("model_version", PStr model_version);
         ("created_at", PStr created_at);
         ("local_path", local_path); ("status", PStr status)].

(** [if image_gcs_uri:] holds for a string that is not empty. *)
Definition request_kwargs (prompt aspect_ratio model_version : string)
    (image_gcs_uri : option string) (image_mime_type : string) : request :=
  Request model_version prompt aspect_ratio 1
    match image_gcs_uri with
    | Some uri => if String.eqb uri "" then None
                  else Some (uri, image_mime_type)
    | None => None
    end.

(** The body of the [for] loop, for variation [i]. *)
Definition variation (c : Client) (prompt aspect_ratio model_version : string)
    (num_variations : Z) (image_gcs_uri : option string)
    (image_mime_type : string) (i : nat) : M frame unit :=
  let* video_id := in_world new_video_id in
  in_world (st_progress (2 * i) num_variations
              (TxtGenerating i num_variations)) ;;;
  let* operation :=
    in_world (client_generate_videos c
      (request_kwargs prompt aspect_ratio model_version image_gcs_uri
         image_mime_type)) in
  let* polled :=
    in_world (poll_loop max_polls c i num_variations operation 0) in
  let operation := fst polled in
  (if op_done operation then
     let* generated_video :=
       lift_result (first_generated_video operation) in
     let* stamp := in_world now_strftime in
     let video_filename := "veo3_" +:+ video_id +:+ "_" +:+ stamp +:+ ".mp4" in
     let video_path := path_join generated_videos_dir video_filename in
     in_world (client_files_download c generated_video) ;;;
     in_world (client_video_save c generated_video video_path) ;;;
     let* created_at := in_world now_isoformat in
     append_video
       (video_data video_id prompt aspect_ratio model_version created_at
          (PStr video_path) "completed") ;;;
     in_world (st_progress (2 * i + 2) num_variations
                 (TxtCompleted i num_variations))
   else
     in_world (st_warning (MsgTimedOut i (max_polls * 10))) ;;;
     let* created_at := in_world now_isoformat in
     append_video
       (video_data video_id prompt aspect_ratio model_version created_at
          PNone "timeout")) ;;;
  if (Z.of_nat i =? num_variations - 1)%Z
  then in_world (modify (show StProgressEmpty))
  else ret tt.

(** [range(n)]. *)
Definition range (n : Z) : list nat := seq 0 (Z.to_nat n).

(** The [try] statement of [generate_videos_with_veo3]. *)
Definition generation_loop (c : Client)
    (prompt aspect_ratio model_version : string) (num_variations : Z)
    (image_gcs_uri : option string) (image_mime_type : string)
  : M frame unit :=
  try_except
    (for_each (range num_variations)
       (variation c prompt aspect_ratio model_version num_variations
          image_gcs_uri image_mime_type))
    (fun e =>
       in_world (st_error (MsgGenerationError e)) ;;;
       in_world (st_info MsgCheckApiAccess)).

Definition generate_videos_with_veo3
    (prompt aspect_ratio model_version : string) (num_variations : Z)
    (image_gcs_uri : option string) (image_mime_type : string)
  : M world (list pyval) :=
  fun w =>
    match client w with
    | None => (Ok [], show (StError MsgClientNotInitialized) w)
    | Some c =>
        let out :=
          generation_loop c prompt aspect_ratio model_version num_variations
            image_gcs_uri image_mime_type ([], w) in
        (Ok (fst (snd out)), snd (snd out))
    end.

(** ** [create_new_session] *)

(** [v[k] = x] for a string [k]: only a dict takes it. *)
Definition py_setitem (v : pyval) (k : string) (x : pyval) : result pyval :=
  match v with
  | PDict d => Ok (PDict (assoc_set k x d))
  | _ => Raise TypeError
  end.

(** The session record [create_new_session] builds. *)
Definition new_session (session_id created_at name : string) : pyval :=
  PDict [("id", PStr session_id); ("created_at", PStr created_at);
         ("name", PStr name); ("generations", PList [])].

(** [strftime_minutes t] prints the time [t] with ['%Y-%m-%d %H:%M'].  The
    identifier is drawn as a video identifier is, by
    [str(uuid.uuid4())[:8]]. *)
Definition create_new_session (strftime_minutes : nat -> string)
  : M world string :=
  let* session_id := new_video_id in
  let* created_at := now_isoformat in
  let* t := gets clock in
  let name := "Session " +:+ strftime_minutes t in
  let* ss := gets sessions in
  let* ss := lift_result
               (py_setitem ss session_id
                  (new_session session_id created_at name)) in
  modify (set_sessions ss) ;;;
  ret session_id.

(** ** [display_video_card] *)

(** What a card shows, in order: the three lines of text, then the video
    and its download button, or an error, or one of the two notices. *)
Inductive card_item : Type :=
| CardVideoId (id : pyval)
| CardCreated (created_at : pyval)
| CardStatus (status : pyval)
| CardVideo (data : fcontent)
| CardDownload (data : fcontent) (id created_at : pyval)
| CardLoadError (e : exn)
| CardTimedOut
| CardNotAvailable.

(** The card being filled, next to the world. *)
Definition card : Type := list card_item * world.

Definition on_world {L A} (c : M world A) : M (L * world) A :=
  fun s =>
    match c (snd s) with
    | (r, w') => (r, (fst s, w'))
    end.

Definition put (item : card_item) : M card unit :=
  modify (fun s => (fst s ++ [item], snd s)).

(** [bool(v)]. *)
Definition py_truthy (v : pyval) : bool :=
  match v with
  | PNone => false
  | PBool b => b
  | PInt z => negb (z =? 0)%Z
  | PStr s => negb (String.eqb s "")
  | PList l => match l with [] => false | _ => true end
  | PDict d => match d with [] => false | _ => true end
  | PObj _ => true
  end.

(** A [str] is held as its UTF-8 bytes, and Python counts characters: the
    bytes [10xxxxxx] go on with the character begun before them. *)
Definition is_continuation (a : Ascii.ascii) : bool :=
  (128 <=? Ascii.nat_of_ascii a)%nat && (Ascii.nat_of_ascii a <? 192)%nat.

(** The first [k] characters of [s]. *)
Fixpoint str_take (k : nat) (s : string) : string :=
  match s with
  | EmptyString => EmptyString
  | String a s' =>
      if is_continuation a then String a (str_take k s')
      else match k with
           | O => EmptyString
           | S k' => String a (str_take k' s')
           end
  end.

(** [v[:k]]: a string and a list can be sliced; a dict refuses a slice as
    a key (with [TypeError] up to Python 3.11, the version modelled). *)
Definition py_slice_to (k : nat) (v : pyval) : result pyval :=
  match v with
  | PStr s => Ok (PStr (str_take k s))
  | PList l => Ok (PList (take k l))
  | _ => Raise TypeError
  end.

(** [open(v, "rb").read()]: the content of the file at a path; what
    [read_fd] gives for a file descriptor. *)
Definition read_bytes (read_fd : Z -> result fcontent) (v : pyval)
  : M world fcontent :=
  match v with
  | PStr p =>
      open_read p ;;;
      let* c := gets (fun w => files w !! p) in
      match c with
      | Some data => ret data
      | None => raise (FileNotFoundError p)
      end
  | PInt z => lift_result (read_fd z)
  | PBool b => lift_result (read_fd (if b then 1 else 0)%Z)
  | _ => raise TypeError
  end.

Definition display_video_card (read_fd : Z -> result fcontent)
    (video : pyval) : M card unit :=
  let* id := lift_result (py_getitem video "id") in
  put (CardVideoId id) ;;;
  let* created_at := lift_result (py_getitem video "created_at") in
  let* created := lift_result (py_slice_to 19 created_at) in
  put (CardCreated created) ;;;
  let* status := lift_result (py_getitem video "status") in
  put (CardStatus status) ;;;
  let* local_path := lift_result (py_get video "local_path" PNone) in
  let* there :=
    if py_truthy local_path then
      let* p := lift_result (py_getitem video "local_path") in
      on_world (os_path_exists p)
    else ret false in
  if there then
    try_except
      (let* p := lift_result (py_getitem video "local_path") in
       let* video_bytes := on_world (read_bytes read_fd p) in
       put (CardVideo video_bytes) ;;;
       let* id := lift_result (py_getitem video "id") in
       let* created_at := lift_result (py_getitem video "created_at") in
       put (CardDownload video_bytes id created_at))
      (fun e => put (CardLoadError e))
  else
    let* status := lift_result (py_getitem video "status") in
    if is_str "timeout" status then put CardTimedOut
    else put CardNotAvailable.

(** The notice shown in place of the video. *)
Definition notice (status : pyval) : card_item :=
  if is_str "timeout" status then CardTimedOut else CardNotAvailable.

(** ** [main]: what follows the Generate button *)

Definition ASPECT_RATIOS : list (string * string) :=
  [("16:9 (Widescreen)", "16:9"); ("9:16 (Portrait)", "9:16");
   ("1:1 (Square)", "1:1"); ("4:3 (Standard)", "4:3");
   ("3:2 (Photo)", "3:2"); ("21:9 (Cinema)", "21:9");
   ("4:5 (Portrait)", "4:5"); ("2:3 (Portrait)", "2:3")].

Definition MODEL_VERSIONS : list (string * string) :=
  [("Veo 3 Fast", "veo-3.0-fast-generate-preview");
   ("Veo 3 Quality", "veo-3.0-generate-preview")].

(** [table[k]] on one of the two constant dicts. *)
Fixpoint table_get (table : list (string * string)) (k : string)
  : result string :=
  match table with
  | [] => Raise (KeyError k)
  | (k', v) :: table' => if String.eqb k k' then Ok v else table_get table' k
  end.

(** [v.append(x)]: only a list has it. *)
Definition py_append (v x : pyval) : result pyval :=
  match v with
  | PList l => Ok (PList (l ++ [x]))
  | _ => Raise AttributeError
  end.

(** The dict [generation] built from the form and the videos returned. *)
Definition generation_of (timestamp prompt aspect_ratio model_version : string)
    (num_variations : Z) (image_gcs_uri : string) (videos : list pyval)
  : pyval :=
  PDict [("timestamp", PStr timestamp); ("prompt", PStr prompt);
         ("settings",
          PDict [("aspect_ratio", PStr aspect_ratio);
                 ("model_version", PStr model_version);
                 ("num_variations", PInt num_variations);
                 ("image_gcs_uri", PStr image_gcs_uri)]);
         ("videos", PList videos)].

(** Lines 386, 387 and 465 to 492 of [main]: the current session is looked
    up under [session_id], the active-session reference that line 382
    found set, and its name is read for the subheader; then, the button
    being pressed, a prompt given and the API key configured, the job is
    run with the values that the labels chosen in the form stand for, and
    if it returns any video the generation is appended to the session (the
    object that is in the mapping) and the mapping is saved.  The widgets
    of the page are not represented, nor [st.success] and [st.rerun],
    which follow the save; [aspect_ratio] and [model_version] are the
    labels, [image_gcs_uri] the text of the field. *)
Definition main_generate (session_id prompt aspect_ratio model_version : string)
    (num_variations : Z) (image_gcs_uri image_mime_type : string)
  : M world (list pyval) :=
  let* ss := gets sessions in
  let* current_session := lift_result (py_getitem ss session_id) in
  lift_result (py_getitem current_session "name") ;;;
  let* ar := lift_result (table_get ASPECT_RATIOS aspect_ratio) in
  let* mv := lift_result (table_get MODEL_VERSIONS model_version) in
  let* videos :=
    generate_videos_with_veo3 prompt ar mv num_variations
      (if String.eqb image_gcs_uri "" then None else Some image_gcs_uri)
      image_mime_type in
  match videos with
  | [] => ret videos
  | _ :: _ =>
      let* timestamp := now_isoformat in
      let generation :=
        generation_of timestamp prompt aspect_ratio model_version
          num_variations image_gcs_uri videos in
      let* gens := lift_result (py_getitem current_session "generations") in
      let* gens := lift_result (py_append gens generation) in
      let* updated :=
        lift_result (py_setitem current_session "generations" gens) in
      let* ss := gets sessions in
      let* ss := lift_result (py_setitem ss session_id updated) in
      modify (set_sessions ss) ;;;
      save_sessions_to_file ;;;
      ret videos
  end.

(** ** Vocabulary of the properties *)

(** [c] never leaves the relation [R] between the state it starts from and
    the state it ends in, whether it returns or raises. *)
Definition preserves {S A} (R : relation S) (c : M S A) : Prop :=
  forall s, R s (snd (c s)).

(** The Streamlit session state is left as it was. *)
Definition same_session_state : relation world := fun w w' =>
  sessions w' = sessions w /\
  current_session_id w' = current_session_id w /\
  client w' = client w.

(** Only the file system changed, and by the calls [ops]. *)
Definition after_ops (w : world) (ops : list fs_op) : world :=
  foldl (fun w op => do_fs op w) w ops.

Definition fs_only : relation world := fun w w' =>
  exists ops, w' = after_ops w ops.

(** The file-system calls made between [w] and [w']. *)
Definition ops_since (w w' : world) : list fs_op :=
  drop (length (fs_trace w)) (fs_trace w').

(** What a reader of the session file finds once the first [k] of the
    calls [ops] have been made. *)
Definition reader_view (w : world) (ops : list fs_op) (k : nat)
  : option fcontent :=
  run_ops (files w) (take k ops) !! sessions_file.

(** A reader finds no file, or a whole document. *)
Definition whole_document (c : option fcontent) : bool :=
  match c with
  | Some FEmpty | Some FPartial => false
  | _ => true
  end.

Definition changes_path (p : string) (op : fs_op) : bool :=
  match op with
  | OpStat _ | OpOpenRead _ => false
  | OpOpenWrite q | OpWriteJson q _ | OpWritePartial q | OpWriteMedia q _
  | OpRemove q => String.eqb p q
  | OpRename src dst => String.eqb p src || String.eqb p dst
  end.

Definition is_rename_onto (p : string) (op : fs_op) : bool :=
  match op with
  | OpRename src dst => String.eqb dst p && negb (String.eqb src p)
  | _ => false
  end.

(** C5 as the specification words it: among the calls of a save, only a
    rename of another file onto the session file changes the session file,
    and a reader of the session file never finds a document in the
    making. *)
Definition save_is_atomic (w : world) : Prop :=
  let ops := ops_since w (snd (save_sessions_to_file w)) in
  forallb (fun op => implb (changes_path sessions_file op)
                       (is_rename_onto sessions_file op)) ops = true /\
  (whole_document (files w !! sessions_file) = true ->
   forall k, whole_document (reader_view w ops k) = true).

(** A video whose [local_path] is a string or is not there, and a session
    all of whose videos are so. *)
Definition path_is_string (video : pyval) : bool :=
  match video with
  | PDict d => match assoc "local_path" d with
               | None | Some (PStr _) => true
               | _ => false
               end
  | _ => false
  end.

Definition videos_have_string_paths (generation : pyval) : bool :=
  match generation with
  | PDict d => match default (PList []) (assoc "videos" d) with
               | PList vs => forallb path_is_string vs
               | _ => false
               end
  | _ => false
  end.

Definition paths_are_strings (session : pyval) : bool :=
  match session with
  | PDict d => match default (PList []) (assoc "generations" d) with
               | PList gs => forallb videos_have_string_paths gs
               | _ => false
               end
  | _ => false
  end.

(** ** Session mappings and their equivalence

    A session mapping as the script builds it and as section 3 of the
    specification describes it: every session, generation and video is a
    dict that has each of its declared fields, with a value JSON can
    express; any further field may hold anything. *)

Definition session_fields : list string := ["id"; "created_at"; "name"].

Definition generation_fields : list string :=
  ["timestamp"; "prompt"; "settings"].

Definition video_fields : list string :=
  ["id"; "prompt"; "aspect_ratio"; "model_version"; "created_at";
   "local_path"; "status"].

Definition field (k : string) (v : pyval) : option pyval :=
  match v with
  | PDict d => assoc k d
  | _ => None
  end.

Definition list_field (k : string) (v : pyval) : option (list pyval) :=
  match field k v with
  | Some (PList l) => Some l
  | _ => None
  end.

Definition has_json (v : pyval) (k : string) : bool :=
  match field k v with
  | Some x => is_json x
  | None => false
  end.

Definition is_video (v : pyval) : bool := forallb (has_json v) video_fields.

Definition is_generation (g : pyval) : bool :=
  forallb (has_json g) generation_fields &&
  match list_field "videos" g with
  | Some vs => forallb is_video vs
  | None => false
  end.

Definition is_session (s : pyval) : bool :=
  forallb (has_json s) session_fields &&
  match list_field "generations" s with
  | Some gs => forallb is_generation gs
  | None => false
  end.

Definition is_session_mapping (m : pyval) : bool :=
  match m with
  | PDict d =>
      bool_decide (NoDup (map fst d)) &&
      forallb (fun kv => is_session (snd kv)) d
  | _ => false
  end.

(** Equivalence of session mappings as the specification words it for the
    round trip: the same session identifiers, and the same value in every
    declared (persisted) field of every session, generation and video;
    fields outside the declared lists are not compared. *)
Definition same_fields (ks : list string) (a b : pyval) : Prop :=
  Forall (fun k => field k a = field k b) ks.

Definition equiv_video (a b : pyval) : Prop := same_fields video_fields a b.

Definition equiv_generation (a b : pyval) : Prop :=
  same_fields generation_fields a b /\
  option_Forall2 (Forall2 equiv_video)
    (list_field "videos" a) (list_field "videos" b).

Definition equiv_session (a b : pyval) : Prop :=
  same_fields session_fields a b /\
  option_Forall2 (Forall2 equiv_generation)
    (list_field "generations" a) (list_field "generations" b).

Definition equiv_sessions (a b : pyval) : Prop :=
  forall sid, option_Forall2 equiv_session (field sid a) (field sid b).

(** ** Records saved with keys missing

    [save_sessions_to_file] reads three keys with [.get]: a video without
    [local_path] is saved with the empty string, a generation without
    [videos] and a session without [generations] with an empty list. *)

(** [v] with the key [k] added, holding [dflt], if it has no such key. *)
Definition with_default (k : string) (dflt : pyval) (v : pyval) : pyval :=
  match v with
  | PDict d => match assoc k d with
               | Some _ => v
               | None => PDict (d ++ [(k, dflt)])
               end
  | _ => v
  end.

(** [v] with [f] applied to each element of the list it has under [k]. *)
Definition on_list_field (k : string) (f : pyval -> pyval) (v : pyval)
  : pyval :=
  match v with
  | PDict d => match assoc k d with
               | Some (PList l) => PDict (assoc_set k (PList (map f l)) d)
               | _ => v
               end
  | _ => v
  end.

Definition fill_video (v : pyval) : pyval :=
  with_default "local_path" (PStr "") v.

Definition fill_generation (g : pyval) : pyval :=
  on_list_field "videos" fill_video (with_default "videos" (PList []) g).

Definition fill_session (s : pyval) : pyval :=
  on_list_field "generations" fill_generation
    (with_default "generations" (PList []) s).

(** The mapping with the three defaults filled in, in every record. *)
Definition with_defaults (m : pyval) : pyval :=
  match m with
  | PDict d => PDict (map (fun kv => (fst kv, fill_session (snd kv))) d)
  | _ => m
  end.

(** C6 as the specification words it: saving and then loading reproduces
    an equivalent session mapping. *)
Definition round_trip_law (w : world) : Prop :=
  let w1 := snd (save_sessions_to_file w) in
  let w2 := snd (load_sessions_from_file w1) in
  equiv_sessions (sessions w) (sessions w2).

(** [n] calls of [load_sessions_from_file], one after the other. *)
Fixpoint repeat_load (n : nat) (w : world) : world :=
  match n with
  | O => w
  | S n' => repeat_load n' (snd (load_sessions_from_file w))
  end.

(** What a copy is to its original: equivalent, expressible in JSON, of the
    declared shape, and its own copy. *)
Definition copy_of (shape : pyval -> bool) (copy : pyval -> result pyval)
    (equiv : pyval -> pyval -> Prop) (v c : pyval) : Prop :=
  equiv v c /\ is_json c = true /\ shape c = true /\ copy c = Ok c.

(** The items of the mapping next to the items of its copy. *)
Definition copied_item (kv kc : string * pyval) : Prop :=
  fst kv = fst kc /\ copy_session (snd kv) = Ok (snd kc).

(** ** Vocabulary of the generation job *)

(** What [generate_videos_with_veo3] returned. *)
Definition returned (out : result (list pyval) * world) : list pyval :=
  match fst out with
  | Ok videos => videos
  | Raise _ => []
  end.

(** The record the job appends for a variation whose identifier is [id]:
    completed with a path, or timed out with [None]. *)
Definition record_for (prompt aspect_ratio model_version id : string)
    (v : pyval) : Prop :=
  exists created_at,
    (exists path, v = video_data id prompt aspect_ratio model_version
                        created_at (PStr path) "completed") \/
    v = video_data id prompt aspect_ratio model_version created_at
          PNone "timeout".

Definition is_submit (c : remote_call) : bool :=
  match c with CallGenerateVideos _ => true | _ => false end.

Definition is_poll (c : remote_call) : bool :=
  match c with CallOperationsGet _ => true | _ => false end.

Definition is_progress (ev : ui_event) : bool :=
  match ev with StProgress _ _ _ | StProgressEmpty => true | _ => false end.

Definition is_error (ev : ui_event) : bool :=
  match ev with StError _ => true | _ => false end.

(** While polling: only the clock, the call log and the progress display
    change, the log by polls and the display by progress updates. *)
Definition polling : relation world := fun w w' =>
  sessions w' = sessions w /\ current_session_id w' = current_session_id w /\
  client w' = client w /\ files w' = files w /\ fs_trace w' = fs_trace w /\
  uuid_next w' = uuid_next w /\ rand w' = rand w /\
  (exists calls, remote_log w' = remote_log w ++ calls /\
                 forallb is_poll calls = true) /\
  (exists evs, ui w' = ui w ++ evs /\ forallb is_progress evs = true).

(** The world once variation [i] has drawn its identifier, shown its
    progress bar and called [generate_videos]. *)
Definition submitted (r : request) (i : nat) (n : Z) (w : world) : world :=
  log_call (CallGenerateVideos r)
    (show (StProgress (2 * i) n (TxtGenerating i n))
       (set_uuid_next (S (uuid_next w)) w)).

(** [if i == num_variations - 1: progress_bar.empty()]. *)
Definition last_step (i : nat) (n : Z) (w : world) : world :=
  if (Z.of_nat i =? n - 1)%Z then show StProgressEmpty w else w.

(** The next [k] polls of the operation [o], the first of them made with
    the call log [h], each return an operation that is not done. *)
Fixpoint stalls (c : Client) (k : nat) (h : list remote_call)
    (o : remote_operation) : bool :=
  match k with
  | O => true
  | S k' =>
      match operations_get c h o with
      | Ok o' =>
          negb (op_done o') && stalls c k' (h ++ [CallOperationsGet o]) o'
      | Raise _ => false
      end
  end.

(** An operation the job can finish with: if done, it carries a video. *)
Definition usable (o : remote_operation) : Prop :=
  op_done o = true -> exists v vs, op_response o = Some (v :: vs).

(** A client none of whose calls raises, and whose operations are usable. *)
Definition reliable (c : Client) : Prop :=
  (forall h r, exists o, generate_videos c h r = Ok o /\ usable o) /\
  (forall h o, exists o', operations_get c h o = Ok o' /\ usable o') /\
  (forall h v, files_download c h v = Ok tt) /\
  (forall h v p, video_save c h v p = Ok tt).

(** The client answered [call], made with the call log [h], without
    raising, and if the answer is an operation it is a usable one. *)
Definition call_ok (c : Client) (h : list remote_call) (call : remote_call)
  : Prop :=
  match call with
  | CallGenerateVideos r => exists o, generate_videos c h r = Ok o /\ usable o
  | CallOperationsGet o0 => exists o, operations_get c h o0 = Ok o /\ usable o
  | CallFilesDownload v => files_download c h v = Ok tt
  | CallVideoSave v p => video_save c h v p = Ok tt
  end.

(** Every call of [calls], made one after the other from the call log
    [h] on, was answered so: in this run no call raised and no operation
    came back done without a video. *)
Definition clean_calls (c : Client) (h calls : list remote_call) : Prop :=
  forall j call, calls !! j = Some call -> call_ok c (h ++ take j calls) call.

(** The calls of one variation: the submission of [req], then at most
    [max_polls] polls, then calls that are neither (the download and the
    save). *)
Definition variation_calls (req : request) (seg : list remote_call) : Prop :=
  exists polls rest,
    seg = CallGenerateVideos req :: polls ++ rest /\
    forallb is_poll polls = true /\
    length polls <= max_polls /\
    forallb (fun call => negb (is_submit call) && negb (is_poll call)) rest
    = true.

(** C1 as the specification words it: the job returns exactly one record
    per requested variation. *)
Definition returns_every_variation (prompt aspect_ratio model_version : string)
    (n : Z) (image_gcs_uri : option string) (image_mime_type : string)
    (w : world) : Prop :=
  length (returned (generate_videos_with_veo3 prompt aspect_ratio
                      model_version n image_gcs_uri image_mime_type w))
  = Z.to_nat n.

(** C2 as the specification words it, for a client that refuses every
    submission: each of the [n] variations is submitted, none is polled,
    and each gets a record with status [failed]. *)
Definition records_failed_submissions
    (prompt aspect_ratio model_version : string) (n : Z)
    (image_gcs_uri : option string) (image_mime_type : string)
    (w : world) : Prop :=
  let out := generate_videos_with_veo3 prompt aspect_ratio model_version n
               image_gcs_uri image_mime_type w in
  length (List.filter is_submit (remote_log (snd out))) = Z.to_nat n /\
  List.filter is_poll (remote_log (snd out)) = [] /\
  length (returned out) = Z.to_nat n /\
  Forall (fun v => field "status" v = Some (PStr "failed")) (returned out).

(** ** Concrete inputs *)

Definition demo_oracle : oracle := {|
  uuid4 := fun k =>
    match k with 0 => "0a1b2c3d" | 1 => "4e5f6a7b" | _ => "8c9d0e1f" end;
  isoformat := fun _ => "2025-06-01T12:00:00";
  strftime := fun _ => "20250601_120000";
|}.

Definition demo_artifact : string := "generated_videos/veo3_0a1b2c3d.mp4".

(** A session ["demo"] with one generation of two videos: a completed one,
    whose file exists, and one that timed out, stored as
    [generate_videos_with_veo3] builds it ([local_path] is [None]) or with
    the [local_path] given. *)
Definition demo_session (timeout_path : pyval) : pyval :=
  PDict [("id", PStr "demo"); ("created_at", PStr "2025-06-01T12:00:00");
         ("name", PStr "Session 2025-06-01 12:00");
         ("generations", PList [
            PDict [("timestamp", PStr "2025-06-01T12:10:00");
                   ("prompt", PStr "a cat");
                   ("settings", PDict [("num_variations", PInt 2)]);
                   ("videos", PList [
                      video_data "0a1b2c3d" "a cat" "16:9" "veo-3" "t1"
                        (PStr demo_artifact) "completed";
                      video_data "4e5f6a7b" "a cat" "16:9" "veo-3" "t2"
                        timeout_path "timeout"])]])].

Definition other_session : pyval :=
  PDict [("id", PStr "other"); ("created_at", PStr "2025-06-02T08:00:00");
         ("name", PStr "Session 2025-06-02 08:00");
         ("generations", PList [])].

Definition demo_world_with (timeout_path : pyval) : world :=
  World (PDict [("demo", demo_session timeout_path); ("other", other_session)])
    (Some "demo") None {[demo_artifact := FMedia 0]} ∅ ∅ [] [] [] 0 0
    demo_oracle.

Definition demo_world : world := demo_world_with PNone.

(** The world of ["demo"] once its mapping has been saved a first time. *)
Definition stored_world : world :=
  World (sessions demo_world) (Some "demo") None
    {[demo_artifact := FMedia 0; sessions_file := FJson (PDict [])]}
    ∅ ∅ [] [] [] 0 0 demo_oracle.

(** A first start after an upgrade: nothing in memory, no session file,
    and the legacy file holding the mapping of ["demo"]. *)
Definition legacy_world : world :=
  World (PDict []) None None
    {[legacy_file := FJson (sessions demo_world)]}
    ∅ ∅ [] [] [] 0 0 demo_oracle.

(** A mapping whose only video was stored without a [local_path]. *)
Definition sparse_world : world :=
  World (PDict [("demo",
           PDict [("id", PStr "demo");
                  ("created_at", PStr "2025-06-01T12:00:00");
                  ("name", PStr "Session 2025-06-01 12:00");
                  ("generations",
                   PList [PDict [("timestamp", PStr "2025-06-01T12:10:00");
                                 ("prompt", PStr "a cat");
                                 ("settings", PDict []);
                                 ("videos",
                                  PList [PDict [("id", PStr "0a1b2c3d");
                                                ("prompt", PStr "a cat");
                                                ("aspect_ratio", PStr "16:9");
                                                ("model_version", PStr "veo-3");
                                                ("created_at",
                                                 PStr "2025-06-01T12:10:00");
                                                ("status", PStr "timeout")]])]])])])
    None None ∅ ∅ ∅ [] [] [] 0 0 demo_oracle.

Definition pending : remote_operation := RemoteOperation false None.

(** A client whose operations never finish. *)
Definition stalled_client : Client := {|
  generate_videos := fun _ _ => Ok pending;
  operations_get := fun _ _ => Ok pending;
  files_download := fun _ _ => Ok tt;
  video_save := fun _ _ _ => Ok tt;
|}.

(** A client that refuses every submission. *)
Definition refusing_client : Client := {|
  generate_videos := fun _ _ => Raise (RemoteError 403);
  operations_get := fun _ _ => Ok pending;
  files_download := fun _ _ => Ok tt;
  video_save := fun _ _ _ => Ok tt;
|}.

(** A client whose operations are done at the first poll. *)
Definition prompt_client : Client := {|
  generate_videos := fun _ _ => Ok pending;
  operations_get := fun h _ => Ok (RemoteOperation true (Some [length h]));
  files_download := fun _ _ => Ok tt;
  video_save := fun _ _ _ => Ok tt;
|}.

(** A client that accepts one submission, done at once, and refuses the
    following ones. *)
Definition one_shot_client : Client := {|
  generate_videos := fun h _ =>
    if existsb is_submit h then Raise (RemoteError 429)
    else Ok (RemoteOperation true (Some [7]));
  operations_get := fun _ o => Ok o;
  files_download := fun _ _ => Ok tt;
  video_save := fun _ _ _ => Ok tt;
|}.

(** A client whose first operation never finishes, and whose later ones
    are done at their first poll. *)
Definition uneven_client : Client := {|
  generate_videos := fun _ _ => Ok pending;
  operations_get := fun h _ =>
    if (length (List.filter is_submit h) <=? 1)%nat then Ok pending
    else Ok (RemoteOperation true (Some [length h]));
  files_download := fun _ _ => Ok tt;
  video_save := fun _ _ _ => Ok tt;
|}.

Definition world_of (c : option Client) : world :=
  World (PDict []) None c ∅ ∅ ∅ [] [] [] 0 0 demo_oracle.

(** The world of ["demo"] with the timed-out video stored under a path
    that names no file, and the artifact of the completed one protected
    against removal. *)
Definition locked_world : world :=
  World (sessions (demo_world_with (PStr "gone.mp4"))) (Some "demo") None
    {[demo_artifact := FMedia 0]} {[demo_artifact]} ∅ [] [] [] 0 0
    demo_oracle.

(** ** Vocabulary of the further properties *)

(** A file [json.load] can read. *)
Definition decodable (c : fcontent) : bool :=
  match c with
  | FJson doc => is_json doc
  | _ => false
  end.

(** The artifact paths of a video, of a generation and of a session whose
    paths are strings. *)
Definition video_paths (video : pyval) : list string :=
  match field "local_path" video with
  | Some (PStr p) => [p]
  | _ => []
  end.

Definition generation_paths (generation : pyval) : list string :=
  match generation with
  | PDict d => match default (PList []) (assoc "videos" d) with
               | PList vs => flat_map video_paths vs
               | _ => []
               end
  | _ => []
  end.

Definition session_paths (session : pyval) : list string :=
  match session with
  | PDict d => match default (PList []) (assoc "generations" d) with
               | PList gs => flat_map generation_paths gs
               | _ => []
               end
  | _ => []
  end.

(** A call that looks at one of the paths [P], or removes one that is not
    among the protected paths [R]. *)
Definition clears (P : list string) (R : gset string) (op : fs_op) : Prop :=
  exists p, p ∈ P /\ (op = OpStat p \/ op = OpRemove p /\ p ∉ R).

(** A video whose [local_path] is [None], as the generation job stores a
    variation that timed out; a generation and a session in which the
    loops of [delete_session] come to such a video, all videos before it
    having a string for a path or none. *)
Definition path_is_none (video : pyval) : bool :=
  match video with
  | PDict d => match assoc "local_path" d with
               | Some PNone => true
               | _ => false
               end
  | _ => false
  end.

Definition reaches_none_video (generation : pyval) : bool :=
  match generation with
  | PDict d =>
      match default (PList []) (assoc "videos" d) with
      | PList vs =>
          forallb (fun v => path_is_string v || path_is_none v) vs &&
          existsb path_is_none vs
      | _ => false
      end
  | _ => false
  end.

Definition reaches_none_path (session : pyval) : bool :=
  match session with
  | PDict d =>
      match default (PList []) (assoc "generations" d) with
      | PList gs =>
          forallb (fun g => videos_have_string_paths g ||
                            reaches_none_video g) gs &&
          existsb reaches_none_video gs
      | _ => false
      end
  | _ => false
  end.

(** No file has gone. *)
Definition files_kept (w w' : world) : Prop :=
  forall p, is_Some (files w !! p) -> is_Some (files w' !! p).

(** What [k] variations of a job submitting [req] may have done between
    [w] and [w']: the session state is as it was and no file has gone; the
    client was called, with at most [k] submissions, all of [req], and at
    most [max_polls] polls for each; ten seconds were slept per poll. *)
Definition job (req : request) (k : nat) (w w' : world) : Prop :=
  sessions w' = sessions w /\
  current_session_id w' = current_session_id w /\
  client w' = client w /\
  files_kept w w' /\
  exists calls,
    remote_log w' = remote_log w ++ calls /\
    Forall (fun c => is_submit c = true -> c = CallGenerateVideos req) calls /\
    length (List.filter is_submit calls) <= k /\
    length (List.filter is_poll calls) <= max_polls * k /\
    clock w' = clock w + 10 * length (List.filter is_poll calls).

(** A record that, if completed, names a file there is, under the
    directory of the generated videos. *)
Definition stored (w : world) (v : pyval) : Prop :=
  field "status" v = Some (PStr "completed") ->
  exists p, field "local_path" v = Some (PStr p) /\
            String.prefix "generated_videos/veo3_" p = true /\
            is_Some (files w !! p).

(** The first start after an upgrade, with the session file protected
    against writing. *)
Definition protected_legacy_world : world :=
  World (PDict []) None None
    {[legacy_file := FJson (sessions demo_world)]}
    {[sessions_file]} ∅ [] [] [] 0 0 demo_oracle.

(** A mapping whose only session has an in-memory object for a name, over
    an earlier session file. *)
Definition handle_world : world :=
  World (PDict [("s", PDict [("id", PStr "s"); ("created_at", PStr "t");
                             ("name", PObj 0); ("generations", PList [])])])
    None None {[sessions_file := FJson (PDict [])]}
    ∅ ∅ [] [] [] 0 0 demo_oracle.

(** A client whose operations are done at once, with an empty list of
    generated videos. *)
Definition filtered_client : Client := {|
  generate_videos := fun _ _ => Ok (RemoteOperation true (Some []));
  operations_get := fun _ o => Ok o;
  files_download := fun _ _ => Ok tt;
  video_save := fun _ _ _ => Ok tt;
|}.

(** The read-only paths are as they were. *)
Definition same_readonly : relation world := fun w w' =>
  readonly w' = readonly w.

(** A record of the generation job, whatever its identifier. *)
Definition job_record (prompt aspect_ratio model_version : string)
    (v : pyval) : Prop :=
  exists id, record_for prompt aspect_ratio model_version id v.

(** The world of ["demo"], every path a string, with a client. *)
Definition studio_world (c : Client) : world :=
  World (sessions (demo_world_with (PStr "gone.mp4"))) (Some "demo") (Some c)
    {[demo_artifact := FMedia 0]} ∅ ∅ [] [] [] 0 0 demo_oracle.

(** A record of a variation that timed out. *)
Definition timed_out (v : pyval) : Prop :=
  field "status" v = Some (PStr "timeout").

(** * Properties *)

(** ** Relations that every step of a computation maintains *)

Section Preserve.
Context {S : Type} (R : relation S) `{!PreOrder R}.

Lemma preserves_ret {A} (a : A) : preserves R (ret a).
Proof. intros s. reflexivity. Qed.

Lemma preserves_raise {A} (e : exn) : preserves R (@raise S A e).
Proof. intros s. reflexivity. Qed.

Lemma preserves_lift_result {A} (r : result A) : preserves R (lift_result r).
Proof. intros s. reflexivity. Qed.

Lemma preserves_gets {A} (f : S -> A) : preserves R (gets f).
Proof. intros s. reflexivity. Qed.

Lemma preserves_modify (f : S -> S) :
  (forall s, R s (f s)) -> preserves R (modify f).
Proof. intros H s. apply H. Qed.

Lemma preserves_bind {A B} (c : M S A) (k : A -> M S B) :
  preserves R c -> (forall a, preserves R (k a)) -> preserves R (bind c k).
Proof.
  intros Hc Hk s. unfold bind. specialize (Hc s).
  destruct (c s) as [[a|e] s']; simpl in *; [|exact Hc].
  etrans; [exact Hc | apply Hk].
Qed.

Lemma preserves_try_except {A} (body : M S A) (handler : exn -> M S A) :
  preserves R body -> (forall e, preserves R (handler e)) ->
  preserves R (try_except body handler).
Proof.
  intros Hb Hh s. unfold try_except. specialize (Hb s).
  destruct (body s) as [[a|e] s']; simpl in *; [exact Hb|].
  etrans; [exact Hb | apply Hh].
Qed.

Lemma preserves_for_each {A} (xs : list A) (body : A -> M S unit) :
  (forall x, preserves R (body x)) -> preserves R (for_each xs body).
Proof.
  intros Hb. induction xs as [|x xs IH]; simpl.
  - apply preserves_ret.
  - apply preserves_bind; [apply Hb | intros _; exact IH].
Qed.
End Preserve.

#[local] Instance same_session_state_preorder : PreOrder same_session_state.
Proof.
  split.
  - intros w. repeat split.
  - intros a b c (H1 & H2 & H3) (H4 & H5 & H6). repeat split; congruence.
Qed.

Lemma same_session_state_do_fs op w : same_session_state w (do_fs op w).
Proof. repeat split. Qed.

Lemma same_session_state_show ev w : same_session_state w (show ev w).
Proof. repeat split. Qed.

(** Walks through a computation and leaves the goals about its
    state-changing steps that it cannot close itself. *)
Create HintDb frame discriminated.

Ltac frame_step :=
  first
    [ solve [auto 1 with frame nocore]
    | apply preserves_ret
    | apply preserves_raise
    | apply preserves_lift_result
    | apply preserves_gets
    | apply preserves_bind
    | apply preserves_try_except
    | apply preserves_for_each
    | apply preserves_modify;
      first [ apply same_session_state_do_fs
            | apply same_session_state_show ]
    | match goal with
      | |- preserves _ (match ?x with _ => _ end) => destruct x
      | |- preserves _ (if ?x then _ else _) => destruct x
      | |- forall _, _ => intros ?
      | |- PreOrder _ => apply _
      end
    | assumption ].

Ltac frame_solve := repeat frame_step.

Lemma os_path_exists_session_state v :
  preserves same_session_state (os_path_exists v).
Proof. unfold os_path_exists, stat_fd. frame_solve. Qed.

Lemma os_remove_session_state v :
  preserves same_session_state (os_remove v).
Proof. unfold os_remove. frame_solve. Qed.

#[local] Hint Resolve os_path_exists_session_state os_remove_session_state
  : frame.

(** ** [delete_session] *)

Lemma assoc_set_eq k v d : assoc k (assoc_set k v d) = Some v.
Proof.
  induction d as [|[k' v'] d IH]; simpl.
  - by rewrite String.eqb_refl.
  - destruct (String.eqb k k') eqn:E; simpl.
    + by rewrite String.eqb_refl.
    + by rewrite E.
Qed.

Lemma assoc_set_ne k k' v d :
  k' <> k -> assoc k' (assoc_set k v d) = assoc k' d.
Proof.
  intros Hne. induction d as [|[k0 v0] d IH]; simpl.
  - destruct (String.eqb k' k) eqn:E; [|done].
    apply String.eqb_eq in E. congruence.
  - destruct (String.eqb k k0) eqn:E; simpl.
    + apply String.eqb_eq in E. subst k0.
      destruct (String.eqb k' k) eqn:E'; [|done].
      apply String.eqb_eq in E'. congruence.
    + by rewrite IH.
Qed.

Lemma assoc_del_eq k d : assoc k (assoc_del k d) = None.
Proof.
  induction d as [|[k' v] d IH]; simpl; [done|].
  destruct (String.eqb k k') eqn:E; [done|]. simpl. by rewrite E.
Qed.

Lemma assoc_del_ne k k' d : k' <> k -> assoc k' (assoc_del k d) = assoc k' d.
Proof.
  intros Hne. induction d as [|[k0 v] d IH]; simpl; [done|].
  destruct (String.eqb k k0) eqn:E.
  - apply String.eqb_eq in E. subst k0.
    destruct (String.eqb k' k) eqn:E'; [|done].
    apply String.eqb_eq in E'. congruence.
  - simpl. by rewrite IH.
Qed.

Lemma delete_session_unknown session_id d w :
  sessions w = PDict d -> assoc session_id d = None ->
  delete_session session_id w = (Ok tt, w).
Proof.
  intros Hs Hk. unfold delete_session, bind, gets, lift_result. simpl.
  rewrite Hs. simpl. rewrite Hk. reflexivity.
Qed.

Lemma remove_artifact_session_state video :
  preserves same_session_state (remove_artifact video).
Proof. unfold remove_artifact. frame_solve. Qed.

#[local] Hint Resolve remove_artifact_session_state : frame.

Lemma remove_artifacts_session_state generation :
  preserves same_session_state (remove_artifacts generation).
Proof. unfold remove_artifacts. frame_solve. Qed.

#[local] Hint Resolve remove_artifacts_session_state : frame.

Lemma for_each_returns {S A} (xs : list A) (body : A -> M S unit)
    (ok : A -> bool) :
  (forall x, ok x = true -> forall s, exists s', body x s = (Ok tt, s')) ->
  forallb ok xs = true ->
  forall s, exists s', for_each xs body s = (Ok tt, s').
Proof.
  intros Hb. induction xs as [|x xs IH]; simpl; intros Hok s.
  - by exists s.
  - apply andb_prop in Hok as [Hx Hxs].
    destruct (Hb x Hx s) as (s1 & H1). unfold bind. rewrite H1.
    by apply IH.
Qed.

(** With a string for a path, or no path, nothing escapes the loop body:
    what [os.remove] raises is caught. *)
Lemma remove_artifact_returns video :
  path_is_string video = true ->
  forall w, exists w', remove_artifact video w = (Ok tt, w').
Proof.
  destruct video as [| | | | |d|]; try discriminate. simpl.
  intros Hp w. unfold remove_artifact, bind, lift_result. simpl.
  destruct (assoc "local_path" d) as [[| | |p| | |]|]; try discriminate.
  - rewrite bool_decide_true by eauto.
    unfold os_path_exists, bind, modify, gets. cbn [fst snd].
    destruct (bool_decide _); [|by eexists].
    unfold try_except, bind, lift_result.
    destruct (os_remove (PStr p) _) as [[[]|e] w']; by eexists.
  - rewrite bool_decide_false by (intros [? ?]; discriminate).
    by eexists.
Qed.

Lemma remove_artifacts_returns generation :
  videos_have_string_paths generation = true ->
  forall w, exists w', remove_artifacts generation w = (Ok tt, w').
Proof.
  destruct generation as [| | | | |d|]; try discriminate. simpl.
  intros Hp w. unfold remove_artifacts, bind, lift_result. simpl.
  destruct (default (PList []) (assoc "videos" d)) as [| | | |vs| |];
    try discriminate.
  simpl. by apply (for_each_returns vs remove_artifact path_is_string
                      remove_artifact_returns).
Qed.

(** A known session: the loops over its videos leave the session state as
    it was; if they raise, so does [delete_session], and otherwise the
    session is removed and the active-session reference adjusted.  They do
    not raise when every path is a string. *)
Lemma delete_session_known session_id d s w :
  sessions w = PDict d -> assoc session_id d = Some s ->
  exists (r : result unit) wl,
    same_session_state w wl /\
    delete_session session_id w =
      match r with
      | Ok _ =>
          (Ok tt,
           (if bool_decide (current_session_id w = Some session_id)
            then set_current_session_id None else id)
             (set_sessions (PDict (assoc_del session_id d)) wl))
      | Raise e => (Raise e, wl)
      end /\
    (paths_are_strings s = true -> r = Ok tt).
Proof.
  intros Hs Hk. unfold delete_session.
  unfold bind at 1, gets at 1. rewrite Hs.
  unfold bind at 1, lift_result at 1. simpl py_in. rewrite Hk.
  rewrite bool_decide_true by eauto.
  unfold bind at 1, lift_result at 1. simpl py_getitem. rewrite Hk.
  unfold bind at 1, lift_result at 1.
  destruct (py_get s "generations" (PList [])) as [gens|e] eqn:Hg.
  2:{ exists (Raise e), w. split; [reflexivity|]. split; [done|].
      intros Hp. destruct s; discriminate. }
  unfold bind at 1, lift_result at 1.
  destruct (py_iter gens) as [gl|e] eqn:Hit.
  2:{ exists (Raise e), w. split; [reflexivity|]. split; [done|].
      intros Hp. destruct s as [| | | | |sd|]; try discriminate.
      simpl in Hg, Hp. injection Hg as <-.
      destruct (default (PList []) (assoc "generations" sd));
        discriminate. }
  set (loop := for_each gl remove_artifacts).
  assert (Hl : preserves same_session_state loop).
  { unfold loop. frame_solve. }
  assert (Hret : paths_are_strings s = true ->
                 exists wl, loop w = (Ok tt, wl)).
  { intros Hp. destruct s as [| | | | |sd|]; try discriminate.
    simpl in Hg, Hp. injection Hg as <-.
    destruct (default (PList []) (assoc "generations" sd))
      as [| | | |gs| |]; try discriminate.
    injection Hit as <-.
    by apply (for_each_returns gs remove_artifacts videos_have_string_paths
                remove_artifacts_returns). }
  unfold bind at 1. specialize (Hl w).
  destruct (loop w) as [[[]|e] wl]; simpl in Hl.
  2:{ exists (Raise e), wl. split; [exact Hl|]. split; [done|].
      intros Hp. destruct (Hret Hp) as (? & ?). discriminate. }
  exists (Ok tt), wl. split; [exact Hl|]. split; [|done].
  destruct Hl as (H1 & H2 & H3).
  unfold bind, gets, modify, ret. rewrite H1, Hs. simpl. rewrite H2.
  by case_bool_decide.
Qed.

(** Deleting a known session all of whose paths are strings returns. *)
Lemma delete_session_returns session_id d s w :
  sessions w = PDict d -> assoc session_id d = Some s ->
  paths_are_strings s = true ->
  exists w', delete_session session_id w = (Ok tt, w').
Proof.
  intros Hs Hk Hp.
  destruct (delete_session_known session_id d s w Hs Hk)
    as (r & wl & _ & Heq & Hr).
  rewrite (Hr Hp) in Heq. eauto.
Qed.

(** C8. Deleting an identifier that is not in the session mapping changes
    nothing and raises nothing.  Deleting one that is there leaves every
    other session's record as it was, whether the call returns or raises;
    when it returns, the session is gone, the active-session reference is
    cleared exactly when it named that session, and deleting the same
    identifier again changes nothing.  It returns whenever every
    [local_path] of the session is a string or is not there. *)
Theorem delete_session_frame session_id d w :
  sessions w = PDict d ->
  (assoc session_id d = None -> delete_session session_id w = (Ok tt, w)) /\
  (forall r w' sid', delete_session session_id w = (r, w') ->
     sid' <> session_id ->
     exists d', sessions w' = PDict d' /\ assoc sid' d' = assoc sid' d) /\
  (forall w', is_Some (assoc session_id d) ->
     delete_session session_id w = (Ok tt, w') ->
     sessions w' = PDict (assoc_del session_id d) /\
     assoc session_id (assoc_del session_id d) = None /\
     current_session_id w' =
       (if bool_decide (current_session_id w = Some session_id)
        then None else current_session_id w) /\
     delete_session session_id w' = (Ok tt, w')) /\
  (forall s, assoc session_id d = Some s -> paths_are_strings s = true ->
     exists w', delete_session session_id w = (Ok tt, w')).
Proof.
  intros Hs. split; [|split; [|split]].
  4:{ intros s Hk Hp. by apply (delete_session_returns session_id d s). }
  - by apply delete_session_unknown.
  - intros r w' sid' Hrun Hne.
    destruct (assoc session_id d) as [s|] eqn:Hk.
    + destruct (delete_session_known session_id d s w Hs Hk)
        as (r0 & wl & (H1 & H2 & H3) & Heq & _).
      rewrite Heq in Hrun. destruct r0 as [[]|e].
      * inversion Hrun; subst. exists (assoc_del session_id d).
        split; [by case_bool_decide | by apply assoc_del_ne].
      * inversion Hrun; subst. exists d. split; [congruence | done].
    + rewrite (delete_session_unknown _ _ _ Hs Hk) in Hrun.
      inversion Hrun; subst. by exists d.
  - intros w' [s Hk] Hrun.
    destruct (delete_session_known session_id d s w Hs Hk)
      as (r0 & wl & (H1 & H2 & H3) & Heq & _).
    rewrite Heq in Hrun. destruct r0 as [[]|e]; [|discriminate].
    injection Hrun as <-.
    set (w' := (if bool_decide (current_session_id w = Some session_id)
                then set_current_session_id None else id) _).
    assert (Hs' : sessions w' = PDict (assoc_del session_id d))
      by (unfold w'; by case_bool_decide).
    split; [exact Hs'|]. split; [apply assoc_del_eq|]. split.
    + unfold w'. case_bool_decide; simpl; [done | congruence].
    + eapply delete_session_unknown; [exact Hs' | apply assoc_del_eq].
Qed.

(** With the timed-out video stored under an empty path, ["demo"] is
    deleted: the other session stays, the reference to ["demo"] is cleared
    and a second deletion changes nothing. *)
Lemma delete_session_frame_witness :
  exists w',
    delete_session "demo" (demo_world_with (PStr "")) = (Ok tt, w') /\
    sessions w' = PDict [("other", other_session)] /\
    current_session_id w' = None /\
    delete_session "demo" w' = (Ok tt, w').
Proof.
  pose proof (delete_session_frame "demo" _ (demo_world_with (PStr ""))
                eq_refl) as (_ & _ & H & _).
  eexists. split; [vm_compute; reflexivity|].
  edestruct H as (H1 & _ & H2 & H3);
    [by eexists | vm_compute; reflexivity |].
  split; [exact H1|]. split; [exact H2 | exact H3].
Defined.

(** C4, on the code.  The timed-out video of ["demo"] is stored as the
    generation job builds it, with [local_path] set to [None]: the key is
    there, so [os.path.exists(None)] is evaluated and raises [TypeError]
    outside the [try].  The artifact of the completed video is already
    removed by then; the session stays in the mapping and stays active. *)
Theorem delete_session_timeout_video_raises :
  let out := delete_session "demo" demo_world in
  fst out = Raise TypeError /\
  sessions (snd out) = sessions demo_world /\
  current_session_id (snd out) = Some "demo" /\
  fs_trace (snd out) = [OpStat demo_artifact; OpRemove demo_artifact] /\
  files (snd out) !! demo_artifact = None.
Proof. vm_compute. repeat split. Qed.

(** The same session with the timed-out video stored under a path that
    names no file is deleted: one file is removed and nothing is raised. *)
Example delete_session_missing_artifact :
  let out := delete_session "demo" (demo_world_with (PStr "gone.mp4")) in
  fst out = Ok tt /\
  sessions (snd out) = PDict [("other", other_session)] /\
  fs_trace (snd out) =
    [OpStat demo_artifact; OpRemove demo_artifact; OpStat "gone.mp4"] /\
  files (snd out) = ∅.
Proof. vm_compute. repeat split. Qed.

(** An artifact that cannot be removed does not stop the deletion either:
    [os.remove] raises inside the [try], the file stays, the session goes. *)
Example delete_session_locked_artifact :
  let out := delete_session "demo" locked_world in
  fst out = Ok tt /\
  sessions (snd out) = PDict [("other", other_session)] /\
  fs_trace (snd out) = [OpStat demo_artifact; OpStat "gone.mp4"] /\
  files (snd out) !! demo_artifact = Some (FMedia 0).
Proof. vm_compute. repeat split. Qed.

(** ** What only the file system notices *)

#[local] Instance fs_only_preorder : PreOrder fs_only.
Proof.
  split.
  - intros w. by exists [].
  - intros a b c [o1 ->] [o2 ->]. exists (o1 ++ o2).
    unfold after_ops. by rewrite foldl_app.
Qed.

Lemma fs_only_do_fs op w : fs_only w (do_fs op w).
Proof. by exists [op]. Qed.

Lemma after_ops_fields w ops :
  sessions (after_ops w ops) = sessions w /\
  current_session_id (after_ops w ops) = current_session_id w /\
  client (after_ops w ops) = client w /\
  ui (after_ops w ops) = ui w /\
  remote_log (after_ops w ops) = remote_log w /\
  readonly (after_ops w ops) = readonly w /\
  fs_trace (after_ops w ops) = fs_trace w ++ ops /\
  files (after_ops w ops) = run_ops (files w) ops.
Proof.
  revert w. induction ops as [|op ops IH]; intros w; simpl.
  - rewrite app_nil_r. repeat split.
  - destruct (IH (do_fs op w)) as (H1 & H2 & H3 & H4 & H5 & H6 & H7 & H8).
    repeat split; try assumption.
    rewrite H7. simpl. by rewrite <- app_assoc.
Qed.

Ltac fs_step :=
  first
    [ frame_step
    | apply preserves_modify; intros ?; apply fs_only_do_fs ].

Lemma save_body_fs_only : preserves fs_only save_body.
Proof.
  unfold save_body, open_write, json_dump. repeat fs_step.
Qed.

(** C10. [save_sessions_to_file] always returns: what its body raises is
    caught and shown as an error, and nothing else is shown.  The session
    mapping and the active-session reference are as before the call. *)
Theorem save_sessions_to_file_safe w :
  exists w',
    save_sessions_to_file w = (Ok tt, w') /\
    sessions w' = sessions w /\
    current_session_id w' = current_session_id w /\
    match fst (save_body w) with
    | Ok _ => ui w' = ui w
    | Raise e => ui w' = ui w ++ [StError (MsgSaveError e)]
    end.
Proof.
  unfold save_sessions_to_file, try_except.
  destruct (save_body_fs_only w) as [ops Hops].
  destruct (after_ops_fields w ops) as (H1 & H2 & _ & H4 & _).
  destruct (save_body w) as [[[]|e] wb]; simpl in *; subst wb.
  - eexists. split; [reflexivity|]. by repeat split.
  - eexists. split; [reflexivity|]. simpl. rewrite H4. by repeat split.
Qed.

(** ** Saving *)

(** What the body of [save_sessions_to_file] does, case by case. *)
Lemma save_body_run w :
  save_body w =
    match copy_sessions (sessions w) with
    | Raise e => (Raise e, w)
    | Ok copy =>
        if bool_decide (sessions_file ∈ readonly w)
        then (Raise (PermissionError sessions_file), w)
        else if is_json copy
        then (Ok tt, after_ops w [OpOpenWrite sessions_file;
                                  OpWriteJson sessions_file copy])
        else (Raise TypeError,
              after_ops w [OpOpenWrite sessions_file;
                           OpWritePartial sessions_file])
    end.
Proof.
  unfold save_body, bind, gets, lift_result. simpl.
  destruct (copy_sessions (sessions w)) as [copy|e]; [|done].
  unfold open_write, bind, gets, modify, raise. simpl.
  destruct (bool_decide (sessions_file ∈ readonly w)); [done|].
  unfold json_dump. destruct (is_json copy); reflexivity.
Qed.

(** The calls of a save, and the state they lead to. *)
Lemma save_sessions_to_file_ops w :
  exists ops errs,
    snd (save_sessions_to_file w) =
      foldl (fun w ev => show ev w) (after_ops w ops) errs /\
    ops =
      match copy_sessions (sessions w) with
      | Raise _ => []
      | Ok copy =>
          if bool_decide (sessions_file ∈ readonly w) then []
          else [OpOpenWrite sessions_file;
                if is_json copy then OpWriteJson sessions_file copy
                else OpWritePartial sessions_file]
      end.
Proof.
  unfold save_sessions_to_file, try_except. rewrite save_body_run.
  destruct (copy_sessions (sessions w)) as [copy|e].
  - destruct (bool_decide (sessions_file ∈ readonly w)).
    + by exists [], [StError (MsgSaveError (PermissionError sessions_file))].
    + destruct (is_json copy).
      * by eexists _, [].
      * by eexists _, [StError (MsgSaveError TypeError)].
  - by exists [], [StError (MsgSaveError e)].
Qed.

Lemma shown_fields w errs :
  fs_trace (foldl (fun w ev => show ev w) w errs) = fs_trace w /\
  files (foldl (fun w ev => show ev w) w errs) = files w.
Proof.
  revert w. induction errs as [|ev errs IH]; intros w; simpl; [done|].
  apply (IH (show ev w)).
Qed.

(** C5, as the code has it.  A save makes no call at all when the copy of
    the mapping cannot be built or the session file cannot be opened for
    writing.  Otherwise it makes exactly two calls, both on the session
    file itself: [open(.., "w")], which empties it, and the write of
    [json.dump], which fills it with the whole document or, when the copy
    holds a value JSON cannot express, with the beginning of one.  No other
    file is written and nothing is renamed; between the two calls a reader
    of the session file finds it empty. *)
Theorem save_writes_session_file_in_place w :
  let w' := snd (save_sessions_to_file w) in
  let ops := ops_since w w' in
  files w' = run_ops (files w) ops /\
  match copy_sessions (sessions w) with
  | Raise _ => ops = []
  | Ok copy =>
      if bool_decide (sessions_file ∈ readonly w) then ops = []
      else
        ops = [OpOpenWrite sessions_file;
               if is_json copy then OpWriteJson sessions_file copy
               else OpWritePartial sessions_file] /\
        reader_view w ops 1 = Some FEmpty /\
        files w' !! sessions_file =
          Some (if is_json copy then FJson copy else FPartial)
  end.
Proof.
  intros w' ops.
  destruct (save_sessions_to_file_ops w) as (ops0 & errs & Hw & Hops).
  fold w' in Hw.
  destruct (shown_fields (after_ops w ops0) errs) as [Ht Hf].
  destruct (after_ops_fields w ops0) as (_ & _ & _ & _ & _ & _ & Ht' & Hf').
  assert (Heq : ops = ops0).
  { unfold ops, ops_since. rewrite Hw, Ht, Ht'. by rewrite drop_app_length. }
  assert (Hfiles : files w' = run_ops (files w) ops).
  { rewrite Hw, Hf, Hf'. by rewrite Heq. }
  split; [exact Hfiles|].
  rewrite Hfiles, Heq, Hops.
  destruct (copy_sessions (sessions w)) as [copy|e]; [|done].
  destruct (bool_decide (sessions_file ∈ readonly w)); [done|].
  split; [done|]. unfold reader_view, run_ops. simpl.
  split; [by rewrite lookup_insert_eq|].
  destruct (is_json copy); simpl; by rewrite lookup_insert_eq.
Qed.

(** C5, as stated, fails: saving over an earlier session file opens that
    very file for writing, so a call other than a rename changes it. *)
Lemma save_is_not_atomic : ~ save_is_atomic stored_world.
Proof. intros [H _]. vm_compute in H. discriminate H. Qed.

(** ** The copy that is saved *)

Lemma has_json_field v k :
  has_json v k = true -> exists x, field k v = Some x /\ is_json x = true.
Proof. unfold has_json. destruct (field k v); [eauto | discriminate]. Qed.

Lemma py_getitem_field v k x : field k v = Some x -> py_getitem v k = Ok x.
Proof. destruct v; simpl; try discriminate. by intros ->. Qed.

Lemma py_get_field v k x dflt : field k v = Some x -> py_get v k dflt = Ok x.
Proof. destruct v; simpl; try discriminate. by intros ->. Qed.

Lemma list_field_field v k l :
  list_field k v = Some l -> field k v = Some (PList l).
Proof.
  unfold list_field. destruct (field k v) as [[]|]; try discriminate.
  by intros [= ->].
Qed.

(** Uses the declared fields named in [forallb (has_json v) ..]. *)
Ltac use_fields H :=
  simpl in H;
  repeat match type of H with
    | _ && _ = true => let Hk := fresh "Hk" in
                       apply andb_prop in H; destruct H as [Hk H];
                       try (apply has_json_field in Hk;
                            destruct Hk as (? & Hk & ?))
    end.

Lemma copy_video_ok v :
  is_video v = true ->
  exists c, copy_video v = Ok c /\ equiv_video v c /\ is_json c = true /\
            is_video c = true /\ copy_video c = Ok c.
Proof.
  unfold is_video. intros H. use_fields H. clear H.
  unfold copy_video.
  repeat match goal with
    | Hk : field ?k v = Some ?x |- _ =>
        first [ rewrite (py_getitem_field v k x Hk)
              | rewrite (py_get_field v k x _ Hk) ];
        simpl rbind
    end.
  eexists. split; [reflexivity|].
  split; [|split; [|split]].
  - unfold equiv_video, same_fields, video_fields.
    repeat constructor; simpl; assumption.
  - simpl. by repeat (apply andb_true_intro; split).
  - unfold is_video, has_json. simpl.
    by repeat (apply andb_true_intro; split).
  - reflexivity.
Qed.

(** The equivalence looks at the declared fields and at nothing else. *)
Example equiv_video_ignores_other_fields :
  equiv_video
    (PDict [("id", PStr "a"); ("status", PStr "completed"); ("handle", PObj 1)])
    (PDict [("status", PStr "completed"); ("id", PStr "a")]).
Proof. unfold equiv_video, same_fields, video_fields. by repeat constructor. Qed.

Example equiv_video_sees_status :
  ~ equiv_video
      (PDict [("id", PStr "a"); ("status", PStr "completed")])
      (PDict [("id", PStr "a"); ("status", PStr "timeout")]).
Proof.
  unfold equiv_video, same_fields, video_fields. intros H.
  apply Forall_forall with (x := "status") in H; [discriminate H|].
  set_solver.
Qed.

(** The copy of a video stored without a [local_path] key has the key,
    with the empty string. *)
Example copy_video_fills_local_path :
  copy_video
    (PDict [("id", PStr "a"); ("prompt", PStr "p"); ("aspect_ratio", PStr "1:1");
            ("model_version", PStr "m"); ("created_at", PStr "t");
            ("status", PStr "timeout")])
  = Ok (video_data "a" "p" "1:1" "m" "t" (PStr "") "timeout").
Proof. reflexivity. Qed.

Lemma map_result_ok {A B} (f : A -> result B) (P : A -> bool)
    (Q : A -> B -> Prop) (xs : list A) :
  (forall x, P x = true -> exists y, f x = Ok y /\ Q x y) ->
  forallb P xs = true ->
  exists ys, map_result f xs = Ok ys /\ Forall2 Q xs ys.
Proof.
  intros Hf. induction xs as [|x xs IH]; simpl; intros H.
  - exists []. by split.
  - apply andb_prop in H as [Hx Hxs].
    destruct (Hf x Hx) as (y & -> & Hy).
    destruct (IH Hxs) as (ys & -> & Hys).
    exists (y :: ys). split; [done | by constructor].
Qed.

Lemma Forall2_forallb {A B} (Q : A -> B -> Prop) (p : B -> bool) xs ys :
  (forall x y, Q x y -> p y = true) -> Forall2 Q xs ys -> forallb p ys = true.
Proof.
  intros H. induction 1; simpl; [done|].
  apply andb_true_intro. eauto.
Qed.

Lemma Forall2_map_result {A B} (Q : A -> B -> Prop) (f : B -> result B)
    xs ys :
  (forall x y, Q x y -> f y = Ok y) -> Forall2 Q xs ys ->
  map_result f ys = Ok ys.
Proof.
  intros H. induction 1 as [|x y xs ys Hxy _ IH]; simpl; [done|].
  by rewrite (H x y Hxy), IH.
Qed.

Lemma copy_of_list shape copy equiv vs cs :
  Forall2 (copy_of shape copy equiv) vs cs ->
  Forall2 equiv vs cs /\ forallb is_json cs = true /\
  forallb shape cs = true /\ map_result copy cs = Ok cs.
Proof.
  intros H. split; [|split; [|split]].
  - eapply Forall2_impl; [exact H|]. by intros ?? (? & _).
  - eapply Forall2_forallb; [|exact H]. by intros ?? (_ & ? & _).
  - eapply Forall2_forallb; [|exact H]. by intros ?? (_ & _ & ? & _).
  - eapply Forall2_map_result; [|exact H]. by intros ?? (_ & _ & _ & ?).
Qed.

Lemma copy_video_copy_of v :
  is_video v = true ->
  exists c, copy_video v = Ok c /\ copy_of is_video copy_video equiv_video v c.
Proof.
  intros H. destruct (copy_video_ok v H) as (c & ? & ? & ? & ? & ?).
  exists c. by repeat split.
Qed.

Lemma copy_generation_ok g :
  is_generation g = true ->
  exists c, copy_generation g = Ok c /\
            copy_of is_generation copy_generation equiv_generation g c.
Proof.
  unfold is_generation. intros H. apply andb_prop in H as [H Hvs].
  use_fields H. clear H.
  destruct (list_field "videos" g) as [vs|] eqn:Hl; [|discriminate].
  destruct (map_result_ok copy_video is_video _ vs copy_video_copy_of Hvs)
    as (cs & Hcs & Hall).
  apply copy_of_list in Hall as (Heq & Hj & Hshape & Hidem).
  apply list_field_field in Hl as Hf.
  unfold copy_generation.
  repeat match goal with
    | Hk : field ?k g = Some ?x |- _ =>
        first [ rewrite (py_getitem_field g k x Hk)
              | rewrite (py_get_field g k x _ Hk) ];
        simpl rbind
    end.
  rewrite Hcs. simpl rbind.
  eexists. split; [reflexivity|].
  split; [|split; [|split]].
  - split.
    + unfold same_fields, generation_fields.
      repeat constructor; simpl; assumption.
    + rewrite Hl. by constructor.
  - simpl. rewrite Hj. by repeat (apply andb_true_intro; split).
  - unfold is_generation, has_json. simpl. rewrite Hshape.
    by repeat (apply andb_true_intro; split).
  - unfold copy_generation. simpl. by rewrite Hidem.
Qed.

Lemma copy_session_ok s :
  is_session s = true ->
  exists c, copy_session s = Ok c /\
            copy_of is_session copy_session equiv_session s c.
Proof.
  unfold is_session. intros H. apply andb_prop in H as [H Hgs].
  use_fields H. clear H.
  destruct (list_field "generations" s) as [gs|] eqn:Hl; [|discriminate].
  destruct (map_result_ok copy_generation is_generation _ gs
              copy_generation_ok Hgs) as (cs & Hcs & Hall).
  apply copy_of_list in Hall as (Heq & Hj & Hshape & Hidem).
  apply list_field_field in Hl as Hf.
  unfold copy_session.
  repeat match goal with
    | Hk : field ?k s = Some ?x |- _ =>
        first [ rewrite (py_getitem_field s k x Hk)
              | rewrite (py_get_field s k x _ Hk) ];
        simpl rbind
    end.
  rewrite Hcs. simpl rbind.
  eexists. split; [reflexivity|].
  split; [|split; [|split]].
  - split.
    + unfold same_fields, session_fields.
      repeat constructor; simpl; assumption.
    + rewrite Hl. by constructor.
  - simpl. rewrite Hj. by repeat (apply andb_true_intro; split).
  - unfold is_session, has_json. simpl. rewrite Hshape.
    by repeat (apply andb_true_intro; split).
  - unfold copy_session. simpl. by rewrite Hidem.
Qed.

Lemma assoc_set_fresh k v acc :
  k ∉ map fst acc -> assoc_set k v acc = acc ++ [(k, v)].
Proof.
  induction acc as [|[k' v'] acc IH]; simpl; intros Hk; [done|].
  apply not_elem_of_cons in Hk as [Hne Hk].
  destruct (String.eqb k k') eqn:E.
  - apply String.eqb_eq in E. congruence.
  - by rewrite IH.
Qed.

Lemma copy_items_run items acc cs :
  NoDup (map fst acc ++ map fst items) ->
  Forall2 copied_item items cs ->
  copy_items items acc = Ok (acc ++ cs).
Proof.
  intros Hnd Hall. revert acc Hnd.
  induction Hall as [|[k s] [k' c] items cs [Hk Hc] _ IH]; intros acc Hnd.
  - simpl. by rewrite app_nil_r.
  - simpl in *. subst k'. rewrite Hc. simpl rbind.
    rewrite assoc_set_fresh.
    + rewrite IH; [by rewrite <- app_assoc|].
      rewrite map_app. simpl. by rewrite <- app_assoc.
    + apply NoDup_app in Hnd as (_ & Hdisj & _).
      intros Hin. apply (Hdisj k Hin). by left.
Qed.

Lemma copied_items_exist items :
  forallb (fun kv => is_session (snd kv)) items = true ->
  exists cs,
    Forall2 copied_item items cs /\
    Forall2 (fun kv kc =>
               copy_of is_session copy_session equiv_session (snd kv) (snd kc))
      items cs.
Proof.
  induction items as [|[k s] items IH]; simpl; intros H.
  - exists []. by split.
  - apply andb_prop in H as [Hs Hrest].
    destruct (copy_session_ok s Hs) as (c & Hc & Hcopy).
    destruct (IH Hrest) as (cs & H1 & H2).
    exists ((k, c) :: cs). split; constructor; try assumption. by split.
Qed.

Lemma copied_items_keys items cs :
  Forall2 copied_item items cs -> map fst cs = map fst items.
Proof.
  induction 1 as [|kv kc items cs [Hk _] _ IH]; simpl; [done|].
  by rewrite IH, Hk.
Qed.

Lemma copied_items_equiv items cs sid :
  Forall2 copied_item items cs ->
  Forall2 (fun kv kc =>
             copy_of is_session copy_session equiv_session (snd kv) (snd kc))
    items cs ->
  option_Forall2 equiv_session (assoc sid items) (assoc sid cs).
Proof.
  intros H1. induction H1 as [|[k s] [k' c] items cs [Hk _] _ IH];
    intros H2; simpl.
  - constructor.
  - simpl in Hk. subst k'. inversion H2 as [|? ? ? ? Hc Hrest]; subst.
    destruct (String.eqb sid k).
    + constructor. apply Hc.
    + by apply IH.
Qed.

(** A session mapping can be copied; its copy is equivalent to it, can be
    written as JSON, and is a session mapping that is its own copy. *)
Lemma copy_sessions_ok m :
  is_session_mapping m = true ->
  exists c, copy_sessions m = Ok c /\ equiv_sessions m c /\
            is_json c = true /\ is_session_mapping c = true /\
            copy_sessions c = Ok c.
Proof.
  destruct m as [| | | | |d|]; try discriminate. simpl.
  intros H. apply andb_prop in H as [Hnd Hall].
  apply bool_decide_eq_true in Hnd.
  destruct (copied_items_exist d Hall) as (cs & H1 & H2).
  pose proof (copied_items_keys d cs H1) as Hkeys.
  exists (PDict cs). unfold copy_sessions. simpl.
  rewrite (copy_items_run d [] cs) by (simpl; assumption). simpl.
  split; [done|]. split; [|split; [|split]].
  - intros sid. simpl. by apply copied_items_equiv.
  - eapply Forall2_forallb; [|exact H2]. by intros ?? (_ & ? & _).
  - apply andb_true_intro. split.
    + apply bool_decide_eq_true. by rewrite Hkeys.
    + eapply Forall2_forallb; [|exact H2]. by intros ?? (_ & _ & ? & _).
  - rewrite (copy_items_run cs [] cs); [done | simpl; by rewrite Hkeys |].
    clear -H2. induction H2 as [|kv kc items cs (_ & _ & _ & Hc) _ IH];
      constructor; [by split | exact IH].
Qed.

(** ** Loading *)

Ltac run_world :=
  unfold after_ops, bind, gets, modify, ret, raise, lift_result, try_except,
    st_warning, st_error, st_info;
  cbn [fst snd files readonly sessions fs_trace ui do_fs apply_op show
       set_sessions foldl negb].

(** Loading when the session file is there. *)
Lemma load_session_file w c :
  files w !! sessions_file = Some c ->
  load_sessions_from_file w =
    let w1 := after_ops w [OpStat sessions_file; OpOpenRead sessions_file] in
    (Ok tt,
     match c with
     | FJson doc =>
         if is_json doc then set_sessions doc w1
         else show (StWarning (MsgLoadWarning JSONDecodeError)) w1
     | _ => show (StWarning (MsgLoadWarning JSONDecodeError)) w1
     end).
Proof.
  intros Hc.
  unfold load_sessions_from_file, load_body, path_exists,
    open_read, json_load. run_world.
  repeat (first [rewrite Hc | rewrite bool_decide_true by eauto]; run_world).
  destruct c as [| |doc|]; try reflexivity.
  destruct (is_json doc); reflexivity.
Qed.

(** Loading when only the legacy file is there, and holds a document. *)
Lemma load_legacy_file w doc :
  files w !! sessions_file = None ->
  files w !! legacy_file = Some (FJson doc) ->
  is_json doc = true ->
  sessions_file ∉ readonly w ->
  load_sessions_from_file w =
    (Ok tt,
     after_ops (set_sessions doc
                  (after_ops w [OpStat sessions_file; OpStat legacy_file;
                                OpOpenRead legacy_file]))
       [OpOpenWrite sessions_file; OpWriteJson sessions_file doc]).
Proof.
  intros Hc Hl Hj Hro.
  unfold load_sessions_from_file, load_body, path_exists,
    open_read, open_write, json_load, json_dump. run_world.
  repeat (first [ rewrite Hc | rewrite Hl | rewrite Hj
                | rewrite bool_decide_true by eauto
                | rewrite (bool_decide_false (is_Some None))
                    by (intros [? ?]; discriminate)
                | rewrite (bool_decide_false (_ ∈ _)) by exact Hro ];
          run_world).
  reflexivity.
Qed.

(** Loading when neither file is there. *)
Lemma load_no_file w :
  files w !! sessions_file = None ->
  files w !! legacy_file = None ->
  load_sessions_from_file w =
    (Ok tt, after_ops w [OpStat sessions_file; OpStat legacy_file]).
Proof.
  intros Hc Hl.
  unfold load_sessions_from_file, load_body, path_exists. run_world.
  repeat (first [ rewrite Hc | rewrite Hl
                | rewrite (bool_decide_false (is_Some None))
                    by (intros [? ?]; discriminate) ];
          run_world).
  reflexivity.
Qed.

Lemma repeat_load_session_file n w doc :
  files w !! sessions_file = Some (FJson doc) ->
  is_json doc = true ->
  exists ops,
    fs_trace (repeat_load n w) = fs_trace w ++ ops /\
    Forall (fun op => op = OpStat sessions_file \/
                      op = OpOpenRead sessions_file) ops /\
    (n <> 0 -> sessions (repeat_load n w) = doc) /\
    files (repeat_load n w) = files w.
Proof.
  intros Hc Hj. revert w Hc. induction n as [|n IH]; intros w Hc.
  - exists []. simpl. rewrite app_nil_r. by repeat split.
  - cbn [repeat_load]. rewrite (load_session_file w _ Hc), Hj.
    cbn [snd].
    set (w1 := set_sessions doc _).
    destruct (IH w1 Hc) as (ops & Ht & Hall & Hs & Hf).
    exists (OpStat sessions_file :: OpOpenRead sessions_file :: ops).
    split; [|split; [|split]].
    + rewrite Ht. subst w1. simpl. by rewrite <- !app_assoc.
    + constructor; [by left|]. constructor; [by right | exact Hall].
    + intros _. destruct n; [by subst w1 | by apply Hs].
    + by rewrite Hf.
Qed.

(** A save that succeeds, then a load: the calls made and the states
    reached. *)
Lemma save_then_load_run w c :
  copy_sessions (sessions w) = Ok c ->
  is_json c = true ->
  sessions_file ∉ readonly w ->
  let w1 := after_ops w [OpOpenWrite sessions_file;
                         OpWriteJson sessions_file c] in
  let w2 := set_sessions c
              (after_ops w1 [OpStat sessions_file;
                             OpOpenRead sessions_file]) in
  save_sessions_to_file w = (Ok tt, w1) /\
  load_sessions_from_file w1 = (Ok tt, w2).
Proof.
  intros Hc Hj Hro w1 w2. split.
  - unfold save_sessions_to_file, try_except.
    rewrite save_body_run, Hc, Hj.
    by rewrite bool_decide_false by exact Hro.
  - rewrite (load_session_file w1 (FJson c)).
    + cbn zeta. by rewrite Hj.
    + unfold w1. simpl. apply lookup_insert_eq.
Qed.

(** A save that succeeds, then a load in a world that has anything for a
    session mapping, as after a restart. *)
Lemma save_then_reload_run w c m0 :
  copy_sessions (sessions w) = Ok c ->
  is_json c = true ->
  sessions_file ∉ readonly w ->
  let w1 := after_ops w [OpOpenWrite sessions_file;
                         OpWriteJson sessions_file c] in
  let w2 := set_sessions c
              (after_ops (set_sessions m0 w1)
                 [OpStat sessions_file; OpOpenRead sessions_file]) in
  save_sessions_to_file w = (Ok tt, w1) /\
  files w1 !! sessions_file = Some (FJson c) /\
  load_sessions_from_file (set_sessions m0 w1) = (Ok tt, w2).
Proof.
  intros Hc Hj Hro w1 w2.
  assert (Hf : files w1 !! sessions_file = Some (FJson c))
    by (unfold w1; simpl; apply lookup_insert_eq).
  split; [|split; [exact Hf|]].
  - unfold save_sessions_to_file, try_except.
    rewrite save_body_run, Hc, Hj.
    by rewrite bool_decide_false by exact Hro.
  - rewrite (load_session_file (set_sessions m0 w1) (FJson c)) by exact Hf.
    cbn zeta. by rewrite Hj.
Qed.

(** ** Filling in the defaults changes nothing to what is saved *)

Lemma assoc_app k d e :
  assoc k (d ++ e) =
    match assoc k d with Some x => Some x | None => assoc k e end.
Proof.
  induction d as [|[k' v] d IH]; simpl; [done|].
  by destruct (String.eqb k k').
Qed.

Lemma assoc_set_same k v d : assoc k d = Some v -> assoc_set k v d = d.
Proof.
  induction d as [|[k' v'] d IH]; simpl; [discriminate|].
  destruct (String.eqb k k') eqn:E.
  - apply String.eqb_eq in E. by intros [= ->]; subst.
  - intros H. by rewrite IH.
Qed.

Lemma with_default_absent k dflt v k' :
  k' <> k -> field k' (with_default k dflt v) = field k' v.
Proof.
  intros Hne. destruct v as [| | | | |d|]; try reflexivity. simpl.
  destruct (assoc k d) eqn:E; [reflexivity|]. simpl. rewrite assoc_app.
  destruct (assoc k' d); [reflexivity|]. simpl.
  destruct (String.eqb k' k) eqn:E'; [|reflexivity].
  apply String.eqb_eq in E'. congruence.
Qed.

Lemma with_default_get k dflt v :
  py_get (with_default k dflt v) k dflt = py_get v k dflt.
Proof.
  destruct v as [| | | | |d|]; try reflexivity. simpl.
  destruct (assoc k d) eqn:E; simpl; [by rewrite E|].
  by rewrite assoc_app, E; simpl; rewrite String.eqb_refl.
Qed.

Lemma py_getitem_as_field v v' k :
  field k v' = field k v ->
  (forall d, v = PDict d -> exists d', v' = PDict d') ->
  (forall d', v' = PDict d' -> exists d, v = PDict d) ->
  py_getitem v' k = py_getitem v k.
Proof.
  intros Hf H1 H2. destruct v as [| | | | |d|], v' as [| | | | |d'|];
    try reflexivity;
    try (destruct (H1 _ eq_refl) as (? & ?); discriminate);
    try (destruct (H2 _ eq_refl) as (? & ?); discriminate).
  simpl in *. by rewrite Hf.
Qed.

Lemma with_default_getitem k dflt v k' :
  k' <> k -> py_getitem (with_default k dflt v) k' = py_getitem v k'.
Proof.
  intros Hne. apply py_getitem_as_field.
  - by apply with_default_absent.
  - intros d ->. simpl. destruct (assoc k d); eauto.
  - destruct v as [| | | | |d|]; try discriminate. eauto.
Qed.

Lemma on_list_field_getitem k f v k' :
  k' <> k -> py_getitem (on_list_field k f v) k' = py_getitem v k'.
Proof.
  intros Hne. destruct v as [| | | | |d|]; try reflexivity. simpl.
  destruct (assoc k d) as [[| | | |l| |]|]; try reflexivity.
  simpl. by rewrite assoc_set_ne.
Qed.

Lemma map_result_map {A B} (f : A -> result B) (g : A -> A) (xs : list A) :
  (forall x, f (g x) = f x) -> map_result f (map g xs) = map_result f xs.
Proof.
  intros H. induction xs as [|x xs IH]; simpl; [done|]. by rewrite H, IH.
Qed.

(** Reading the list under [k] and copying its elements, before and after
    [on_list_field]. *)
Lemma on_list_field_copies k f (copy : pyval -> result pyval) v :
  (forall x, copy (f x) = copy x) ->
  (let? l := py_get (on_list_field k f v) k (PList []) in
   let? l := py_iter l in map_result copy l)
  = (let? l := py_get v k (PList []) in
     let? l := py_iter l in map_result copy l).
Proof.
  intros H. destruct v as [| | | | |d|]; try reflexivity. simpl.
  destruct (assoc k d) as [[| | | |l| |]|] eqn:E; simpl; rewrite ?E;
    try reflexivity.
  rewrite assoc_set_eq. simpl. by apply map_result_map.
Qed.

Lemma copy_video_fill v : copy_video (fill_video v) = copy_video v.
Proof.
  unfold copy_video, fill_video.
  rewrite with_default_get, !with_default_getitem by done. reflexivity.
Qed.

Lemma rbind_copies (r : result pyval) (copy : pyval -> result pyval)
    (k : list pyval -> result pyval) :
  (let? v := r in let? l := py_iter v in let? cs := map_result copy l in k cs)
  = (let? cs := (let? v := r in let? l := py_iter v in map_result copy l) in
     k cs).
Proof.
  destruct r as [v|]; simpl; [|done]. by destruct (py_iter v).
Qed.

Lemma copy_generation_fill g :
  copy_generation (fill_generation g) = copy_generation g.
Proof.
  unfold fill_generation.
  set (g1 := with_default "videos" (PList []) g).
  assert (H1 : copy_generation (on_list_field "videos" fill_video g1)
               = copy_generation g1).
  { unfold copy_generation.
    rewrite !on_list_field_getitem by done.
    destruct (py_getitem g1 "timestamp"); [|reflexivity].
    destruct (py_getitem g1 "prompt"); [|reflexivity].
    destruct (py_getitem g1 "settings"); [|reflexivity].
    cbn [rbind]. rewrite !rbind_copies.
    by rewrite (on_list_field_copies "videos" fill_video copy_video g1
                  copy_video_fill). }
  rewrite H1. unfold copy_generation, g1.
  by rewrite with_default_get, !with_default_getitem by done.
Qed.

Lemma copy_session_fill s : copy_session (fill_session s) = copy_session s.
Proof.
  unfold fill_session.
  set (s1 := with_default "generations" (PList []) s).
  assert (H1 : copy_session (on_list_field "generations" fill_generation s1)
               = copy_session s1).
  { unfold copy_session.
    rewrite !on_list_field_getitem by done.
    destruct (py_getitem s1 "id"); [|reflexivity].
    destruct (py_getitem s1 "created_at"); [|reflexivity].
    destruct (py_getitem s1 "name"); [|reflexivity].
    cbn [rbind]. rewrite !rbind_copies.
    by rewrite (on_list_field_copies "generations" fill_generation
                  copy_generation s1 copy_generation_fill). }
  rewrite H1. unfold copy_session, s1.
  by rewrite with_default_get, !with_default_getitem by done.
Qed.

Lemma copy_items_fill items acc :
  copy_items (map (fun kv => (fst kv, fill_session (snd kv))) items) acc
  = copy_items items acc.
Proof.
  revert acc. induction items as [|[k s] items IH]; intros acc; simpl;
    [done|].
  rewrite copy_session_fill. destruct (copy_session s); simpl; [|done].
  apply IH.
Qed.

Lemma copy_sessions_fill m : copy_sessions (with_defaults m) = copy_sessions m.
Proof.
  destruct m as [| | | | |d|]; try reflexivity.
  unfold copy_sessions. simpl. by rewrite copy_items_fill.
Qed.

(** A record that has its declared fields has nothing to fill in. *)
Lemma fill_video_id v : is_video v = true -> fill_video v = v.
Proof.
  unfold is_video. intros H. use_fields H. clear H.
  destruct v as [| | | | |d|]; try discriminate. unfold fill_video. simpl in *.
  by rewrite Hk4.
Qed.

Lemma map_id_on {A} (f : A -> A) (p : A -> bool) (l : list A) :
  (forall x, p x = true -> f x = x) -> forallb p l = true -> map f l = l.
Proof.
  intros H. induction l as [|x l IH]; simpl; [done|].
  intros Hl. apply andb_prop in Hl as [Hx Hl]. by rewrite (H x Hx), IH.
Qed.

Lemma on_list_field_id k f p v l :
  list_field k v = Some l ->
  (forall x, p x = true -> f x = x) -> forallb p l = true ->
  on_list_field k f (with_default k (PList []) v) = v.
Proof.
  intros Hl Hf Hall. apply list_field_field in Hl.
  destruct v as [| | | | |d|]; try discriminate. simpl in *.
  rewrite Hl. simpl. rewrite Hl.
  rewrite (map_id_on f p l Hf Hall). by rewrite assoc_set_same.
Qed.

Lemma fill_generation_id g : is_generation g = true -> fill_generation g = g.
Proof.
  unfold is_generation. intros H. apply andb_prop in H as [_ H].
  destruct (list_field "videos" g) as [vs|] eqn:Hl; [|discriminate].
  by apply (on_list_field_id "videos" fill_video is_video g vs Hl fill_video_id).
Qed.

Lemma fill_session_id s : is_session s = true -> fill_session s = s.
Proof.
  unfold is_session. intros H. apply andb_prop in H as [_ H].
  destruct (list_field "generations" s) as [gs|] eqn:Hl; [|discriminate].
  by apply (on_list_field_id "generations" fill_generation is_generation s gs
              Hl fill_generation_id).
Qed.

Lemma with_defaults_id m : is_session_mapping m = true -> with_defaults m = m.
Proof.
  destruct m as [| | | | |d|]; try discriminate. simpl.
  intros H. apply andb_prop in H as [_ H]. f_equal.
  induction d as [|[k s] d IH]; simpl in *; [done|].
  apply andb_prop in H as [Hs Hd]. by rewrite (fill_session_id s Hs), IH.
Qed.

(** C6, as the code has it.  For a mapping whose sessions, generations
    and videos have their declared fields with values JSON can express,
    where a video may lack [local_path], a generation [videos] and a
    session [generations], and with the session file writable: saving
    succeeds without a message and leaves in the session file a document
    that is a session mapping, equivalent to the mapping saved once the
    defaults of the save are filled in (so to the mapping itself when no
    such key is missing); loading then, whatever is in memory, succeeds
    without a message and puts exactly that document in memory; and a
    second round trip gives back exactly what the first one gave. *)
Theorem save_then_load_round_trip w :
  is_session_mapping (with_defaults (sessions w)) = true ->
  sessions_file ∉ readonly w ->
  exists doc w1,
    save_sessions_to_file w = (Ok tt, w1) /\
    sessions w1 = sessions w /\ ui w1 = ui w /\
    files w1 !! sessions_file = Some (FJson doc) /\
    equiv_sessions (with_defaults (sessions w)) doc /\
    (is_session_mapping (sessions w) = true ->
     equiv_sessions (sessions w) doc) /\
    is_session_mapping doc = true /\
    forall m0, exists w2,
      load_sessions_from_file (set_sessions m0 w1) = (Ok tt, w2) /\
      sessions w2 = doc /\ ui w2 = ui w /\
      exists w3,
        save_sessions_to_file w2 = (Ok tt, w3) /\
        files w3 !! sessions_file = Some (FJson doc) /\
        forall m1, exists w4,
          load_sessions_from_file (set_sessions m1 w3) = (Ok tt, w4) /\
          sessions w4 = doc.
Proof.
  intros Hm Hro.
  destruct (copy_sessions_ok _ Hm) as (c & Hc & Heq & Hj & Hshape & Hidem).
  rewrite copy_sessions_fill in Hc.
  destruct (save_then_reload_run w c PNone Hc Hj Hro) as (Hsave & Hfile & _).
  eexists c, _. split; [exact Hsave|].
  split; [reflexivity|]. split; [reflexivity|]. split; [exact Hfile|].
  split; [exact Heq|]. split.
  { intros Hstrict. by rewrite <- (with_defaults_id _ Hstrict). }
  split; [exact Hshape|]. intros m0.
  destruct (save_then_reload_run w c m0 Hc Hj Hro) as (_ & _ & Hload).
  eexists. split; [exact Hload|].
  split; [reflexivity|]. split; [reflexivity|].
  match type of Hload with _ = (_, ?x) => set (w2 := x) in * end.
  destruct (save_then_reload_run w2 c PNone Hidem Hj Hro)
    as (Hsave2 & Hfile2 & _).
  eexists. split; [exact Hsave2|]. split; [exact Hfile2|]. intros m1.
  destruct (save_then_reload_run w2 c m1 Hidem Hj Hro) as (_ & _ & Hload2).
  eexists. split; [exact Hload2|]. reflexivity.
Qed.

(** The mapping whose video has no [local_path]: what is loaded after a
    restart has the session, and its video has the empty string for a
    path. *)
Lemma save_then_load_round_trip_witness :
  exists doc w1 w2,
    save_sessions_to_file sparse_world = (Ok tt, w1) /\
    load_sessions_from_file (set_sessions (PDict []) w1) = (Ok tt, w2) /\
    sessions w2 = doc /\
    equiv_sessions (with_defaults (sessions sparse_world)) doc.
Proof.
  assert (Hm : is_session_mapping (with_defaults (sessions sparse_world))
               = true) by (vm_compute; reflexivity).
  assert (Hro : sessions_file ∉ readonly sparse_world)
    by (vm_compute; set_solver).
  destruct (save_then_load_round_trip sparse_world Hm Hro)
    as (doc & w1 & H1 & _ & _ & _ & H2 & _ & _ & H3).
  destruct (H3 (PDict [])) as (w2 & H4 & H5 & _).
  exists doc, w1, w2. split; [exact H1|]. split; [exact H4|].
  split; [exact H5 | exact H2].
Defined.

(** C6, as stated, fails: a video stored without [local_path] comes back
    with one, so the mapping loaded differs from the mapping saved in a
    declared field. *)
Lemma round_trip_adds_local_path : ~ round_trip_law sparse_world.
Proof.
  unfold round_trip_law. intros H. specialize (H "demo").
  vm_compute in H.
  inversion H as [s s' [_ Hg] E1 E2|]; subst. clear H.
  inversion Hg as [gs gs' Hgs E1 E2|]; subst. clear Hg.
  inversion Hgs as [|g g' ? ? [_ Hv] _]; subst. clear Hgs.
  inversion Hv as [vs vs' Hvs E1 E2|]; subst. clear Hv.
  inversion Hvs as [|v v' ? ? Hf _]; subst. clear Hvs.
  unfold equiv_video, same_fields, video_fields in Hf.
  apply Forall_forall with (x := "local_path") in Hf; [discriminate Hf|].
  set_solver.
Qed.

(** C7. With no session file: if the legacy file holds a document and the
    session file can be written, loading puts that document in memory and
    writes the same document to the session file, leaving the legacy file
    as it is; every later load then stats and reads the session file only.
    If the legacy file is absent too, loading changes neither the mapping
    (empty at start-up, so still empty) nor any file, and shows nothing. *)
Theorem load_migrates_legacy_file w :
  files w !! sessions_file = None ->
  (forall doc,
     files w !! legacy_file = Some (FJson doc) ->
     is_json doc = true ->
     sessions_file ∉ readonly w ->
     exists w1,
       load_sessions_from_file w = (Ok tt, w1) /\
       sessions w1 = doc /\
       files w1 !! sessions_file = Some (FJson doc) /\
       files w1 !! legacy_file = Some (FJson doc) /\
       ui w1 = ui w /\
       forall n,
         Forall (fun op => op = OpStat sessions_file \/
                           op = OpOpenRead sessions_file)
           (ops_since w1 (repeat_load n w1)) /\
         sessions (repeat_load n w1) = doc) /\
  (files w !! legacy_file = None ->
   exists w1,
     load_sessions_from_file w = (Ok tt, w1) /\
     sessions w1 = sessions w /\
     (sessions w = PDict [] -> sessions w1 = PDict []) /\
     files w1 = files w /\
     ui w1 = ui w).
Proof.
  intros Hc. split.
  - intros doc Hl Hj Hro.
    rewrite (load_legacy_file w doc Hc Hl Hj Hro).
    eexists. split; [reflexivity|].
    set (w1 := after_ops _ _).
    assert (Hf : files w1 !! sessions_file = Some (FJson doc)).
    { unfold w1. simpl. rewrite lookup_insert_eq. reflexivity. }
    split; [reflexivity|]. split; [exact Hf|]. split.
    { unfold w1. simpl. rewrite !lookup_insert_ne by done. exact Hl. }
    split; [reflexivity|].
    intros n.
    destruct (repeat_load_session_file n w1 doc Hf Hj)
      as (ops & Ht & Hall & Hs & _).
    split.
    + unfold ops_since. rewrite Ht. by rewrite drop_app_length.
    + destruct n; [reflexivity | by apply Hs].
  - intros Hl. rewrite (load_no_file w Hc Hl).
    eexists. split; [reflexivity|]. by repeat split.
Qed.

(** The first start after an upgrade: the legacy mapping arrives in memory
    and in the session file, and the next load leaves the legacy file
    alone. *)
Lemma load_migrates_legacy_file_witness :
  exists w1,
    load_sessions_from_file legacy_world = (Ok tt, w1) /\
    sessions w1 = sessions demo_world /\
    files w1 !! sessions_file = Some (FJson (sessions demo_world)) /\
    Forall (fun op => op = OpStat sessions_file \/
                      op = OpOpenRead sessions_file)
      (ops_since w1 (repeat_load 1 w1)).
Proof.
  destruct (load_migrates_legacy_file legacy_world) as [H _].
  - vm_compute. reflexivity.
  - destruct (H (sessions demo_world))
      as (w1 & H1 & H2 & H3 & _ & _ & H6).
    + vm_compute. reflexivity.
    + vm_compute. reflexivity.
    + vm_compute. set_solver.
    + exists w1. split; [exact H1|]. split; [exact H2|]. split; [exact H3|].
      apply (H6 1).
Defined.

(** ** The generation job *)

(** C9. Without a client, [generate_videos_with_veo3] shows the
    configuration error and returns the empty list; it calls the remote
    client not once and changes nothing else. *)
Theorem generate_without_client prompt aspect_ratio model_version
    num_variations image_gcs_uri image_mime_type w :
  client w = None ->
  generate_videos_with_veo3 prompt aspect_ratio model_version num_variations
    image_gcs_uri image_mime_type w
  = (Ok [], show (StError MsgClientNotInitialized) w) /\
  remote_log (show (StError MsgClientNotInitialized) w) = remote_log w /\
  ui (show (StError MsgClientNotInitialized) w)
  = ui w ++ [StError MsgClientNotInitialized].
Proof.
  intros Hc. unfold generate_videos_with_veo3. rewrite Hc. by repeat split.
Qed.

Lemma generate_without_client_witness :
  generate_videos_with_veo3 "a cat" "16:9" "veo-3" 4 None "image/png"
    (world_of None)
  = (Ok [], show (StError MsgClientNotInitialized) (world_of None)).
Proof.
  apply (generate_without_client "a cat" "16:9" "veo-3" 4 None "image/png"
           (world_of None)).
  reflexivity.
Defined.

#[local] Instance polling_preorder : PreOrder polling.
Proof.
  split.
  - intros w. repeat split; try reflexivity.
    + exists []. by rewrite app_nil_r.
    + exists []. by rewrite app_nil_r.
  - intros a b c
      (A1 & A2 & A3 & A4 & A5 & A6 & A7 & (l1 & A8 & A9) & (e1 & A10 & A11))
      (B1 & B2 & B3 & B4 & B5 & B6 & B7 & (l2 & B8 & B9) & (e2 & B10 & B11)).
    repeat split; try congruence.
    + exists (l1 ++ l2). rewrite B8, A8, app_assoc. split; [done|].
      rewrite forallb_app. by rewrite A9, B9.
    + exists (e1 ++ e2). rewrite B10, A10, app_assoc. split; [done|].
      rewrite forallb_app. by rewrite A11, B11.
Qed.

Lemma polling_keep w w' :
  sessions w' = sessions w -> current_session_id w' = current_session_id w ->
  client w' = client w -> files w' = files w -> fs_trace w' = fs_trace w ->
  uuid_next w' = uuid_next w -> rand w' = rand w ->
  remote_log w' = remote_log w -> ui w' = ui w -> polling w w'.
Proof.
  intros. repeat split; try assumption.
  - exists []. by rewrite app_nil_r.
  - exists []. by rewrite app_nil_r.
Qed.

Lemma polling_log_call o w : polling w (log_call (CallOperationsGet o) w).
Proof.
  repeat split; try reflexivity.
  - by exists [CallOperationsGet o].
  - exists []. simpl. by rewrite app_nil_r.
Qed.

Lemma polling_progress h n t w : polling w (show (StProgress h n t) w).
Proof.
  repeat split; try reflexivity.
  - exists []. simpl. by rewrite app_nil_r.
  - by exists [StProgress h n t].
Qed.

Lemma poll_loop_polling fuel c i n o pc :
  preserves polling (poll_loop fuel c i n o pc).
Proof.
  revert o pc. induction fuel as [|fuel IH]; intros o pc; simpl.
  - destruct (negb (op_done o) && (pc <? max_polls)%nat); apply preserves_ret; apply _.
  - destruct (negb (op_done o) && (pc <? max_polls)%nat);
      [|apply preserves_ret; apply _].
    unfold time_sleep, client_operations_get, remote, st_progress.
    repeat first
      [ apply IH
      | apply preserves_modify; intros ?;
        first [ apply polling_log_call | apply polling_progress
              | apply polling_keep; reflexivity ]
      | frame_step ].
Qed.

(** The loop stops because the operation is done or because [max_polls]
    polls were made, not for want of fuel. *)
Lemma poll_loop_exit fuel c i n o pc w o' pc' w' :
  max_polls <= fuel + pc ->
  poll_loop fuel c i n o pc w = (Ok (o', pc'), w') ->
  op_done o' = true \/ max_polls <= pc'.
Proof.
  revert o pc w. induction fuel as [|fuel IH]; intros o pc w Hfuel; simpl.
  - destruct (op_done o) eqn:Hd; simpl.
    + intros [= <- <- <-]. by left.
    + destruct (pc <? max_polls)%nat eqn:Hlt.
      * apply Nat.ltb_lt in Hlt. lia.
      * apply Nat.ltb_ge in Hlt. intros [= <- <- <-]. by right.
  - destruct (op_done o) eqn:Hd; simpl.
    + intros [= <- <- <-]. by left.
    + destruct (pc <? max_polls)%nat eqn:Hlt.
      * unfold bind at 1. unfold time_sleep at 1. unfold bind at 1.
        cbn [gets modify fst snd].
        unfold bind at 1.
        destruct (client_operations_get c o _) as [[o1|e] w1]; [|discriminate].
        unfold bind at 1. unfold st_progress at 1. cbn [modify].
        apply IH. lia.
      * apply Nat.ltb_ge in Hlt. intros [= <- <- <-]. by right.
Qed.

Lemma remote_run {A} (call : remote_call)
    (answer : list remote_call -> result A) w :
  remote call answer w = (answer (remote_log w), log_call call w).
Proof. reflexivity. Qed.

(** One variation, case by case. *)
Lemma variation_run c prompt aspect_ratio model_version n image_gcs_uri
    image_mime_type i vs w :
  variation c prompt aspect_ratio model_version n image_gcs_uri
    image_mime_type i (vs, w) =
    let video_id := uuid4 (rand w) (uuid_next w) in
    let req := request_kwargs prompt aspect_ratio model_version image_gcs_uri
                 image_mime_type in
    let w1 := submitted req i n w in
    match generate_videos c (remote_log w) req with
    | Raise e => (Raise e, (vs, w1))
    | Ok o =>
        match poll_loop max_polls c i n o 0 w1 with
        | (Raise e, w2) => (Raise e, (vs, w2))
        | (Ok (o', _), w2) =>
            if op_done o' then
              match first_generated_video o' with
              | Raise e => (Raise e, (vs, w2))
              | Ok gv =>
                  let path :=
                    path_join generated_videos_dir
                      ("veo3_" +:+ video_id +:+ "_" +:+
                       strftime (rand w2) (clock w2) +:+ ".mp4") in
                  let w3 := log_call (CallFilesDownload gv) w2 in
                  let w4 := log_call (CallVideoSave gv path) w3 in
                  match files_download c (remote_log w2) gv with
                  | Raise e => (Raise e, (vs, w3))
                  | Ok _ =>
                      match video_save c (remote_log w3) gv path with
                      | Raise e => (Raise e, (vs, w4))
                      | Ok _ =>
                          (Ok tt,
                           (vs ++ [video_data video_id prompt aspect_ratio
                                     model_version
                                     (isoformat (rand w2) (clock w2))
                                     (PStr path) "completed"],
                            last_step i n
                              (show (StProgress (2 * i + 2) n
                                       (TxtCompleted i n))
                                 (do_fs (OpWriteMedia path gv) w4))))
                      end
                  end
              end
            else
              (Ok tt,
               (vs ++ [video_data video_id prompt aspect_ratio model_version
                         (isoformat (rand w2) (clock w2)) PNone "timeout"],
                last_step i n
                  (show (StWarning (MsgTimedOut i (max_polls * 10))) w2)))
        end
    end.
Proof.
  cbv zeta.
  unfold variation, in_world, new_video_id, st_progress,
    client_generate_videos, client_files_download, client_video_save,
    remote, now_strftime, now_isoformat, append_video, st_warning,
    last_step, submitted, bind, gets, modify, ret, lift_result.
  cbn [fst snd remote_log rand uuid_next clock show set_uuid_next log_call].
  destruct (generate_videos c _ _) as [o|e]; [|reflexivity].
  destruct (poll_loop max_polls c i n o 0 _) as [[[o' pc']|e] w2];
    [|reflexivity].
  cbn [fst snd].
  destruct (op_done o').
  - destruct (first_generated_video o') as [gv|e]; [|reflexivity].
    destruct (files_download c _ _) as [[]|e]; [|reflexivity].
    cbn [fst snd remote_log rand uuid_next clock show set_uuid_next log_call].
    destruct (video_save c _ _ _) as [[]|e]; [|reflexivity].
    destruct (Z.of_nat i =? n - 1)%Z; reflexivity.
  - destruct (Z.of_nat i =? n - 1)%Z; reflexivity.
Qed.

(** Polling with a reliable client returns, with a usable operation. *)
Lemma poll_loop_reliable fuel c i n o pc w :
  reliable c -> usable o ->
  exists o' pc' w',
    poll_loop fuel c i n o pc w = (Ok (o', pc'), w') /\ usable o'.
Proof.
  intros (_ & Hget & _) . revert o pc w.
  induction fuel as [|fuel IH]; intros o pc w Hu; simpl.
  - destruct (negb (op_done o) && (pc <? max_polls)%nat); by exists o, pc, w.
  - destruct (negb (op_done o) && (pc <? max_polls)%nat);
      [|by exists o, pc, w].
    unfold time_sleep, client_operations_get, st_progress, bind, gets, modify.
    rewrite remote_run. cbn [fst snd].
    destruct (Hget (remote_log (set_clock (clock w + 10) w)) o)
      as (o2 & -> & Hu2).
    apply IH. exact Hu2.
Qed.

Lemma for_each_app {S A} (xs ys : list A) (body : A -> M S unit) s :
  for_each (xs ++ ys) body s =
    match for_each xs body s with
    | (Ok _, s') => for_each ys body s'
    | (Raise e, s') => (Raise e, s')
    end.
Proof.
  revert s. induction xs as [|x xs IH]; intros s; simpl; [done|].
  unfold bind. destruct (body x s) as [[[]|e] s']; [apply IH | done].
Qed.

Lemma progress_no_error evs :
  forallb is_progress evs = true -> existsb is_error evs = false.
Proof.
  induction evs as [|ev evs IH]; simpl; [done|].
  intros H. apply andb_prop in H as [H1 H2]. rewrite (IH H2).
  by destruct ev.
Qed.

(** Polling an operation that stalls for what is left of the budget: the
    budget is used up, one call to [operations.get] per round. *)
Lemma poll_loop_stalls fuel c i n o pc w :
  stalls c fuel (remote_log w) o = true ->
  op_done o = false ->
  pc + fuel = max_polls ->
  exists o' calls w',
    poll_loop fuel c i n o pc w = (Ok (o', max_polls), w') /\
    op_done o' = false /\
    remote_log w' = remote_log w ++ calls /\
    length calls = fuel /\ forallb is_poll calls = true.
Proof.
  revert o pc w.
  induction fuel as [|fuel IH]; intros o pc w Hst Hd Hpc; simpl.
  - rewrite Hd. simpl.
    replace (pc <? max_polls)%nat with false
      by (symmetry; apply Nat.ltb_ge; lia).
    exists o, [], w. rewrite app_nil_r.
    replace pc with max_polls by lia. by repeat split.
  - rewrite Hd. simpl.
    replace (pc <? max_polls)%nat with true
      by (symmetry; apply Nat.ltb_lt; lia).
    unfold time_sleep, client_operations_get, st_progress, bind, gets, modify.
    rewrite remote_run. cbn [fst snd remote_log set_clock].
    simpl in Hst.
    destruct (operations_get c (remote_log w) o) as [o2|e]; [|discriminate].
    apply andb_prop in Hst as [Hd2 Hst2]. apply negb_true_iff in Hd2.
    match goal with
    | |- context [poll_loop fuel c i n o2 ?pc' ?w1] =>
        destruct (IH o2 pc' w1)
          as (o' & calls & w' & Hrun & Hd' & Hlog & Hlen & Hall)
    end.
    + exact Hst2.
    + exact Hd2.
    + lia.
    + exists o', (CallOperationsGet o :: calls), w'.
      rewrite Hrun. split; [done|]. split; [done|]. split.
      * rewrite Hlog. simpl. by rewrite <- app_assoc.
      * simpl. by rewrite Hlen, Hall.
Qed.

(** C3. A variation whose submission returns an operation that is not
    done, and whose polls, as this run makes them, each return one that is
    not done: exactly [max_polls] (60) polls follow the submission; the
    variation ends normally with a record of status [timeout] whose
    [local_path] is [None]; no file is written; a warning is shown and no
    error; and the loop goes on with the variations that remain, whatever
    becomes of them. *)
Theorem stalled_variation_times_out c prompt aspect_ratio model_version n
    image_gcs_uri image_mime_type i vs w o :
  let req := request_kwargs prompt aspect_ratio model_version image_gcs_uri
               image_mime_type in
  let body := variation c prompt aspect_ratio model_version n image_gcs_uri
                image_mime_type in
  generate_videos c (remote_log w) req = Ok o ->
  op_done o = false ->
  stalls c max_polls (remote_log w ++ [CallGenerateVideos req]) o = true ->
  exists created_at calls evs w',
    let record := video_data (uuid4 (rand w) (uuid_next w)) prompt
                    aspect_ratio model_version created_at PNone "timeout" in
    body i (vs, w) = (Ok tt, (vs ++ [record], w')) /\
    remote_log w' = remote_log w ++ CallGenerateVideos req :: calls /\
    length calls = 60 /\ forallb is_poll calls = true /\
    ui w' = ui w ++ evs /\
    In (StWarning (MsgTimedOut i 600)) evs /\ existsb is_error evs = false /\
    files w' = files w /\
    forall rest,
      for_each (i :: rest) body (vs, w) = for_each rest body (vs ++ [record], w').
Proof.
  intros req body Hsub Hd Hget. unfold body.
  pose proof (variation_run c prompt aspect_ratio model_version n
                image_gcs_uri image_mime_type i vs w) as Hrun.
  cbv zeta in Hrun. fold req in Hrun. rewrite Hsub in Hrun.
  set (w1 := submitted req i n w) in *.
  destruct (poll_loop_stalls max_polls c i n o 0 w1)
    as (o' & calls & w2 & Hpoll & Hd' & Hlog & Hlen & Hall);
    [exact Hget | exact Hd | reflexivity |].
  pose proof (poll_loop_polling max_polls c i n o 0 w1) as Hfr.
  rewrite Hpoll in Hfr, Hrun. rewrite Hd' in Hrun.
  destruct Hfr as (_ & _ & _ & Hf & _ & Hu & Hr & _ & (evs & Hui & Hevs)).
  simpl in Hf, Hu, Hr, Hui.
  eexists (isoformat (rand w) (clock w2)), calls,
    ([StProgress (2 * i) n (TxtGenerating i n)] ++ evs ++
     StWarning (MsgTimedOut i 600) ::
     (if (Z.of_nat i =? n - 1)%Z then [StProgressEmpty] else [])), _.
  cbv zeta. rewrite Hr in Hrun. simpl in Hrun.
  split; [exact Hrun|].
  assert (Hpe := progress_no_error evs Hevs).
  unfold last_step.
  split; [|split; [exact Hlen|split; [exact Hall|split; [|split; [|split; [|split]]]]]].
  - destruct (Z.of_nat i =? n - 1)%Z; simpl; rewrite Hlog; simpl;
      by rewrite <- app_assoc.
  - destruct (Z.of_nat i =? n - 1)%Z; simpl; rewrite Hui;
      rewrite <- !app_assoc; reflexivity.
  - apply in_or_app. right. apply in_or_app. right. apply in_eq.
  - simpl. rewrite existsb_app, Hpe. simpl.
    by destruct (Z.of_nat i =? n - 1)%Z.
  - by destruct (Z.of_nat i =? n - 1)%Z.
  - intros rest. simpl. unfold bind at 1. by rewrite Hrun.
Qed.

(** With a client whose first operation never finishes and whose second
    is done at its first poll, the first of two variations makes its 60
    polls and leaves a timeout record; the job goes on and returns two
    records, the second completed. *)
Lemma stalled_variation_times_out_witness :
  exists created_at calls w' v,
    variation uneven_client "a cat" "16:9" "veo-3" 2 None "image/png" 0
      ([], world_of (Some uneven_client))
    = (Ok tt,
       ([video_data "0a1b2c3d" "a cat" "16:9" "veo-3" created_at PNone
           "timeout"], w')) /\
    length calls = 60 /\
    remote_log w' =
      CallGenerateVideos
        (request_kwargs "a cat" "16:9" "veo-3" None "image/png") :: calls /\
    returned (generate_videos_with_veo3 "a cat" "16:9" "veo-3" 2 None
                "image/png" (world_of (Some uneven_client)))
    = [video_data "0a1b2c3d" "a cat" "16:9" "veo-3" created_at PNone
         "timeout"; v] /\
    field "status" v = Some (PStr "completed").
Proof.
  destruct (stalled_variation_times_out uneven_client "a cat" "16:9" "veo-3"
              2 None "image/png" 0 [] (world_of (Some uneven_client))
              pending)
    as (created_at & calls & evs & w' & H1 & H2 & H3 & _ & _ & _ & _ & _ & H4).
  - reflexivity.
  - reflexivity.
  - vm_compute. reflexivity.
  - exists created_at, calls, w'.
    assert (Hjob :
      generate_videos_with_veo3 "a cat" "16:9" "veo-3" 2 None "image/png"
        (world_of (Some uneven_client))
      = let out := for_each [1]
                     (variation uneven_client "a cat" "16:9" "veo-3" 2 None
                        "image/png")
                     ([video_data "0a1b2c3d" "a cat" "16:9" "veo-3"
                         created_at PNone "timeout"], w') in
        match fst out with
        | Ok _ => (Ok (fst (snd out)), snd (snd out))
        | Raise e =>
            (Ok (fst (snd out)),
             show (StInfo MsgCheckApiAccess)
               (show (StError (MsgGenerationError e)) (snd (snd out))))
        end).
    { unfold generate_videos_with_veo3, generation_loop, try_except.
      cbn [client world_of]. change (range 2) with [0; 1].
      rewrite (H4 [1]). cbv zeta.
      destruct (for_each [1] _ _) as [[[]|e] [vs1 w1]]; reflexivity. }
    pose proof H1 as Hv. vm_compute in Hv. injection Hv as Hc Hw.
    rewrite Hjob. subst created_at w'.
    eexists. split; [exact H1|]. split; [exact H3|].
    split; [exact H2|]. vm_compute. split; reflexivity.
Defined.

(** What one variation leaves behind: one more identifier drawn, and one
    more record if and only if it did not raise.  With a reliable client it
    does not raise. *)
Lemma variation_outcome c prompt aspect_ratio model_version n image_gcs_uri
    image_mime_type i vs w :
  exists (r : result unit) vs' w',
    variation c prompt aspect_ratio model_version n image_gcs_uri
      image_mime_type i (vs, w) = (r, (vs', w')) /\
    rand w' = rand w /\ uuid_next w' = S (uuid_next w) /\
    match r with
    | Ok _ => exists v, vs' = vs ++ [v] /\
                record_for prompt aspect_ratio model_version
                  (uuid4 (rand w) (uuid_next w)) v
    | Raise _ => vs' = vs
    end /\
    (reliable c -> r = Ok tt).
Proof.
  rewrite variation_run. cbv zeta.
  set (req := request_kwargs _ _ _ _ _).
  set (w1 := submitted req i n w).
  destruct (generate_videos c (remote_log w) req) as [o|e] eqn:Hsub.
  2:{ eexists _, _, _. split; [reflexivity|]. repeat split.
      intros (Hs & _). destruct (Hs (remote_log w) req) as (? & ? & _).
      congruence. }
  pose proof (poll_loop_polling max_polls c i n o 0 w1) as Hfr.
  destruct (poll_loop max_polls c i n o 0 w1) as [[[o' pc']|e] w2] eqn:Hpoll.
  2:{ destruct Hfr as (_ & _ & _ & _ & _ & Hu & Hr & _).
      eexists _, _, _. split; [reflexivity|]. repeat split; try assumption.
      intros Hrel. pose proof Hrel as (Hs & _).
      destruct (Hs (remote_log w) req) as (o0 & Ho0 & Hus).
      assert (o0 = o) by congruence. subst o0.
      destruct (poll_loop_reliable max_polls c i n o 0 w1 Hrel Hus)
        as (? & ? & ? & ? & _). congruence. }
  destruct Hfr as (_ & _ & _ & _ & _ & Hu & Hr & _).
  simpl in Hu, Hr.
  assert (Hus : reliable c -> usable o').
  { intros Hrel. pose proof Hrel as (Hs & _).
    destruct (Hs (remote_log w) req) as (o0 & Ho0 & Hus).
    assert (o0 = o) by congruence. subst o0.
    destruct (poll_loop_reliable max_polls c i n o 0 w1 Hrel Hus)
      as (o2 & ? & ? & Hrun & Hus2).
    rewrite Hpoll in Hrun. by injection Hrun as <- _ _. }
  destruct (op_done o') eqn:Hd.
  - destruct (first_generated_video o') as [gv|e] eqn:Hgv.
    2:{ eexists _, _, _. split; [reflexivity|]. repeat split; try assumption.
        intros Hrel. destruct (Hus Hrel Hd) as (v & l & Hresp).
        unfold first_generated_video in Hgv. rewrite Hresp in Hgv.
        discriminate. }
    destruct (files_download c (remote_log w2) gv) as [[]|e] eqn:Hdl.
    2:{ eexists _, _, _. split; [reflexivity|]. repeat split; try assumption.
        intros (_ & _ & Hdown & _). rewrite Hdown in Hdl. discriminate. }
    destruct (video_save c _ gv _) as [[]|e] eqn:Hsv.
    2:{ eexists _, _, _. split; [reflexivity|]. repeat split; try assumption.
        intros (_ & _ & _ & Hsave). rewrite Hsave in Hsv. discriminate. }
    eexists _, _, _. split; [reflexivity|].
    unfold last_step.
    split; [by destruct (Z.of_nat i =? n - 1)%Z|].
    split; [by destruct (Z.of_nat i =? n - 1)%Z|].
    split; [|done].
    eexists. split; [reflexivity|]. eexists. left. eexists. reflexivity.
  - eexists _, _, _. split; [reflexivity|].
    unfold last_step.
    split; [by destruct (Z.of_nat i =? n - 1)%Z|].
    split; [by destruct (Z.of_nat i =? n - 1)%Z|].
    split; [|done].
    eexists. split; [reflexivity|]. eexists. right. reflexivity.
Qed.

(** The loop over the variations [idx]: the records appended are those of
    the variations gone through, in order; all of them if the loop ends
    normally, fewer if a variation raises. *)
Lemma variations_outcome c prompt aspect_ratio model_version n image_gcs_uri
    image_mime_type (idx : list nat) vs w :
  exists (r : result unit) new w',
    for_each idx
      (variation c prompt aspect_ratio model_version n image_gcs_uri
         image_mime_type) (vs, w) = (r, (vs ++ new, w')) /\
    (forall k v, new !! k = Some v ->
       record_for prompt aspect_ratio model_version
         (uuid4 (rand w) (uuid_next w + k)) v) /\
    match r with
    | Ok _ => length new = length idx
    | Raise _ => length new < length idx
    end /\
    (reliable c -> r = Ok tt).
Proof.
  revert vs w. induction idx as [|i idx IH]; intros vs w.
  - exists (Ok tt), [], w. simpl. rewrite app_nil_r.
    split; [done|]. split; [|done]. intros k v Hk. discriminate.
  - simpl. unfold bind.
    destruct (variation_outcome c prompt aspect_ratio model_version n
                image_gcs_uri image_mime_type i vs w)
      as (r & vs' & w' & Hrun & Hr & Hu & Hrec & Hrel).
    rewrite Hrun. destruct r as [[]|e].
    + destruct Hrec as (v & -> & Hv).
      destruct (IH (vs ++ [v]) w') as (r2 & new & w2 & Hrun2 & Hids & Hlen & Hrel2).
      exists r2, (v :: new), w2. rewrite Hrun2.
      split; [by rewrite <- app_assoc|]. split; [|split].
      * intros [|k] v' Hk; simpl in Hk.
        -- injection Hk as <-. by rewrite Nat.add_0_r.
        -- apply Hids in Hk. rewrite Hr, Hu in Hk.
           by replace (uuid_next w + S k) with (S (uuid_next w) + k) by lia.
      * destruct r2; simpl; lia.
      * exact Hrel2.
    + subst vs'. exists (Raise e), [], w'. rewrite app_nil_r.
      split; [done|]. split; [|split].
      * intros k v Hk. discriminate.
      * simpl. lia.
      * intros H. by apply Hrel in H.
Qed.

Lemma range_length n : length (range n) = Z.to_nat n.
Proof. unfold range. apply length_seq. Qed.

Lemma range_split n k :
  k < Z.to_nat n ->
  range n = seq 0 k ++ k :: seq (S k) (Z.to_nat n - S k).
Proof.
  intros Hk. unfold range.
  replace (Z.to_nat n) with (k + S (Z.to_nat n - S k)) at 1 by lia.
  by rewrite seq_app.
Qed.

(** ** The calls of a run *)

Lemma clean_calls_nil c h : clean_calls c h [].
Proof. intros j call H. discriminate H. Qed.

Lemma clean_calls_cons c h x l :
  clean_calls c h (x :: l) <-> call_ok c h x /\ clean_calls c (h ++ [x]) l.
Proof.
  split.
  - intros H. split.
    + specialize (H 0 x eq_refl). simpl in H. by rewrite app_nil_r in H.
    + intros j call Hj. specialize (H (S j) call Hj). simpl in H.
      by rewrite <- app_assoc.
  - intros [Hx Hl] [|j] call Hj; simpl in *.
    + injection Hj as <-. by rewrite app_nil_r.
    + specialize (Hl j call Hj). by rewrite <- app_assoc in Hl.
Qed.

Lemma clean_calls_app c h l1 l2 :
  clean_calls c h (l1 ++ l2) <->
  clean_calls c h l1 /\ clean_calls c (h ++ l1) l2.
Proof.
  revert h. induction l1 as [|x l1 IH]; intros h; simpl.
  - rewrite app_nil_r. split; [intros H; split; [apply clean_calls_nil|done]
                              | by intros [_ H]].
  - rewrite !clean_calls_cons, IH, <- app_assoc. simpl. tauto.
Qed.

Lemma clean_calls_one c h x : clean_calls c h [x] <-> call_ok c h x.
Proof.
  rewrite clean_calls_cons. split; [by intros [H _]|].
  intros H. split; [exact H | apply clean_calls_nil].
Qed.

(** The polls of one variation: at most what is left of the budget; if
    the loop returns, the operation it returns is usable exactly when the
    one it started from is and every poll was answered well; if it raises,
    a poll was not. *)
Lemma poll_loop_trace fuel c i n o pc w :
  exists polls,
    remote_log (snd (poll_loop fuel c i n o pc w)) = remote_log w ++ polls /\
    forallb is_poll polls = true /\
    length polls <= max_polls - pc /\
    match fst (poll_loop fuel c i n o pc w) with
    | Ok (o', _) => usable o' <-> usable o /\ clean_calls c (remote_log w) polls
    | Raise _ => ~ clean_calls c (remote_log w) polls
    end.
Proof.
  revert o pc w. induction fuel as [|fuel IH]; intros o pc w; simpl.
  - exists []. rewrite app_nil_r.
    destruct (negb (op_done o) && (pc <? max_polls)%nat); simpl;
      (split; [done|]); (split; [done|]); (split; [lia|]);
      split; try tauto; intros H; split; try done; apply clean_calls_nil.
  - destruct (op_done o) eqn:Hd; simpl.
    { exists []. rewrite app_nil_r. simpl.
      split; [done|]. split; [done|]. split; [lia|].
      split; [intros H; split; [done | apply clean_calls_nil] | tauto]. }
    destruct (pc <? max_polls)%nat eqn:Hlt; simpl.
    2:{ exists []. rewrite app_nil_r. simpl.
        split; [done|]. split; [done|]. split; [lia|].
        split; [intros H; split; [done | apply clean_calls_nil] | tauto]. }
    apply Nat.ltb_lt in Hlt.
    unfold time_sleep, client_operations_get, st_progress, bind, gets, modify.
    rewrite remote_run. cbn [fst snd remote_log set_clock].
    destruct (operations_get c (remote_log w) o) as [o1|e] eqn:Hget.
    + match goal with
      | |- context [poll_loop fuel c i n o1 ?pc1 ?w1] =>
          destruct (IH o1 pc1 w1) as (polls & Hlog & Hall & Hlen & Hres)
      end.
      exists (CallOperationsGet o :: polls).
      rewrite Hlog. cbn [remote_log show log_call set_clock].
      rewrite <- app_assoc.
      split; [done|]. split; [done|]. split; [simpl; lia|].
      assert (Hu : usable o) by (intros H; congruence).
      cbn [remote_log show log_call set_clock] in Hres.
      destruct (fst (poll_loop fuel c i n o1 _ _)) as [[o' pc']|e].
      * rewrite clean_calls_cons. simpl call_ok. split.
        -- intros H. apply Hres in H as [H1 H2].
           split; [exact Hu|]. split; [|exact H2]. by exists o1.
        -- intros (_ & (o2 & Ho2 & Hu2) & H2). apply Hres.
           assert (o2 = o1) by congruence. subst o2. by split.
      * rewrite clean_calls_cons. by intros [_ H].
    + exists [CallOperationsGet o]. cbn [fst snd remote_log log_call set_clock].
      split; [done|]. split; [done|]. split; [simpl; lia|].
      rewrite clean_calls_one. simpl. intros (o2 & Ho2 & _). congruence.
Qed.

(** One variation: its calls, and whether all were answered well. *)
Lemma variation_trace c prompt aspect_ratio model_version n image_gcs_uri
    image_mime_type i vs w :
  let req := request_kwargs prompt aspect_ratio model_version image_gcs_uri
               image_mime_type in
  let out := variation c prompt aspect_ratio model_version n image_gcs_uri
               image_mime_type i (vs, w) in
  exists seg,
    remote_log (snd (snd out)) = remote_log w ++ seg /\
    variation_calls req seg /\
    match fst out with
    | Ok _ => clean_calls c (remote_log w) seg
    | Raise _ => ~ clean_calls c (remote_log w) seg
    end.
Proof.
  intros req out. unfold out. rewrite variation_run. cbv zeta. fold req.
  set (w1 := submitted req i n w).
  assert (Hlog1 : remote_log w1 = remote_log w ++ [CallGenerateVideos req])
    by reflexivity.
  destruct (generate_videos c (remote_log w) req) as [o|e] eqn:Hsub.
  2:{ exists [CallGenerateVideos req]. cbn [fst snd].
      split; [exact Hlog1|]. split.
      - exists [], []. by repeat split; simpl; try lia.
      - rewrite clean_calls_one. simpl. intros (o & Ho & _). congruence. }
  destruct (poll_loop_trace max_polls c i n o 0 w1)
    as (polls & Hlog & Hall & Hlen & Hres).
  rewrite Nat.sub_0_r in Hlen. rewrite Hlog1 in Hlog, Hres.
  assert (Hseg : forall rest,
            forallb (fun call => negb (is_submit call) && negb (is_poll call))
              rest = true ->
            variation_calls req (CallGenerateVideos req :: polls ++ rest)).
  { intros rest Hrest. by exists polls, rest. }
  assert (Hclean : forall rest,
            clean_calls c (remote_log w)
              (CallGenerateVideos req :: polls ++ rest) <->
            usable o /\
            clean_calls c (remote_log w ++ [CallGenerateVideos req]) polls /\
            clean_calls c
              ((remote_log w ++ [CallGenerateVideos req]) ++ polls) rest).
  { intros rest. rewrite clean_calls_cons, clean_calls_app. simpl call_ok.
    split.
    - intros ((o0 & Ho0 & Hu0) & H1 & H2).
      assert (o0 = o) by congruence. subst o0. by repeat split.
    - intros (Hu & H1 & H2). split; [by exists o | by split]. }
  destruct (poll_loop max_polls c i n o 0 w1) as [[[o' pc']|e] w2];
    cbn [fst snd] in *.
  2:{ exists (CallGenerateVideos req :: polls ++ []). split.
      - rewrite app_nil_r, Hlog. by rewrite <- app_assoc.
      - split; [by apply Hseg|]. rewrite Hclean. tauto. }
  destruct (op_done o') eqn:Hd.
  - destruct (first_generated_video o') as [gv|e] eqn:Hgv.
    2:{ cbn [fst snd].
        exists (CallGenerateVideos req :: polls ++ []). split.
        - rewrite app_nil_r, Hlog. by rewrite <- app_assoc.
        - split; [by apply Hseg|]. rewrite Hclean.
          intros (Hu & H1 & _).
          assert (Huo : usable o') by (apply Hres; by split).
          destruct (Huo Hd) as (v & l & Hresp).
          unfold first_generated_video in Hgv. rewrite Hresp in Hgv.
          discriminate. }
    assert (Huo : usable o').
    { intros _. unfold first_generated_video in Hgv.
      destruct (op_response o') as [[|v l]|]; try discriminate. eauto. }
    apply Hres in Huo as [Hu Hpolls].
    destruct (files_download c (remote_log w2) gv) as [[]|e] eqn:Hdl;
      cbn [fst snd].
    2:{ exists (CallGenerateVideos req :: polls ++ [CallFilesDownload gv]).
        split.
        - simpl. rewrite Hlog. by rewrite <- !app_assoc.
        - split; [by apply Hseg|]. rewrite Hclean, clean_calls_one.
          simpl call_ok. rewrite <- Hlog. intros (_ & _ & H). congruence. }
    destruct (video_save c _ gv _) as [[]|e] eqn:Hsv; cbn [fst snd].
    2:{ eexists (CallGenerateVideos req :: polls ++
                   [CallFilesDownload gv; CallVideoSave gv _]).
        split.
        - simpl. rewrite Hlog. by rewrite <- !app_assoc.
        - split; [by apply Hseg|]. rewrite Hclean, clean_calls_cons.
          rewrite clean_calls_one. simpl call_ok. rewrite <- Hlog.
          simpl in Hsv. intros (_ & _ & _ & H). congruence. }
    eexists (CallGenerateVideos req :: polls ++
               [CallFilesDownload gv; CallVideoSave gv _]).
    split.
    + unfold last_step. destruct (Z.of_nat i =? n - 1)%Z; simpl;
        rewrite Hlog; by rewrite <- !app_assoc.
    + split; [by apply Hseg|]. rewrite Hclean, clean_calls_cons.
      rewrite clean_calls_one. simpl call_ok. rewrite <- Hlog.
      simpl in Hsv. by repeat split.
  - cbn [fst snd]. exists (CallGenerateVideos req :: polls ++ []). split.
    + rewrite app_nil_r. unfold last_step.
      destruct (Z.of_nat i =? n - 1)%Z; simpl; rewrite Hlog;
        by rewrite <- app_assoc.
    + split; [by apply Hseg|]. rewrite Hclean.
      assert (Huo : usable o') by (intros H; congruence).
      apply Hres in Huo as [Hu Hpolls].
      split; [exact Hu|]. split; [exact Hpolls | apply clean_calls_nil].
Qed.

(** The loop over the variations [idx]: one segment of calls for each
    variation gone into; every call was answered well exactly when the
    loop ends normally, and then every variation has left a record; when
    it raises, the variation that raised is the last one gone into and has
    left no record. *)
Lemma variations_trace c prompt aspect_ratio model_version n image_gcs_uri
    image_mime_type (idx : list nat) vs w :
  let req := request_kwargs prompt aspect_ratio model_version image_gcs_uri
               image_mime_type in
  let out := for_each idx
               (variation c prompt aspect_ratio model_version n image_gcs_uri
                  image_mime_type) (vs, w) in
  exists segs,
    remote_log (snd (snd out)) = remote_log w ++ concat segs /\
    Forall (variation_calls req) segs /\
    match fst out with
    | Ok _ =>
        clean_calls c (remote_log w) (concat segs) /\
        length segs = length idx /\
        length (fst (snd out)) = length vs + length idx
    | Raise _ =>
        ~ clean_calls c (remote_log w) (concat segs) /\
        length segs <= length idx /\
        length (fst (snd out)) + 1 = length vs + length segs
    end.
Proof.
  intros req. revert vs w. induction idx as [|i idx IH]; intros vs w.
  - cbv zeta. simpl. exists []. simpl. rewrite app_nil_r.
    split; [done|]. split; [done|].
    split; [apply clean_calls_nil | split; [done | lia]].
  - cbv zeta. cbn [for_each length]. unfold bind.
    destruct (variation_outcome c prompt aspect_ratio model_version n
                image_gcs_uri image_mime_type i vs w)
      as (r & vs1 & w1 & Hrun & _ & _ & Hrec & _).
    pose proof (variation_trace c prompt aspect_ratio model_version n
                  image_gcs_uri image_mime_type i vs w) as Hv.
    cbv zeta in Hv. fold req in Hv. rewrite Hrun in *. cbn [fst snd] in Hv.
    destruct Hv as (seg & Hlog & Hseg & Hcl).
    destruct r as [[]|e].
    + destruct Hrec as (v & -> & _).
      specialize (IH (vs ++ [v]) w1). cbv zeta in IH.
      destruct IH as (segs & Hlog2 & Hsegs & Hres).
      exists (seg :: segs). simpl concat.
      split; [rewrite Hlog2, Hlog; by rewrite <- app_assoc|].
      split; [by constructor|].
      rewrite Hlog in Hres.
      destruct (fst (for_each idx _ _)).
      * destruct Hres as (H1 & H2 & H3). rewrite length_app in H3.
        simpl in *. split; [by apply clean_calls_app|]. lia.
      * destruct Hres as (H1 & H2 & H3). rewrite length_app in H3.
        simpl in *. split; [|lia]. rewrite clean_calls_app. tauto.
    + subst vs1. cbn [fst snd]. exists [seg]. simpl. rewrite app_nil_r.
      split; [exact Hlog|]. split; [by constructor|].
      split; [exact Hcl|]. lia.
Qed.

(** C1, as the code has it.  With a client configured, the job returns at
    most one record per requested variation, the [k]-th record being the
    one of variation [k] (completed or timed out).  It returns exactly as
    many records as variations requested if and only if, in this run, no
    call to the client raised and no operation came back done without a
    video (so always with a reliable client).  Otherwise the variation in
    which that happened is the last one submitted, it and the variations
    after it have no record, and the last things shown are the error
    that ended the batch and the hint about API access. *)
Theorem generate_returns_records_in_order prompt aspect_ratio model_version
    n image_gcs_uri image_mime_type w c :
  client w = Some c ->
  let req := request_kwargs prompt aspect_ratio model_version image_gcs_uri
               image_mime_type in
  let out := generate_videos_with_veo3 prompt aspect_ratio model_version n
               image_gcs_uri image_mime_type w in
  let videos := returned out in
  fst out = Ok videos /\
  length videos <= Z.to_nat n /\
  (forall k v, videos !! k = Some v ->
     record_for prompt aspect_ratio model_version
       (uuid4 (rand w) (uuid_next w + k)) v) /\
  (reliable c -> length videos = Z.to_nat n) /\
  (length videos < Z.to_nat n ->
   exists e shown,
     ui (snd out) =
       shown ++ [StError (MsgGenerationError e); StInfo MsgCheckApiAccess]) /\
  exists segs,
    remote_log (snd out) = remote_log w ++ concat segs /\
    Forall (variation_calls req) segs /\
    (clean_calls c (remote_log w) (concat segs) <->
     length videos = Z.to_nat n) /\
    (length videos < Z.to_nat n -> length segs = length videos + 1).
Proof.
  intros Hc req. unfold generate_videos_with_veo3, returned. rewrite Hc.
  cbn [fst snd]. unfold generation_loop, try_except.
  destruct (variations_outcome c prompt aspect_ratio model_version n
              image_gcs_uri image_mime_type (range n) [] w)
    as (r & new & w' & Hrun & Hids & Hlen & Hrel).
  pose proof (variations_trace c prompt aspect_ratio model_version n
                image_gcs_uri image_mime_type (range n) [] w) as Htr.
  cbv zeta in Htr. fold req in Htr.
  rewrite Hrun in *. rewrite range_length in Hlen, Htr. simpl app in *.
  cbn [fst snd length] in Htr.
  destruct Htr as (segs & Hlog & Hsegs & Hres).
  destruct r as [[]|e]; cbn [fst snd].
  - split; [done|]. split; [lia|]. split; [exact Hids|].
    split; [done|]. split; [lia|].
    exists segs. split; [exact Hlog|]. split; [exact Hsegs|].
    destruct Hres as (H1 & H2 & H3). split; [tauto | lia].
  - unfold bind, in_world, st_error, st_info, modify. cbn [fst snd].
    split; [done|]. split; [lia|]. split; [exact Hids|]. split; [|split].
    + intros H. by apply Hrel in H.
    + intros _. exists e, (ui w'). simpl. by rewrite <- app_assoc.
    + exists segs. split; [exact Hlog|]. split; [exact Hsegs|].
      destruct Hres as (H1 & H2 & H3). split; [|lia].
      split; [tauto | lia].
Qed.

(** One variation with a client that accepts one submission only, done at
    once: the three calls of the run are answered well, so one record is
    returned, although the client would refuse a second submission. *)
Lemma generate_returns_records_in_order_witness :
  length (returned (generate_videos_with_veo3 "a cat" "16:9" "veo-3" 1 None
                      "image/png" (world_of (Some one_shot_client)))) = 1.
Proof.
  destruct (generate_returns_records_in_order "a cat" "16:9" "veo-3" 1 None
              "image/png" (world_of (Some one_shot_client)) one_shot_client
              eq_refl) as (_ & _ & _ & _ & _ & segs & Hlog & _ & Hiff & _).
  apply Hiff. remember (concat segs) as calls eqn:Hcalls.
  vm_compute in Hlog. rewrite <- Hlog.
  rewrite !clean_calls_cons. simpl.
  split; [|split; [reflexivity | split; [reflexivity|]]].
  - eexists. split; [reflexivity|]. intros _. by eexists _, _.
  - apply clean_calls_nil.
Defined.

(** C1, as stated, fails: one variation requested, the submission refused,
    no record returned. *)
Lemma refused_submission_returns_nothing :
  ~ returns_every_variation "a cat" "16:9" "veo-3" 1 None "image/png"
      (world_of (Some refusing_client)).
Proof. unfold returns_every_variation. vm_compute. discriminate. Qed.

(** C2, as the code has it.  When the first [k] variations have gone
    through and the submission of variation [k] raises: the job returns the
    [k] records of the earlier variations, none of which has status
    [failed]; the refused submission is the last call made to the client
    (no poll for this variation, no submission of the remaining ones); and
    the error and the hint about API access are shown. *)
Theorem submission_error_ends_batch c prompt aspect_ratio model_version n
    image_gcs_uri image_mime_type w k vs wk e :
  let req := request_kwargs prompt aspect_ratio model_version image_gcs_uri
               image_mime_type in
  let body := variation c prompt aspect_ratio model_version n image_gcs_uri
                image_mime_type in
  client w = Some c ->
  k < Z.to_nat n ->
  for_each (seq 0 k) body ([], w) = (Ok tt, (vs, wk)) ->
  generate_videos c (remote_log wk) req = Raise e ->
  let out := generate_videos_with_veo3 prompt aspect_ratio model_version n
               image_gcs_uri image_mime_type w in
  fst out = Ok vs /\
  length vs = k /\
  Forall (fun v => field "status" v <> Some (PStr "failed")) vs /\
  remote_log (snd out) = remote_log wk ++ [CallGenerateVideos req] /\
  ui (snd out) =
    ui wk ++ [StProgress (2 * k) n (TxtGenerating k n);
              StError (MsgGenerationError e); StInfo MsgCheckApiAccess].
Proof.
  intros req body Hc Hk Hfirst Hsub out.
  assert (Hloop :
    generation_loop c prompt aspect_ratio model_version n image_gcs_uri
      image_mime_type ([], w)
    = (Ok tt, (vs, show (StInfo MsgCheckApiAccess)
                     (show (StError (MsgGenerationError e))
                        (submitted req k n wk))))).
  { unfold generation_loop, try_except.
    rewrite (range_split n k Hk), for_each_app. fold body. rewrite Hfirst.
    cbn [for_each]. unfold bind at 1. unfold body at 1.
    rewrite variation_run. cbv zeta. fold req. rewrite Hsub.
    reflexivity. }
  assert (Hout : out = (Ok vs,
                        show (StInfo MsgCheckApiAccess)
                          (show (StError (MsgGenerationError e))
                             (submitted req k n wk)))).
  { unfold out, generate_videos_with_veo3. by rewrite Hc, Hloop. }
  rewrite Hout. cbn [fst snd].
  destruct (variations_outcome c prompt aspect_ratio model_version n
              image_gcs_uri image_mime_type (seq 0 k) [] w)
    as (r & new & w' & Hrun & Hids & Hlen & _).
  fold body in Hrun. rewrite Hfirst in Hrun.
  injection Hrun as <- -> <-. rewrite length_seq in Hlen.
  split; [done|]. split; [exact Hlen|]. split; [|split].
  - apply Forall_lookup. intros j v Hj.
    destruct (Hids j v Hj) as (created & [[path ->] | ->]); simpl; congruence.
  - reflexivity.
  - simpl. by rewrite <- !app_assoc.
Qed.

(** The client accepts the first submission and refuses the second: the
    record of the first variation is returned, alone. *)
Lemma submission_error_ends_batch_witness :
  exists v,
    fst (generate_videos_with_veo3 "a cat" "16:9" "veo-3" 2 None "image/png"
           (world_of (Some one_shot_client))) = Ok [v] /\
    field "status" v = Some (PStr "completed").
Proof.
  pose (s := for_each (seq 0 1)
               (variation one_shot_client "a cat" "16:9" "veo-3" 2 None
                  "image/png") ([], world_of (Some one_shot_client))).
  destruct (submission_error_ends_batch one_shot_client "a cat" "16:9"
              "veo-3" 2 None "image/png" (world_of (Some one_shot_client))
              1 (fst (snd s)) (snd (snd s)) (RemoteError 429))
    as (H & _).
  - reflexivity.
  - vm_compute. lia.
  - vm_compute. reflexivity.
  - vm_compute. reflexivity.
  - eexists. split; [exact H|]. vm_compute. reflexivity.
Defined.

(** C2, as stated, fails: of two variations whose submissions the client
    refuses, only the first is submitted. *)
Lemma refused_submissions_not_recorded :
  ~ records_failed_submissions "a cat" "16:9" "veo-3" 2 None "image/png"
      (world_of (Some refusing_client)).
Proof. intros (H & _). vm_compute in H. discriminate H. Qed.

(** * Further properties *)

(** ** Loading, in every case *)

(** What [load_sessions_from_file] does, case by case. *)
Lemma load_sessions_from_file_run w :
  load_sessions_from_file w =
    (Ok tt,
     match files w !! sessions_file with
     | Some c =>
         let w1 := after_ops w [OpStat sessions_file;
                                OpOpenRead sessions_file] in
         match c with
         | FJson doc =>
             if is_json doc then set_sessions doc w1
             else show (StWarning (MsgLoadWarning JSONDecodeError)) w1
         | _ => show (StWarning (MsgLoadWarning JSONDecodeError)) w1
         end
     | None =>
         match files w !! legacy_file with
         | None => after_ops w [OpStat sessions_file; OpStat legacy_file]
         | Some c =>
             let w1 := after_ops w [OpStat sessions_file; OpStat legacy_file;
                                    OpOpenRead legacy_file] in
             match c with
             | FJson doc =>
                 if is_json doc then
                   if bool_decide (sessions_file ∈ readonly w)
                   then show (StWarning
                                (MsgLoadWarning (PermissionError sessions_file)))
                          (set_sessions doc w1)
                   else after_ops (set_sessions doc w1)
                          [OpOpenWrite sessions_file;
                           OpWriteJson sessions_file doc]
                 else show (StWarning (MsgLoadWarning JSONDecodeError)) w1
             | _ => show (StWarning (MsgLoadWarning JSONDecodeError)) w1
             end
         end
     end).
Proof.
  destruct (files w !! sessions_file) as [c|] eqn:Hc.
  { by rewrite (load_session_file w c Hc). }
  destruct (files w !! legacy_file) as [c|] eqn:Hl.
  2:{ by rewrite (load_no_file w Hc Hl). }
  unfold load_sessions_from_file, load_body, path_exists,
    open_read, open_write, json_load, json_dump. run_world.
  repeat (first [ rewrite Hc | rewrite Hl
                | rewrite bool_decide_true by eauto
                | rewrite (bool_decide_false (is_Some None))
                    by (intros [? ?]; discriminate) ];
          run_world).
  destruct c as [| |doc|]; try reflexivity.
  destruct (is_json doc) eqn:Hj; [|reflexivity].
  run_world.
  destruct (bool_decide (sessions_file ∈ readonly w)); [reflexivity|].
  run_world. by rewrite Hj.
Qed.

Lemma ops_since_app w w' ops :
  fs_trace w' = fs_trace w ++ ops -> ops_since w w' = ops.
Proof. intros H. unfold ops_since. by rewrite H, drop_app_length. Qed.

(** X1. [load_sessions_from_file] always returns.  It leaves the
    active-session reference and every file but the session file as they
    were, and the session file too when it exists.  The mapping in memory is
    either kept or replaced as a whole by the document of the session file
    or of the legacy file: nothing is merged. *)
Theorem load_sessions_from_file_contained w :
  exists w',
    load_sessions_from_file w = (Ok tt, w') /\
    current_session_id w' = current_session_id w /\
    (forall p, p <> sessions_file -> files w' !! p = files w !! p) /\
    (is_Some (files w !! sessions_file) -> files w' = files w) /\
    (sessions w' = sessions w \/
     exists doc, sessions w' = doc /\ is_json doc = true /\
       (files w !! sessions_file = Some (FJson doc) \/
        files w !! sessions_file = None /\
        files w !! legacy_file = Some (FJson doc))).
Proof.
  rewrite load_sessions_from_file_run. eexists. split; [reflexivity|].
  destruct (files w !! sessions_file) as [c|] eqn:Hc;
    [|destruct (files w !! legacy_file) as [c|] eqn:Hl]; cbv zeta;
    try (destruct c as [| |doc|]);
    try (destruct (is_json doc) eqn:Hj);
    try (destruct (bool_decide (sessions_file ∈ readonly w)));
    (split; [reflexivity|]);
    (split; [by intros p Hp; simpl; rewrite ?lookup_insert_ne by done|]);
    (split; [first [by intros [? [=]] | by intros _]|]);
    first [ by left
          | right; exists doc; split; [reflexivity|]; split; [exact Hj|];
            first [by left | by right] ].
Qed.

(** X2. When the session file exists but holds no whole JSON document
    (it is empty, cut short, or not JSON), loading shows a warning and
    changes neither the mapping in memory nor any file; the legacy file is
    not even looked at. *)
Theorem load_undecodable_session_file w c :
  files w !! sessions_file = Some c ->
  decodable c = false ->
  exists w',
    load_sessions_from_file w = (Ok tt, w') /\
    sessions w' = sessions w /\
    files w' = files w /\
    ui w' = ui w ++ [StWarning (MsgLoadWarning JSONDecodeError)] /\
    ops_since w w' = [OpStat sessions_file; OpOpenRead sessions_file].
Proof.
  intros Hc Hd. rewrite load_sessions_from_file_run, Hc. cbv zeta.
  eexists. split; [reflexivity|].
  destruct c as [| |doc|]; try (simpl in Hd; rewrite Hd);
    (repeat split; try done);
    apply ops_since_app; simpl; by rewrite <- !app_assoc.
Qed.

Lemma load_undecodable_session_file_witness :
  exists w',
    load_sessions_from_file (after_ops stored_world
                               [OpOpenWrite sessions_file]) = (Ok tt, w') /\
    sessions w' = sessions stored_world.
Proof.
  destruct (load_undecodable_session_file
              (after_ops stored_world [OpOpenWrite sessions_file]) FEmpty)
    as (w' & H1 & H2 & _).
  - vm_compute. reflexivity.
  - reflexivity.
  - exists w'. split; [exact H1 | exact H2].
Defined.

(** X3. When only the legacy file exists and the session file cannot be
    written, loading still replaces the mapping in memory by the legacy
    document, then shows the write error; no file changes, so the session
    file is still absent and the next load migrates again. *)
Theorem load_migration_unwritable w doc :
  files w !! sessions_file = None ->
  files w !! legacy_file = Some (FJson doc) ->
  is_json doc = true ->
  sessions_file ∈ readonly w ->
  exists w',
    load_sessions_from_file w = (Ok tt, w') /\
    sessions w' = doc /\
    files w' = files w /\
    ui w' = ui w ++ [StWarning (MsgLoadWarning
                                  (PermissionError sessions_file))] /\
    exists w'',
      load_sessions_from_file w' = (Ok tt, w'') /\
      sessions w'' = doc /\ files w'' = files w /\
      ops_since w' w'' = [OpStat sessions_file; OpStat legacy_file;
                          OpOpenRead legacy_file].
Proof.
  intros Hc Hl Hj Hro.
  rewrite load_sessions_from_file_run, Hc, Hl. cbv zeta. rewrite Hj.
  rewrite bool_decide_true by exact Hro.
  eexists. split; [reflexivity|]. repeat split; try done.
  rewrite load_sessions_from_file_run. simpl files. rewrite Hc, Hl.
  cbv zeta. rewrite Hj. simpl readonly.
  rewrite bool_decide_true by exact Hro.
  eexists. split; [reflexivity|]. repeat split; try done.
  apply ops_since_app. simpl. by rewrite <- !app_assoc.
Qed.

Lemma load_migration_unwritable_witness :
  exists w',
    load_sessions_from_file protected_legacy_world = (Ok tt, w') /\
    sessions w' = sessions demo_world /\
    files w' !! sessions_file = None.
Proof.
  destruct (load_migration_unwritable protected_legacy_world
              (sessions demo_world)) as (w' & H1 & H2 & H3 & _).
  - vm_compute. reflexivity.
  - vm_compute. reflexivity.
  - vm_compute. reflexivity.
  - vm_compute. set_solver.
  - exists w'. split; [exact H1|]. split; [exact H2|]. rewrite H3.
    vm_compute. reflexivity.
Defined.

(** X4. A save whose copy holds a value JSON cannot express (an in-memory
    object in a declared field) shows the error but has by then cut the
    session file short, whatever it held before: the next load only shows a
    warning and leaves the mapping in memory as it is. *)
Theorem failed_dump_loses_session_file w copy :
  copy_sessions (sessions w) = Ok copy ->
  is_json copy = false ->
  sessions_file ∉ readonly w ->
  exists w1 w2,
    save_sessions_to_file w = (Ok tt, w1) /\
    files w1 !! sessions_file = Some FPartial /\
    ui w1 = ui w ++ [StError (MsgSaveError TypeError)] /\
    load_sessions_from_file w1 = (Ok tt, w2) /\
    sessions w2 = sessions w /\
    ui w2 = ui w1 ++ [StWarning (MsgLoadWarning JSONDecodeError)].
Proof.
  intros Hc Hj Hro.
  unfold save_sessions_to_file, try_except.
  rewrite save_body_run, Hc, Hj. rewrite bool_decide_false by exact Hro.
  eexists _, _. split; [reflexivity|].
  split; [simpl; by rewrite lookup_insert_eq|]. split; [reflexivity|].
  rewrite load_sessions_from_file_run. simpl files.
  rewrite lookup_insert_eq. cbv zeta. by repeat split.
Qed.

Lemma failed_dump_loses_session_file_witness :
  exists w1,
    save_sessions_to_file handle_world = (Ok tt, w1) /\
    files w1 !! sessions_file = Some FPartial.
Proof.
  destruct (failed_dump_loses_session_file handle_world
              (PDict [("s", PDict [("id", PStr "s"); ("created_at", PStr "t");
                                   ("name", PObj 0);
                                   ("generations", PList [])])]))
    as (w1 & w2 & H1 & H2 & _).
  - reflexivity.
  - reflexivity.
  - vm_compute. set_solver.
  - exists w1. split; [exact H1 | exact H2].
Defined.

(** ** Deleting, file by file *)

(** [delete_session] on a session that is a dict whose generations are a
    list: the loop over the generations decides. *)
Lemma delete_session_run session_id d sd gl w :
  sessions w = PDict d ->
  assoc session_id d = Some (PDict sd) ->
  default (PList []) (assoc "generations" sd) = PList gl ->
  delete_session session_id w =
    match for_each gl remove_artifacts w with
    | (Ok _, wl) =>
        (Ok tt,
         (if bool_decide (current_session_id w = Some session_id)
          then set_current_session_id None else id)
           (set_sessions (PDict (assoc_del session_id d)) wl))
    | (Raise e, wl) => (Raise e, wl)
    end.
Proof.
  intros Hs Hk Hg. unfold delete_session.
  unfold bind at 1, gets at 1. rewrite Hs.
  unfold bind at 1, lift_result at 1. simpl py_in. rewrite Hk.
  rewrite bool_decide_true by eauto.
  unfold bind at 1, lift_result at 1. simpl py_getitem. rewrite Hk.
  unfold bind at 1, lift_result at 1. simpl py_get. rewrite Hg.
  unfold bind at 1, lift_result at 1. simpl py_iter.
  pose proof (remove_artifacts_session_state) as Hb.
  assert (Hl : preserves same_session_state (for_each gl remove_artifacts))
    by (apply preserves_for_each; [apply _ | exact Hb]).
  unfold bind at 1. specialize (Hl w).
  destruct (for_each gl remove_artifacts w) as [[[]|e] wl]; [|reflexivity].
  destruct Hl as (H1 & H2 & H3). simpl in H1, H2.
  unfold bind, gets, modify, ret. rewrite H1, Hs. simpl. rewrite H2.
  by case_bool_decide.
Qed.

Lemma clears_mono P Q R op :
  (forall p, p ∈ P -> p ∈ Q) -> clears P R op -> clears Q R op.
Proof. intros H (p & Hp & Hop). exists p. split; [by apply H | exact Hop]. Qed.

(** What calls that only look and remove leave of the files. *)
Lemma run_ops_clears P R ops fl :
  Forall (clears P R) ops ->
  (forall q, q ∉ P -> run_ops fl ops !! q = fl !! q) /\
  (forall p, p ∈ R -> run_ops fl ops !! p = fl !! p) /\
  (forall p, fl !! p = None -> run_ops fl ops !! p = None).
Proof.
  intros Hall. revert fl.
  induction Hall as [|op ops (p & Hp & Hop) _ IH]; intros fl; [done|].
  destruct (IH (apply_op fl op)) as (I1 & I2 & I3).
  unfold run_ops in *. simpl.
  destruct Hop as [-> | [-> Hro]]; simpl in *.
  - repeat split; auto.
  - split; [|split].
    + intros q Hq. rewrite I1 by exact Hq. apply lookup_delete_ne.
      intros ->. contradiction.
    + intros q Hq. rewrite I2 by exact Hq. apply lookup_delete_ne.
      intros ->. contradiction.
    + intros q Hq. apply I3. destruct (decide (p = q)) as [->|Hne].
      * apply lookup_delete_eq.
      * by rewrite lookup_delete_ne.
Qed.

(** A loop whose every round only looks at and removes its own paths,
    and leaves none of them unless protected. *)
Lemma for_each_clears {A} (paths : A -> list string) (ok : A -> bool)
    (body : A -> M world unit) (xs : list A) :
  (forall x, ok x = true -> forall w, exists ops,
     body x w = (Ok tt, after_ops w ops) /\
     Forall (clears (paths x) (readonly w)) ops /\
     forall p, p ∈ paths x -> p ∉ readonly w ->
               files (after_ops w ops) !! p = None) ->
  forallb ok xs = true ->
  forall w, exists ops,
    for_each xs body w = (Ok tt, after_ops w ops) /\
    Forall (clears (flat_map paths xs) (readonly w)) ops /\
    forall p, p ∈ flat_map paths xs -> p ∉ readonly w ->
              files (after_ops w ops) !! p = None.
Proof.
  intros Hb. induction xs as [|x xs IH]; intros Hok w.
  - exists []. split; [done|]. split; [constructor|].
    intros p Hp. by apply elem_of_nil in Hp.
  - simpl in Hok. apply andb_prop in Hok as [Hx Hxs].
    destruct (Hb x Hx w) as (o1 & H1 & A1 & C1).
    destruct (after_ops_fields w o1) as (_ & _ & _ & _ & _ & Hro & _ & Hf1).
    destruct (IH Hxs (after_ops w o1)) as (o2 & H2 & A2 & C2).
    rewrite Hro in A2, C2.
    exists (o1 ++ o2). simpl. unfold bind. rewrite H1, H2.
    assert (Hcomp : after_ops (after_ops w o1) o2 = after_ops w (o1 ++ o2))
      by (unfold after_ops; by rewrite foldl_app).
    rewrite Hcomp in *.
    split; [done|]. split.
    + apply Forall_app. split.
      * eapply Forall_impl; [exact A1|]. intros op. apply clears_mono.
        intros p Hp. apply elem_of_app. by left.
      * eapply Forall_impl; [exact A2|]. intros op. apply clears_mono.
        intros p Hp. apply elem_of_app. by right.
    + intros p Hp Hnro. apply elem_of_app in Hp as [Hp|Hp].
      * rewrite <- Hcomp.
        destruct (after_ops_fields (after_ops w o1) o2)
          as (_ & _ & _ & _ & _ & _ & _ & ->).
        eapply (run_ops_clears _ _ _ _ A2). by apply C1.
      * by apply C2.
Qed.

Lemma remove_artifact_clears video :
  path_is_string video = true ->
  forall w, exists ops,
    remove_artifact video w = (Ok tt, after_ops w ops) /\
    Forall (clears (video_paths video) (readonly w)) ops /\
    forall p, p ∈ video_paths video -> p ∉ readonly w ->
              files (after_ops w ops) !! p = None.
Proof.
  destruct video as [| | | | |d|]; try discriminate.
  unfold path_is_string, video_paths. simpl.
  intros Hp w. unfold remove_artifact, bind, lift_result. simpl.
  destruct (assoc "local_path" d) as [[| | |p| | |]|]; try discriminate.
  - rewrite bool_decide_true by eauto.
    unfold os_path_exists, bind, modify, gets. cbn [fst snd].
    change (files (do_fs (OpStat p) w)) with (files w).
    assert (Hstat : clears [p] (readonly w) (OpStat p)).
    { exists p. split; [by left | by left]. }
    destruct (files w !! p) as [c|] eqn:Hf.
    + rewrite bool_decide_true by eauto.
      unfold try_except, bind, lift_result, os_remove, bind, gets. simpl.
      rewrite Hf. rewrite bool_decide_true by eauto. simpl.
      destruct (bool_decide (p ∈ readonly w)) eqn:Hro.
      * exists [OpStat p]. split; [done|]. split; [by constructor|].
        intros q Hq Hnro. apply list_elem_of_singleton in Hq as ->.
        apply bool_decide_eq_true in Hro. contradiction.
      * exists [OpStat p; OpRemove p]. split; [done|]. split.
        -- constructor; [exact Hstat|]. constructor; [|constructor].
           exists p. split; [by left|]. right. split; [done|].
           by apply bool_decide_eq_false in Hro.
        -- intros q Hq _. apply list_elem_of_singleton in Hq as ->.
           simpl. apply lookup_delete_eq.
    + rewrite bool_decide_false by (intros [? ?]; discriminate).
      exists [OpStat p]. split; [done|]. split; [by constructor|].
      intros q Hq _. apply list_elem_of_singleton in Hq as ->. exact Hf.
  - rewrite bool_decide_false by (intros [? ?]; discriminate).
    exists []. split; [done|]. split; [constructor|].
    intros p Hq. by apply elem_of_nil in Hq.
Qed.

Lemma remove_artifacts_clears generation :
  videos_have_string_paths generation = true ->
  forall w, exists ops,
    remove_artifacts generation w = (Ok tt, after_ops w ops) /\
    Forall (clears (generation_paths generation) (readonly w)) ops /\
    forall p, p ∈ generation_paths generation -> p ∉ readonly w ->
              files (after_ops w ops) !! p = None.
Proof.
  destruct generation as [| | | | |d|]; try discriminate.
  unfold videos_have_string_paths, generation_paths.
  intros Hp w. unfold remove_artifacts, bind, lift_result. simpl.
  destruct (default (PList []) (assoc "videos" d)) as [| | | |vs| |];
    try discriminate.
  simpl. by apply (for_each_clears video_paths path_is_string
                      remove_artifact vs remove_artifact_clears).
Qed.

(** X5. Deleting a known session whose videos all have a string for a
    path, or none: the call returns; the only file-system calls it makes
    look at, or remove, paths of that session's videos; every such path
    that is not protected names no file afterwards; every other file, and
    every protected one, is as it was. *)
Theorem delete_session_removes_artifacts session_id d s w :
  sessions w = PDict d ->
  assoc session_id d = Some s ->
  paths_are_strings s = true ->
  exists w',
    delete_session session_id w = (Ok tt, w') /\
    Forall (clears (session_paths s) (readonly w)) (ops_since w w') /\
    (forall p, p ∈ session_paths s -> p ∉ readonly w ->
               files w' !! p = None) /\
    (forall q, q ∉ session_paths s -> files w' !! q = files w !! q) /\
    (forall q, q ∈ readonly w -> files w' !! q = files w !! q).
Proof.
  intros Hs Hk Hp.
  destruct s as [| | | | |sd|]; try discriminate.
  unfold paths_are_strings in Hp. unfold session_paths.
  destruct (default (PList []) (assoc "generations" sd))
    as [| | | |gl| |] eqn:Hg; try discriminate.
  rewrite (delete_session_run session_id d sd gl w Hs Hk Hg).
  destruct (for_each_clears generation_paths videos_have_string_paths
              remove_artifacts gl remove_artifacts_clears Hp w)
    as (ops & Hrun & Hall & Hclear).
  rewrite Hrun.
  destruct (after_ops_fields w ops) as (_ & _ & _ & _ & _ & _ & Ht & Hf).
  destruct (run_ops_clears _ _ ops (files w) Hall) as (R1 & R2 & _).
  eexists. split; [reflexivity|].
  assert (Hfiles : forall w0, files ((if bool_decide
                      (current_session_id w = Some session_id)
                    then set_current_session_id None else id)
                   (set_sessions (PDict (assoc_del session_id d)) w0))
                   = files w0) by (intros w0; by case_bool_decide).
  assert (Htrace : forall w0, fs_trace ((if bool_decide
                      (current_session_id w = Some session_id)
                    then set_current_session_id None else id)
                   (set_sessions (PDict (assoc_del session_id d)) w0))
                   = fs_trace w0) by (intros w0; by case_bool_decide).
  split; [|split; [|split]].
  - rewrite (ops_since_app w _ ops); [exact Hall|]. by rewrite Htrace.
  - intros p Hin Hro. rewrite Hfiles. by apply Hclear.
  - intros q Hq. rewrite Hfiles, Hf. by apply R1.
  - intros q Hq. rewrite Hfiles, Hf. by apply R2.
Qed.

Lemma delete_session_removes_artifacts_witness :
  exists w',
    delete_session "demo" (demo_world_with (PStr "gone.mp4")) = (Ok tt, w') /\
    files w' !! demo_artifact = None.
Proof.
  destruct (delete_session_removes_artifacts "demo" _
              (demo_session (PStr "gone.mp4"))
              (demo_world_with (PStr "gone.mp4")) eq_refl eq_refl eq_refl)
    as (w' & H1 & _ & H2 & _).
  exists w'. split; [exact H1|]. apply H2.
  - vm_compute. set_solver.
  - vm_compute. set_solver.
Defined.

(** A loop that comes to a round that raises, the rounds before it
    returning. *)
Lemma for_each_raises {S A} (ok bad : A -> bool) (body : A -> M S unit)
    (e : exn) (xs : list A) :
  (forall x, ok x = true -> forall s, exists s', body x s = (Ok tt, s')) ->
  (forall x, bad x = true -> forall s, exists s', body x s = (Raise e, s')) ->
  forallb (fun x => ok x || bad x) xs = true ->
  existsb bad xs = true ->
  forall s, exists s', for_each xs body s = (Raise e, s').
Proof.
  intros Hok Hbad. induction xs as [|x xs IH]; simpl; [discriminate|].
  intros Hall Hex s. apply andb_prop in Hall as [Hx Hxs].
  unfold bind. destruct (bad x) eqn:Hb.
  - destruct (Hbad x Hb s) as (s' & ->). by exists s'.
  - rewrite orb_false_r in Hx. simpl in Hex.
    destruct (Hok x Hx s) as (s' & ->). by apply IH.
Qed.

Lemma remove_artifact_none video :
  path_is_none video = true ->
  forall w, exists w', remove_artifact video w = (Raise TypeError, w').
Proof.
  destruct video as [| | | | |d|]; try discriminate. simpl.
  intros Hp w. unfold remove_artifact, bind, lift_result. simpl.
  destruct (assoc "local_path" d) as [[| | | | | |]|]; try discriminate.
  rewrite bool_decide_true by eauto. by eexists.
Qed.

Lemma remove_artifacts_none generation :
  reaches_none_video generation = true ->
  forall w, exists w', remove_artifacts generation w = (Raise TypeError, w').
Proof.
  destruct generation as [| | | | |d|]; try discriminate. simpl.
  intros Hp w. unfold remove_artifacts, bind, lift_result. simpl.
  destruct (default (PList []) (assoc "videos" d)) as [| | | |vs| |];
    try discriminate.
  apply andb_prop in Hp as [Hall Hex]. simpl.
  by apply (for_each_raises path_is_string path_is_none remove_artifact
              TypeError vs remove_artifact_returns remove_artifact_none).
Qed.

(** X6. Deleting a known session in which the loops come to a video whose
    [local_path] is [None] (all videos before it having a string for a
    path, or none) raises [TypeError]: the session stays in the mapping
    and the active-session reference is not cleared.  The record the
    generation job makes for a timed-out variation is such a video. *)
Theorem delete_session_none_path_raises session_id d s w :
  sessions w = PDict d ->
  assoc session_id d = Some s ->
  reaches_none_path s = true ->
  (exists w',
     delete_session session_id w = (Raise TypeError, w') /\
     sessions w' = sessions w /\
     current_session_id w' = current_session_id w) /\
  forall id prompt aspect_ratio model_version created_at,
    path_is_none (video_data id prompt aspect_ratio model_version created_at
                    PNone "timeout") = true.
Proof.
  intros Hs Hk Hp. split; [|reflexivity].
  destruct s as [| | | | |sd|]; try discriminate.
  unfold reaches_none_path in Hp.
  destruct (default (PList []) (assoc "generations" sd))
    as [| | | |gl| |] eqn:Hg; try discriminate.
  apply andb_prop in Hp as [Hall Hex].
  rewrite (delete_session_run session_id d sd gl w Hs Hk Hg).
  destruct (for_each_raises videos_have_string_paths reaches_none_video
              remove_artifacts TypeError gl remove_artifacts_returns
              remove_artifacts_none Hall Hex w) as (w' & Hrun).
  assert (Hl : preserves same_session_state (for_each gl remove_artifacts))
    by (apply preserves_for_each;
        [apply _ | apply remove_artifacts_session_state]).
  specialize (Hl w). rewrite Hrun in *. destruct Hl as (H1 & H2 & _).
  exists w'. by repeat split.
Qed.

Lemma delete_session_none_path_raises_witness :
  exists w', delete_session "demo" demo_world = (Raise TypeError, w').
Proof.
  destruct (delete_session_none_path_raises "demo" _ (demo_session PNone)
              demo_world eq_refl eq_refl eq_refl) as [(w' & H & _) _].
  by exists w'.
Defined.

(** ** The generation job, call by call *)

(** The polls of one variation: at most what is left of the budget, ten
    seconds slept before each, none if the operation is done already. *)
Lemma poll_loop_effect fuel c i n o pc w :
  exists calls,
    remote_log (snd (poll_loop fuel c i n o pc w)) = remote_log w ++ calls /\
    forallb is_poll calls = true /\
    length calls <= max_polls - pc /\
    clock (snd (poll_loop fuel c i n o pc w)) = clock w + 10 * length calls /\
    (op_done o = true -> calls = []).
Proof.
  revert o pc w. induction fuel as [|fuel IH]; intros o pc w; simpl.
  - exists []. rewrite app_nil_r.
    destruct (negb (op_done o) && (pc <? max_polls)%nat); simpl;
      repeat split; try done; lia.
  - destruct (op_done o) eqn:Hd; simpl.
    { exists []. rewrite app_nil_r. simpl. repeat split; try done; lia. }
    destruct (pc <? max_polls)%nat eqn:Hlt; simpl.
    2:{ exists []. rewrite app_nil_r. simpl. repeat split; try done; lia. }
    apply Nat.ltb_lt in Hlt.
    unfold time_sleep, client_operations_get, st_progress, bind, gets, modify.
    rewrite remote_run. cbn [fst snd].
    destruct (operations_get c _ o) as [o1|e].
    + match goal with
      | |- context [poll_loop fuel c i n o1 ?pc1 ?w1] =>
          destruct (IH o1 pc1 w1) as (calls & Hlog & Hall & Hlen & Hclk & _)
      end.
      exists (CallOperationsGet o :: calls).
      rewrite Hlog, Hclk. simpl. rewrite <- app_assoc.
      repeat split; try done; try lia.
    + exists [CallOperationsGet o]. simpl. repeat split; try done; lia.
Qed.

Lemma files_kept_refl w : files_kept w w.
Proof. by intros p Hp. Qed.

Lemma job_start req w : job req 0 w w.
Proof.
  do 3 (split; [done|]). split; [apply files_kept_refl|].
  exists []. rewrite app_nil_r. simpl. repeat split; try done; lia.
Qed.

Lemma job_then req k1 k2 a b c :
  job req k1 a b -> job req k2 b c -> job req (k1 + k2) a c.
Proof.
  intros (A1 & A2 & A3 & A4 & l1 & A5 & A6 & A7 & A8 & A9)
         (B1 & B2 & B3 & B4 & l2 & B5 & B6 & B7 & B8 & B9).
  do 3 (split; [congruence|]). split.
  - intros p Hp. by apply B4, A4.
  - exists (l1 ++ l2). rewrite B5, A5, app_assoc.
    rewrite !List.filter_app, !length_app. repeat split.
    + apply Forall_app. by split.
    + lia.
    + lia.
    + lia.
Qed.

Lemma job_show req k ev w w' : job req k w w' -> job req k w (show ev w').
Proof. intros H. exact H. Qed.

Lemma job_mono req k k' w w' : k <= k' -> job req k w w' -> job req k' w w'.
Proof.
  intros Hk (A1 & A2 & A3 & A4 & l & A5 & A6 & A7 & A8 & A9).
  do 4 (split; [done|]). exists l. repeat split; try done; try lia.
  unfold max_polls in *. nia.
Qed.

Lemma filter_polls calls :
  forallb is_poll calls = true ->
  List.filter is_poll calls = calls /\ List.filter is_submit calls = [].
Proof.
  induction calls as [|c calls IH]; simpl; [done|].
  intros H. apply andb_prop in H as [Hc Hcs]. destruct (IH Hcs) as [-> ->].
  by destruct c.
Qed.

Lemma stored_kept w w' vs :
  files_kept w w' -> Forall (stored w) vs -> Forall (stored w') vs.
Proof.
  intros Hk Hall. eapply Forall_impl; [exact Hall|]. intros v Hv Hs.
  destruct (Hv Hs) as (p & H1 & H2 & H3). exists p. auto.
Qed.

Lemma job_submitted req i n w : job req 1 w (submitted req i n w).
Proof.
  do 3 (split; [done|]). split; [by intros p Hp|].
  exists [CallGenerateVideos req]. simpl. repeat split; try done; try lia.
  by repeat constructor.
Qed.

(** From the submission to the end of a variation: the polls, then calls
    that are neither submissions nor polls. *)
Lemma job_variation req i n w w2 w' calls rest :
  polling (submitted req i n w) w2 ->
  remote_log w2 = remote_log (submitted req i n w) ++ calls ->
  forallb is_poll calls = true ->
  length calls <= max_polls ->
  clock w2 = clock (submitted req i n w) + 10 * length calls ->
  sessions w' = sessions w2 ->
  current_session_id w' = current_session_id w2 ->
  client w' = client w2 ->
  files_kept w2 w' ->
  remote_log w' = remote_log w2 ++ rest ->
  forallb (fun c => negb (is_submit c) && negb (is_poll c)) rest = true ->
  clock w' = clock w2 ->
  job req 1 w w'.
Proof.
  intros (P1 & P2 & P3 & P4 & _) Hlog Hall Hlen Hclk S1 S2 S3 Hk Hlog' Hrest
    Hclk'.
  simpl in P1, P2, P3, P4, Hlog, Hclk.
  do 3 (split; [congruence|]). split.
  { intros p Hp. apply Hk. by rewrite P4. }
  exists (CallGenerateVideos req :: calls ++ rest).
  destruct (filter_polls calls Hall) as [Fp Fs].
  assert (Hr : List.filter is_poll rest = [] /\
               List.filter is_submit rest = [] /\
               Forall (fun c => is_submit c = true ->
                                c = CallGenerateVideos req) rest).
  { clear -Hrest. induction rest as [|c rest IH]; simpl in *.
    - by repeat split.
    - apply andb_prop in Hrest as [Hc Hr]. destruct (IH Hr) as (-> & -> & IHf).
      destruct c; try discriminate; simpl; repeat split; try done;
        constructor; try done; discriminate. }
  destruct Hr as (Rp & Rs & Rf).
  split; [rewrite Hlog', Hlog; by rewrite <- !app_assoc|].
  simpl. rewrite !List.filter_app, Fp, Fs, Rp, Rs, !app_nil_r. simpl.
  unfold max_polls in *. repeat split; try lia.
  constructor; [done|]. apply Forall_app. split; [|exact Rf].
  clear -Hall. induction calls as [|c calls IH]; simpl in *; [constructor|].
  apply andb_prop in Hall as [Hc Hcs]. constructor; [|by apply IH].
  by destruct c.
Qed.

Lemma last_step_fields i n w :
  sessions (last_step i n w) = sessions w /\
  current_session_id (last_step i n w) = current_session_id w /\
  client (last_step i n w) = client w /\
  files (last_step i n w) = files w /\
  remote_log (last_step i n w) = remote_log w /\
  clock (last_step i n w) = clock w.
Proof. unfold last_step. by destruct (Z.of_nat i =? n - 1)%Z. Qed.

(** One variation, as a step of the job; the records it is given and the
    one it appends. *)
Lemma variation_job c prompt aspect_ratio model_version n image_gcs_uri
    image_mime_type i vs w :
  let req := request_kwargs prompt aspect_ratio model_version image_gcs_uri
               image_mime_type in
  let out := variation c prompt aspect_ratio model_version n image_gcs_uri
               image_mime_type i (vs, w) in
  job req 1 w (snd (snd out)) /\
  (Forall (stored w) vs -> Forall (stored (snd (snd out))) (fst (snd out))) /\
  (Forall (fun v => is_video v = true) vs ->
   Forall (fun v => is_video v = true) (fst (snd out))).
Proof.
  intros req out. unfold out. rewrite variation_run. cbv zeta. fold req.
  set (w1 := submitted req i n w).
  destruct (generate_videos c (remote_log w) req) as [o|e].
  2:{ cbn [fst snd]. split; [apply job_submitted|]. split; [|done].
      apply stored_kept. by intros p Hp. }
  pose proof (poll_loop_polling max_polls c i n o 0 w1) as Hpol.
  destruct (poll_loop_effect max_polls c i n o 0 w1)
    as (calls & Hlog & Hall & Hlen & Hclk & _).
  rewrite Nat.sub_0_r in Hlen.
  destruct (poll_loop max_polls c i n o 0 w1) as [[[o' pc']|e] w2];
    cbn [fst snd] in *.
  2:{ split; [|split; [|done]].
      - apply (job_variation req i n w w2 w2 calls []); try done.
        + apply files_kept_refl.
        + by rewrite app_nil_r.
      - apply stored_kept. destruct Hpol as (_ & _ & _ & Hf & _).
        intros p. simpl in Hf. by rewrite Hf. }
  assert (Hkept : files_kept w w2).
  { destruct Hpol as (_ & _ & _ & Hf & _). intros p. simpl in Hf.
    by rewrite Hf. }
  assert (Hsame : forall vs', vs' = vs ->
            job req 1 w w2 /\
            (Forall (stored w) vs -> Forall (stored w2) vs') /\
            (Forall (fun v => is_video v = true) vs ->
             Forall (fun v => is_video v = true) vs')).
  { intros vs' ->. split; [|split; [by apply stored_kept | done]].
    apply (job_variation req i n w w2 w2 calls []); try done.
    - apply files_kept_refl.
    - by rewrite app_nil_r. }
  destruct (op_done o').
  - destruct (first_generated_video o') as [gv|e]; [|by apply Hsame].
    destruct (files_download c (remote_log w2) gv) as [[]|e]; cbn [fst snd].
    2:{ split; [|split; [by apply stored_kept | done]].
        apply (job_variation req i n w w2 _ calls [CallFilesDownload gv]);
          try done. by intros p Hp. }
    destruct (video_save c _ gv _) as [[]|e]; cbn [fst snd].
    2:{ split; [|split; [by apply stored_kept | done]].
        eapply (job_variation req i n w w2 _ calls
                  [CallFilesDownload gv; CallVideoSave gv _]); try done.
        - by intros p Hp.
        - simpl. by rewrite <- app_assoc. }
    set (path := path_join generated_videos_dir _).
    match goal with
    | |- context [last_step i n ?x] =>
        set (w5 := x);
        destruct (last_step_fields i n w5) as (L1 & L2 & L3 & L4 & L5 & L6)
    end.
    assert (Hf5 : files (last_step i n w5) = <[path := FMedia gv]> (files w2))
      by (by rewrite L4).
    assert (Hk2 : files_kept w2 (last_step i n w5)).
    { intros p Hp. rewrite Hf5.
      destruct (decide (path = p)) as [->|Hne].
      - rewrite lookup_insert_eq. eauto.
      - by rewrite lookup_insert_ne. }
    split; [|split].
    + apply (job_variation req i n w w2 _ calls
               [CallFilesDownload gv; CallVideoSave gv path]); try done.
      all: rewrite ?L1, ?L2, ?L3, ?L5, ?L6; try done.
      all: simpl; by rewrite <- app_assoc.
    + intros Hvs. apply Forall_app. split.
      * eapply stored_kept; [|exact Hvs]. intros p Hp.
        by apply Hk2, Hkept.
      * apply Forall_cons_2; [|apply Forall_nil_2]. intros _. exists path.
        split; [reflexivity|]. split.
        { unfold path, path_join, generated_videos_dir. simpl.
          match goal with
          | |- String.prefix "" ?s = true => by destruct s
          end. }
        rewrite Hf5, lookup_insert_eq. eauto.
    + intros Hvs. apply Forall_app. split; [exact Hvs|].
      apply Forall_cons_2; [reflexivity | apply Forall_nil_2].
  - cbn [fst snd].
    match goal with
    | |- context [last_step i n ?x] =>
        set (w5 := x);
        destruct (last_step_fields i n w5) as (L1 & L2 & L3 & L4 & L5 & L6)
    end.
    split; [|split].
    + apply (job_variation req i n w w2 _ calls []); try done.
      all: try (intros p Hp; by rewrite L4).
      all: rewrite ?L1, ?L2, ?L3, ?L5, ?L6; try done.
      all: simpl; by rewrite app_nil_r.
    + intros Hvs. apply Forall_app. split.
      * eapply stored_kept; [|exact Hvs]. intros p Hp. rewrite L4.
        by apply Hkept.
      * apply Forall_cons_2; [|apply Forall_nil_2]. intros Hst.
        discriminate Hst.
    + intros Hvs. apply Forall_app. split; [exact Hvs|].
      apply Forall_cons_2; [reflexivity | apply Forall_nil_2].
Qed.

Lemma variations_job c prompt aspect_ratio model_version n image_gcs_uri
    image_mime_type (idx : list nat) vs w :
  let req := request_kwargs prompt aspect_ratio model_version image_gcs_uri
               image_mime_type in
  let out := for_each idx
               (variation c prompt aspect_ratio model_version n image_gcs_uri
                  image_mime_type) (vs, w) in
  job req (length idx) w (snd (snd out)) /\
  (Forall (stored w) vs -> Forall (stored (snd (snd out))) (fst (snd out))) /\
  (Forall (fun v => is_video v = true) vs ->
   Forall (fun v => is_video v = true) (fst (snd out))).
Proof.
  intros req. revert vs w. induction idx as [|i idx IH]; intros vs w.
  - cbv zeta. simpl. split; [apply job_start|]. by split.
  - cbv zeta. cbn [for_each length]. unfold bind.
    pose proof (variation_job c prompt aspect_ratio model_version n
                  image_gcs_uri image_mime_type i vs w) as Hv.
    cbv zeta in Hv. fold req in Hv.
    destruct (variation c prompt aspect_ratio model_version n image_gcs_uri
                image_mime_type i (vs, w)) as [[[]|e] [vs1 w1]];
      cbn [fst snd] in *; destruct Hv as (J1 & S1 & V1).
    + specialize (IH vs1 w1). cbv zeta in IH.
      destruct IH as (J2 & S2 & V2).
      split; [exact (job_then req 1 (length idx) w w1 _ J1 J2)|].
      split; auto.
    + split; [|by split]. apply (job_mono req 1); [lia | exact J1].
Qed.

(** X7. Whatever the client does, the calls of a job of [n] variations
    fall into at most [n] runs, one per variation gone into: a submission
    of the same request for one video, then at most 60 polls, then the
    download and the save if any.  So the job submits at most [n] times
    and polls at most 60 times per variation; it sleeps ten seconds per
    poll: at most 600 seconds per variation requested. *)
Theorem generate_calls_bounded prompt aspect_ratio model_version n
    image_gcs_uri image_mime_type w :
  let req := request_kwargs prompt aspect_ratio model_version image_gcs_uri
               image_mime_type in
  let out := generate_videos_with_veo3 prompt aspect_ratio model_version n
               image_gcs_uri image_mime_type w in
  rq_number_of_videos req = 1%Z /\
  exists segs,
    remote_log (snd out) = remote_log w ++ concat segs /\
    length segs <= Z.to_nat n /\
    Forall (variation_calls req) segs /\
    Forall (fun c => is_submit c = true -> c = CallGenerateVideos req)
      (concat segs) /\
    length (List.filter is_submit (concat segs)) <= Z.to_nat n /\
    length (List.filter is_poll (concat segs)) <= 60 * Z.to_nat n /\
    clock (snd out) =
      clock w + 10 * length (List.filter is_poll (concat segs)) /\
    clock (snd out) <= clock w + 600 * Z.to_nat n.
Proof.
  intros req out. split; [reflexivity|].
  assert (Hjob : job req (Z.to_nat n) w (snd out) /\
                 exists segs,
                   remote_log (snd out) = remote_log w ++ concat segs /\
                   length segs <= Z.to_nat n /\
                   Forall (variation_calls req) segs).
  { unfold out, generate_videos_with_veo3.
    destruct (client w) as [c|]; cbn [snd].
    2:{ split; [apply (job_mono req 0); [lia | apply job_show, job_start]|].
        exists []. simpl. rewrite app_nil_r. split; [done|].
        split; [lia | done]. }
    unfold generation_loop, try_except.
    pose proof (variations_job c prompt aspect_ratio model_version n
                  image_gcs_uri image_mime_type (range n) [] w) as Hl.
    pose proof (variations_trace c prompt aspect_ratio model_version n
                  image_gcs_uri image_mime_type (range n) [] w) as Ht.
    cbv zeta in Hl, Ht. fold req in Hl, Ht. rewrite range_length in Hl, Ht.
    match type of Hl with
    | context [for_each ?a ?b ?s] =>
        destruct (for_each a b s) as [[[]|e] [vs1 w1]]
    end; cbn [fst snd] in *; destruct Hl as (J & _);
      destruct Ht as (segs & Hlog & Hsegs & Hres).
    - split; [exact J|]. exists segs. split; [exact Hlog|].
      split; [lia | exact Hsegs].
    - unfold bind, in_world, st_error, st_info, modify. cbn [fst snd].
      split; [by do 2 apply job_show|]. exists segs. split; [exact Hlog|].
      split; [lia | exact Hsegs]. }
  destruct Hjob as ((_ & _ & _ & _ & calls & H1 & H2 & H3 & H4 & H5) &
                    segs & Hlog & Hlen & Hsegs).
  assert (calls = concat segs) as ->.
  { rewrite H1 in Hlog. by apply app_inv_head in Hlog. }
  exists segs. unfold max_polls in H4.
  split; [exact Hlog|]. split; [exact Hlen|]. split; [exact Hsegs|].
  repeat split; try done; lia.
Qed.

(** X8. Whatever the client does, the job leaves the session mapping and
    the active-session reference as they were and removes no file; every
    record it returns has all the fields that are saved, with values JSON
    can express; and every completed record it returns names a file that
    exists when it returns, under [generated_videos/]. *)
Theorem generate_records_are_stored prompt aspect_ratio model_version n
    image_gcs_uri image_mime_type w :
  let out := generate_videos_with_veo3 prompt aspect_ratio model_version n
               image_gcs_uri image_mime_type w in
  sessions (snd out) = sessions w /\
  current_session_id (snd out) = current_session_id w /\
  files_kept w (snd out) /\
  Forall (fun v => is_video v = true) (returned out) /\
  Forall (stored (snd out)) (returned out).
Proof.
  intros out. unfold out, generate_videos_with_veo3, returned.
  destruct (client w) as [c|]; cbn [fst snd].
  2:{ repeat split; try done. by intros p Hp. }
  unfold generation_loop, try_except.
  pose proof (variations_job c prompt aspect_ratio model_version n
                image_gcs_uri image_mime_type (range n) [] w) as Hl.
  cbv zeta in Hl.
  match type of Hl with
  | context [for_each ?a ?b ?s] =>
      destruct (for_each a b s) as [[[]|e] [vs1 w1]]
  end; cbn [fst snd] in *;
    destruct Hl as ((J1 & J2 & _ & J4 & _) & S1 & V1);
    (split; [exact J1|]); (split; [exact J2|]); (split; [exact J4|]);
    (split; [by apply V1 | by apply S1]).
Qed.

Lemma poll_loop_done fuel c i n o pc w :
  op_done o = true -> poll_loop fuel c i n o pc w = (Ok (o, pc), w).
Proof. intros Hd. destruct fuel; simpl; by rewrite Hd. Qed.

(** X9. When the first [k] variations have gone through and the
    submission of variation [k] returns an operation that is done but
    carries no video (no response, or an empty list of generated videos):
    no poll, download or save follows; no record is appended for the
    variation; the batch ends there with the records of the earlier
    variations, the error being shown. *)
Theorem done_without_video_ends_batch c prompt aspect_ratio model_version n
    image_gcs_uri image_mime_type w k vs wk o :
  let req := request_kwargs prompt aspect_ratio model_version image_gcs_uri
               image_mime_type in
  let body := variation c prompt aspect_ratio model_version n image_gcs_uri
                image_mime_type in
  client w = Some c ->
  k < Z.to_nat n ->
  for_each (seq 0 k) body ([], w) = (Ok tt, (vs, wk)) ->
  generate_videos c (remote_log wk) req = Ok o ->
  op_done o = true ->
  op_response o = None \/ op_response o = Some [] ->
  let out := generate_videos_with_veo3 prompt aspect_ratio model_version n
               image_gcs_uri image_mime_type w in
  let e := match op_response o with
           | None => AttributeError
           | Some _ => IndexError
           end in
  fst out = Ok vs /\
  remote_log (snd out) = remote_log wk ++ [CallGenerateVideos req] /\
  files (snd out) = files wk /\
  clock (snd out) = clock wk /\
  ui (snd out) =
    ui wk ++ [StProgress (2 * k) n (TxtGenerating k n);
              StError (MsgGenerationError e); StInfo MsgCheckApiAccess].
Proof.
  intros req body Hc Hk Hfirst Hsub Hd Hresp out e.
  assert (Hloop :
    generation_loop c prompt aspect_ratio model_version n image_gcs_uri
      image_mime_type ([], w)
    = (Ok tt, (vs, show (StInfo MsgCheckApiAccess)
                     (show (StError (MsgGenerationError e))
                        (submitted req k n wk))))).
  { unfold generation_loop, try_except.
    rewrite (range_split n k Hk), for_each_app. fold body. rewrite Hfirst.
    cbn [for_each]. unfold bind at 1. unfold body at 1.
    rewrite variation_run. cbv zeta. fold req. rewrite Hsub.
    rewrite (poll_loop_done _ _ _ _ _ _ _ Hd), Hd.
    unfold first_generated_video, e.
    by destruct Hresp as [-> | ->]. }
  unfold out, generate_videos_with_veo3. rewrite Hc, Hloop. cbn [fst snd].
  repeat split; try done. simpl. by rewrite <- !app_assoc.
Qed.

Lemma done_without_video_ends_batch_witness :
  fst (generate_videos_with_veo3 "a cat" "16:9" "veo-3" 2 None "image/png"
         (world_of (Some filtered_client))) = Ok [].
Proof.
  destruct (done_without_video_ends_batch filtered_client "a cat" "16:9"
              "veo-3" 2 None "image/png" (world_of (Some filtered_client))
              0 [] (world_of (Some filtered_client))
              (RemoteOperation true (Some []))) as (H & _).
  - reflexivity.
  - vm_compute. lia.
  - reflexivity.
  - reflexivity.
  - reflexivity.
  - by right.
  - exact H.
Defined.

(** X10. A variation whose submission returns an operation that is
    already done: no poll is made and nothing is slept; only the first
    of the generated videos is downloaded and saved, under
    [generated_videos/veo3_<id>_<time>.mp4]; if both calls return, the
    record is completed with that path, the file is there, and the loop
    goes on. *)
Theorem done_at_submission_completes c prompt aspect_ratio model_version n
    image_gcs_uri image_mime_type i vs w o gv others :
  let req := request_kwargs prompt aspect_ratio model_version image_gcs_uri
               image_mime_type in
  let body := variation c prompt aspect_ratio model_version n image_gcs_uri
                image_mime_type in
  let id := uuid4 (rand w) (uuid_next w) in
  let path := "generated_videos/veo3_" +:+ id +:+ "_" +:+
              strftime (rand w) (clock w) +:+ ".mp4" in
  generate_videos c (remote_log w) req = Ok o ->
  op_done o = true ->
  op_response o = Some (gv :: others) ->
  files_download c (remote_log w ++ [CallGenerateVideos req]) gv = Ok tt ->
  video_save c (remote_log w ++ [CallGenerateVideos req;
                                 CallFilesDownload gv]) gv path = Ok tt ->
  exists w',
    let record := video_data id prompt aspect_ratio model_version
                    (isoformat (rand w) (clock w)) (PStr path) "completed" in
    body i (vs, w) = (Ok tt, (vs ++ [record], w')) /\
    remote_log w' = remote_log w ++ [CallGenerateVideos req;
                                     CallFilesDownload gv;
                                     CallVideoSave gv path] /\
    clock w' = clock w /\
    files w' = <[path := FMedia gv]> (files w) /\
    forall rest,
      for_each (i :: rest) body (vs, w) = for_each rest body (vs ++ [record], w').
Proof.
  intros req body id path Hsub Hd Hresp Hdl Hsv.
  pose proof (variation_run c prompt aspect_ratio model_version n
                image_gcs_uri image_mime_type i vs w) as Hrun.
  cbv zeta in Hrun. fold req in Hrun. rewrite Hsub in Hrun.
  rewrite (poll_loop_done _ _ _ _ _ _ _ Hd), Hd in Hrun.
  unfold first_generated_video in Hrun. rewrite Hresp in Hrun.
  cbn [remote_log submitted log_call show set_uuid_next rand clock] in Hrun.
  rewrite <- app_assoc in Hrun. simpl app in Hrun.
  rewrite Hdl in Hrun.
  change (path_join generated_videos_dir
            ("veo3_" +:+ uuid4 (rand w) (uuid_next w) +:+ "_" +:+
             strftime (rand w) (clock w) +:+ ".mp4")) with path in Hrun.
  rewrite Hsv in Hrun.
  eexists. cbv zeta. split; [exact Hrun|].
  destruct (last_step_fields i n
              (show (StProgress (2 * i + 2) n (TxtCompleted i n))
                 (do_fs (OpWriteMedia path gv)
                    (log_call (CallVideoSave gv path)
                       (log_call (CallFilesDownload gv)
                          (submitted req i n w))))))
    as (_ & _ & _ & L4 & L5 & L6).
  split; [|split; [|split]].
  - rewrite L5. simpl. by rewrite <- !app_assoc.
  - by rewrite L6.
  - by rewrite L4.
  - intros rest. unfold body. simpl. unfold bind at 1. by rewrite Hrun.
Qed.

Lemma done_at_submission_completes_witness :
  exists w',
    variation one_shot_client "a cat" "16:9" "veo-3" 2 None "image/png" 0
      ([], world_of (Some one_shot_client))
    = (Ok tt,
       ([video_data "0a1b2c3d" "a cat" "16:9" "veo-3" "2025-06-01T12:00:00"
           (PStr "generated_videos/veo3_0a1b2c3d_20250601_120000.mp4")
           "completed"], w')) /\
    clock w' = 0.
Proof.
  destruct (done_at_submission_completes one_shot_client "a cat" "16:9"
              "veo-3" 2 None "image/png" 0 []
              (world_of (Some one_shot_client))
              (RemoteOperation true (Some [7])) 7 [])
    as (w' & H1 & _ & H2 & _); try reflexivity.
  exists w'. split; [exact H1 | exact H2].
Defined.

(** ** A new session *)

Lemma assoc_set_keys k v d x :
  x ∈ map fst (assoc_set k v d) -> x = k \/ x ∈ map fst d.
Proof.
  induction d as [|[k0 v0] d IH]; simpl.
  - intros H. apply list_elem_of_singleton in H. by left.
  - destruct (String.eqb k k0) eqn:E; simpl.
    + apply String.eqb_eq in E. subst k0. intros H. by right.
    + intros H. apply elem_of_cons in H as [->|H].
      * right. by left.
      * destruct (IH H) as [->|Hin]; [by left|]. right. by right.
Qed.

Lemma assoc_set_NoDup k v d :
  NoDup (map fst d) -> NoDup (map fst (assoc_set k v d)).
Proof.
  induction d as [|[k0 v0] d IH]; simpl; intros Hnd.
  - apply NoDup_singleton.
  - apply NoDup_cons in Hnd as [Hk0 Hnd].
    destruct (String.eqb k k0) eqn:E; simpl.
    + apply String.eqb_eq in E. subst k0. by apply NoDup_cons.
    + apply NoDup_cons. split; [|by apply IH].
      intros Hin. apply assoc_set_keys in Hin as [->|Hin]; [|done].
      by rewrite String.eqb_refl in E.
Qed.

Lemma assoc_set_forallb (P : pyval -> bool) k v d :
  P v = true ->
  forallb (fun kv => P (snd kv)) d = true ->
  forallb (fun kv => P (snd kv)) (assoc_set k v d) = true.
Proof.
  intros Hv. induction d as [|[k0 v0] d IH]; simpl.
  - by rewrite Hv.
  - intros H. apply andb_prop in H as [H0 Hd].
    destruct (String.eqb k k0); simpl.
    + by rewrite Hv, Hd.
    + by rewrite H0, IH.
Qed.

(** [create_new_session] when the mapping is a dict. *)
Lemma create_new_session_run strftime_minutes d w :
  sessions w = PDict d ->
  let id := uuid4 (rand w) (uuid_next w) in
  let s := new_session id (isoformat (rand w) (clock w))
             ("Session " +:+ strftime_minutes (clock w)) in
  create_new_session strftime_minutes w =
    (Ok id, set_sessions (PDict (assoc_set id s d))
              (set_uuid_next (S (uuid_next w)) w)).
Proof.
  intros Hs. unfold create_new_session, new_video_id, now_isoformat, bind,
    gets, modify, ret, lift_result. simpl. by rewrite Hs.
Qed.

(** X11. [create_new_session], the mapping being a dict: it returns the
    identifier drawn, under which the mapping now has a session with that
    identifier, the current time, a name made of the time, and no
    generation; if the identifier was in use, the earlier session and its
    history are replaced.  Every other session is as it was, a session
    mapping stays one, and neither the active-session reference nor any
    file changes. *)
Theorem create_new_session_adds strftime_minutes d w :
  sessions w = PDict d ->
  let id := uuid4 (rand w) (uuid_next w) in
  let s := new_session id (isoformat (rand w) (clock w))
             ("Session " +:+ strftime_minutes (clock w)) in
  exists w',
    create_new_session strftime_minutes w = (Ok id, w') /\
    field id (sessions w') = Some s /\
    (forall k, k <> id -> field k (sessions w') = field k (sessions w)) /\
    (is_session_mapping (sessions w) = true ->
     is_session_mapping (sessions w') = true) /\
    current_session_id w' = current_session_id w /\
    files w' = files w /\ fs_trace w' = fs_trace w.
Proof.
  intros Hs id s.
  rewrite (create_new_session_run strftime_minutes d w Hs).
  eexists. split; [reflexivity|]. fold id s. simpl. rewrite Hs. simpl.
  split; [apply assoc_set_eq|]. split; [intros k Hk; by apply assoc_set_ne|].
  split; [|done].
  intros Hm. apply andb_prop in Hm as [Hnd Hall].
  apply bool_decide_eq_true in Hnd. apply andb_true_intro. split.
  - apply bool_decide_eq_true. by apply assoc_set_NoDup.
  - by apply assoc_set_forallb.
Qed.

Lemma create_new_session_adds_witness :
  exists w',
    create_new_session (fun _ => "2025-06-01 12:00") demo_world
    = (Ok "0a1b2c3d", w') /\
    field "demo" (sessions w') = field "demo" (sessions demo_world).
Proof.
  destruct (create_new_session_adds (fun _ => "2025-06-01 12:00") _
              demo_world eq_refl) as (w' & H1 & _ & H2 & _).
  exists w'. split; [exact H1|]. by apply H2.
Defined.

Lemma create_new_session_not_dict strftime_minutes w :
  (forall d, sessions w <> PDict d) ->
  create_new_session strftime_minutes w =
    (Raise TypeError, set_uuid_next (S (uuid_next w)) w).
Proof.
  intros Hs. unfold create_new_session, new_video_id, now_isoformat, bind,
    gets, modify, ret, lift_result. simpl.
  destruct (sessions w) as [| | | | |d|] eqn:E; try reflexivity.
  by destruct (Hs d).
Qed.

(** X12. A session file that holds a JSON document other than an object (a
    list, a string, a number, [null]) is loaded without any warning: the
    document becomes the mapping in memory.  [create_new_session] then
    raises [TypeError] on the assignment, the mapping staying what it
    is. *)
Theorem non_dict_session_file_breaks_create strftime_minutes w doc :
  files w !! sessions_file = Some (FJson doc) ->
  is_json doc = true ->
  (forall d, doc <> PDict d) ->
  exists w1 w2,
    load_sessions_from_file w = (Ok tt, w1) /\
    sessions w1 = doc /\ ui w1 = ui w /\
    create_new_session strftime_minutes w1 = (Raise TypeError, w2) /\
    sessions w2 = doc.
Proof.
  intros Hf Hj Hd. rewrite (load_session_file w _ Hf). cbv zeta. rewrite Hj.
  eexists _, _. split; [reflexivity|]. split; [reflexivity|].
  split; [reflexivity|].
  rewrite create_new_session_not_dict; [by split|]. exact Hd.
Qed.

Lemma non_dict_session_file_breaks_create_witness :
  exists w1 w2,
    load_sessions_from_file
      (after_ops stored_world [OpWriteJson sessions_file (PList [])])
    = (Ok tt, w1) /\
    create_new_session (fun _ => "2025-06-01 12:00") w1
    = (Raise TypeError, w2).
Proof.
  destruct (non_dict_session_file_breaks_create
              (fun _ => "2025-06-01 12:00")
              (after_ops stored_world [OpWriteJson sessions_file (PList [])])
              (PList [])) as (w1 & w2 & H1 & _ & _ & H2 & _).
  - vm_compute. reflexivity.
  - reflexivity.
  - intros d. discriminate.
  - exists w1, w2. split; [exact H1 | exact H2].
Defined.

(** X13. A session mapping to which a session is added, and which is then
    saved to a writable session file, as the New Session button does: both
    calls return and nothing is shown; the session file then holds a
    document equivalent to the mapping, in particular with the new
    session, its identifier, time and name, and no generation; and a load
    after that, whatever is in memory (nothing after a restart), returns,
    shows nothing and puts exactly that document in memory. *)
Theorem created_session_is_saved strftime_minutes w :
  is_session_mapping (sessions w) = true ->
  sessions_file ∉ readonly w ->
  let id := uuid4 (rand w) (uuid_next w) in
  let s := new_session id (isoformat (rand w) (clock w))
             ("Session " +:+ strftime_minutes (clock w)) in
  exists doc w1 w2,
    create_new_session strftime_minutes w = (Ok id, w1) /\
    save_sessions_to_file w1 = (Ok tt, w2) /\
    ui w2 = ui w /\
    files w2 !! sessions_file = Some (FJson doc) /\
    equiv_sessions (sessions w1) doc /\
    (exists s', field id doc = Some s' /\ equiv_session s s') /\
    forall m0, exists w3,
      load_sessions_from_file (set_sessions m0 w2) = (Ok tt, w3) /\
      sessions w3 = doc /\ ui w3 = ui w.
Proof.
  intros Hm Hro id s.
  destruct (sessions w) as [| | | | |d|] eqn:Hs; try discriminate.
  rewrite (create_new_session_run strftime_minutes d w Hs). fold id s.
  set (w1 := set_sessions _ _).
  assert (Hm1 : is_session_mapping (sessions w1) = true).
  { simpl. simpl in Hm. apply andb_prop in Hm as [Hnd Hall].
    apply bool_decide_eq_true in Hnd. apply andb_true_intro. split.
    - apply bool_decide_eq_true. by apply assoc_set_NoDup.
    - by apply assoc_set_forallb. }
  destruct (copy_sessions_ok _ Hm1) as (c & Hc & Heq & Hj & _).
  destruct (save_then_reload_run w1 c PNone Hc Hj Hro)
    as (Hsave & Hfile & _).
  eexists c, w1, _. split; [reflexivity|]. split; [exact Hsave|].
  split; [reflexivity|]. split; [exact Hfile|]. split; [exact Heq|].
  split.
  - specialize (Heq id). simpl in Heq. rewrite assoc_set_eq in Heq.
    inversion Heq as [? s' Hss H1 H2|]; subst. exists s'.
    split; [|exact Hss]. simpl. by destruct c.
  - intros m0.
    destruct (save_then_reload_run w1 c m0 Hc Hj Hro) as (_ & _ & Hload).
    eexists. split; [exact Hload|]. by split.
Qed.

Lemma created_session_is_saved_witness :
  exists doc w1 w2 w3,
    create_new_session (fun _ => "2025-06-01 12:00") demo_world
    = (Ok "0a1b2c3d", w1) /\
    save_sessions_to_file w1 = (Ok tt, w2) /\
    load_sessions_from_file (set_sessions (PDict []) w2) = (Ok tt, w3) /\
    sessions w3 = doc /\
    is_Some (field "0a1b2c3d" doc).
Proof.
  assert (Hm : is_session_mapping (sessions demo_world) = true)
    by (vm_compute; reflexivity).
  assert (Hro : sessions_file ∉ readonly demo_world)
    by (vm_compute; set_solver).
  destruct (created_session_is_saved (fun _ => "2025-06-01 12:00")
              demo_world Hm Hro)
    as (doc & w1 & w2 & H1 & H2 & _ & _ & _ & (s' & H3 & _) & H4).
  destruct (H4 (PDict [])) as (w3 & H5 & H6 & _).
  exists doc, w1, w2, w3. split; [exact H1|]. split; [exact H2|].
  split; [exact H5|]. split; [exact H6|]. exists s'. exact H3.
Defined.

(** ** The card of a video *)

(** Characters are counted, not bytes: of a string that begins with a
    character of two bytes, the first character is these two bytes. *)
Example str_take_counts_characters :
  str_take 1 (String (Ascii.ascii_of_nat 195)
                (String (Ascii.ascii_of_nat 169) "t"))
  = String (Ascii.ascii_of_nat 195) (String (Ascii.ascii_of_nat 169) "").
Proof. reflexivity. Qed.

(** X14. The card of a video that has an identifier, a string for its
    time of creation and a status, and whose [local_path] is a string,
    [None] or not there: the call returns; it shows the identifier, the
    first 19 characters of the time and the status; then the video and its
    download button when the path is a non-empty string naming a file, and
    otherwise the timed-out warning if the status is ["timeout"] and the
    not-available notice if not.  It looks at the path at most, and reads
    it: no file changes.  So the record of a timed-out variation, whose
    path is [None], is shown with the warning and without a look at the
    file system. *)
Theorem display_video_card_shows read_fd video id created status items w :
  field "id" video = Some id ->
  field "created_at" video = Some (PStr created) ->
  field "status" video = Some status ->
  path_is_string video || path_is_none video = true ->
  let head := [CardVideoId id; CardCreated (PStr (str_take 19 created));
               CardStatus status] in
  exists shown ops,
    display_video_card read_fd video (items, w)
    = (Ok tt, (items ++ head ++ shown, after_ops w ops)) /\
    files (after_ops w ops) = files w /\
    match field "local_path" video with
    | Some (PStr p) =>
        if String.eqb p "" then shown = [notice status] /\ ops = []
        else match files w !! p with
             | Some data =>
                 shown = [CardVideo data; CardDownload data id (PStr created)]
                 /\ ops = [OpStat p; OpOpenRead p]
             | None => shown = [notice status] /\ ops = [OpStat p]
             end
    | _ => shown = [notice status] /\ ops = []
    end.
Proof.
  destruct video as [| | | | |d|]; try discriminate. simpl.
  intros Hid Hcr Hst Hp.
  unfold display_video_card, bind, lift_result, put, modify. simpl.
  rewrite Hid, Hcr, Hst. simpl.
  assert (Hnotice : forall s : card,
            (if is_str "timeout" status
             then fun s : card => (Ok tt, (fst s ++ [CardTimedOut], snd s))
             else fun s : card => (Ok tt, (fst s ++ [CardNotAvailable], snd s)))
              s
            = (Ok tt, (fst s ++ [notice status], snd s))).
  { intros s. unfold notice. by destruct (is_str "timeout" status). }
  destruct (assoc "local_path" d) as [[| | |p| | |]|] eqn:Hlp;
    try discriminate; simpl.
  - exists [notice status], []. rewrite Hnotice. cbn [fst snd].
    rewrite <- !app_assoc. by repeat split.
  - destruct (String.eqb p "") eqn:Hempty; simpl.
    + exists [notice status], []. rewrite Hnotice. cbn [fst snd].
      rewrite <- !app_assoc. by repeat split.
    + unfold on_world, os_path_exists, bind, modify, gets. cbn [fst snd].
      change (files (do_fs (OpStat p) w)) with (files w).
      destruct (files w !! p) as [data|] eqn:Hf.
      * rewrite bool_decide_true by eauto.
        unfold try_except, read_bytes, open_read, bind, gets, modify, ret.
        cbn [fst snd]. change (files (do_fs (OpStat p) w)) with (files w).
        rewrite Hf. rewrite bool_decide_true by eauto. cbn [fst snd].
        change (files (do_fs (OpOpenRead p) (do_fs (OpStat p) w)))
          with (files w).
        rewrite Hf. simpl.
        exists [CardVideo data; CardDownload data id (PStr created)],
          [OpStat p; OpOpenRead p].
        rewrite <- !app_assoc. by repeat split.
      * rewrite bool_decide_false by (intros [? ?]; discriminate).
        exists [notice status], [OpStat p].
        rewrite Hnotice. cbn [fst snd]. rewrite <- !app_assoc.
        by repeat split.
  - exists [notice status], []. rewrite Hnotice. cbn [fst snd].
    rewrite <- !app_assoc. by repeat split.
Qed.

Lemma display_video_card_shows_witness :
  exists shown ops,
    display_video_card (fun _ => Raise TypeError)
      (video_data "4e5f6a7b" "a cat" "16:9" "veo-3" "2025-06-01T12:10:00.123"
         PNone "timeout") ([], demo_world)
    = (Ok tt,
       ([CardVideoId (PStr "4e5f6a7b");
         CardCreated (PStr "2025-06-01T12:10:00");
         CardStatus (PStr "timeout")] ++ shown, after_ops demo_world ops)) /\
    shown = [CardTimedOut] /\ ops = [].
Proof.
  destruct (display_video_card_shows (fun _ => Raise TypeError)
              (video_data "4e5f6a7b" "a cat" "16:9" "veo-3"
                 "2025-06-01T12:10:00.123" PNone "timeout")
              (PStr "4e5f6a7b") "2025-06-01T12:10:00.123" (PStr "timeout")
              [] demo_world eq_refl eq_refl eq_refl eq_refl)
    as (shown & ops & H1 & _ & H2 & H3).
  exists shown, ops. split; [exact H1|]. split; [exact H2 | exact H3].
Defined.

(** ** Deleting, then saving *)

Lemma assoc_del_keys k d x :
  x ∈ map fst (assoc_del k d) -> x ∈ map fst d.
Proof.
  induction d as [|[k0 v0] d IH]; simpl; [done|].
  destruct (String.eqb k k0); simpl.
  - intros H. right. by apply IH.
  - intros H. apply elem_of_cons in H as [->|H]; [by left|].
    right. by apply IH.
Qed.

Lemma assoc_del_NoDup k d :
  NoDup (map fst d) -> NoDup (map fst (assoc_del k d)).
Proof.
  induction d as [|[k0 v0] d IH]; simpl; intros Hnd; [done|].
  apply NoDup_cons in Hnd as [Hk0 Hnd].
  destruct (String.eqb k k0); simpl; [by apply IH|].
  apply NoDup_cons. split; [|by apply IH].
  intros Hin. by apply assoc_del_keys in Hin.
Qed.

Lemma assoc_del_forallb (P : pyval -> bool) k d :
  forallb (fun kv => P (snd kv)) d = true ->
  forallb (fun kv => P (snd kv)) (assoc_del k d) = true.
Proof.
  induction d as [|[k0 v0] d IH]; simpl; [done|].
  intros H. apply andb_prop in H as [H0 Hd].
  destruct (String.eqb k k0); simpl; [by apply IH|].
  by rewrite H0, IH.
Qed.

(** X15. Deleting a session of a session mapping (all its paths being
    strings, or not there) and then saving to a writable session file, as
    the delete button does: both calls return; the session file then
    holds a document without the session, in which every other session is
    equivalent to what it was; and a load after that, whatever is in
    memory (nothing after a restart), puts exactly that document in
    memory. *)
Theorem deleted_session_stays_deleted session_id d s w :
  sessions w = PDict d ->
  is_session_mapping (sessions w) = true ->
  assoc session_id d = Some s ->
  paths_are_strings s = true ->
  sessions_file ∉ readonly w ->
  exists doc w1 w2,
    delete_session session_id w = (Ok tt, w1) /\
    save_sessions_to_file w1 = (Ok tt, w2) /\
    files w2 !! sessions_file = Some (FJson doc) /\
    field session_id doc = None /\
    (forall k, k <> session_id ->
       option_Forall2 equiv_session (field k (sessions w)) (field k doc)) /\
    forall m0, exists w3,
      load_sessions_from_file (set_sessions m0 w2) = (Ok tt, w3) /\
      sessions w3 = doc.
Proof.
  intros Hs Hm Hk Hp Hro.
  destruct s as [| | | | |sd|]; try discriminate.
  unfold paths_are_strings in Hp.
  destruct (default (PList []) (assoc "generations" sd))
    as [| | | |gl| |] eqn:Hg; try discriminate.
  rewrite (delete_session_run session_id d sd gl w Hs Hk Hg).
  destruct (for_each_clears generation_paths videos_have_string_paths
              remove_artifacts gl remove_artifacts_clears Hp w)
    as (ops & Hrun & _).
  rewrite Hrun.
  destruct (after_ops_fields w ops) as (_ & _ & _ & Hui & _ & Hrol & _).
  set (w1 := (if bool_decide _ then _ else _) _).
  assert (Hs1 : sessions w1 = PDict (assoc_del session_id d))
    by (unfold w1; by case_bool_decide).
  assert (Hro1 : sessions_file ∉ readonly w1).
  { replace (readonly w1) with (readonly w); [exact Hro|].
    unfold w1. case_bool_decide; simpl; by rewrite Hrol. }
  assert (Hm1 : is_session_mapping (sessions w1) = true).
  { rewrite Hs1. rewrite Hs in Hm. simpl in *.
    apply andb_prop in Hm as [Hnd Hall].
    apply bool_decide_eq_true in Hnd. apply andb_true_intro. split.
    - apply bool_decide_eq_true. by apply assoc_del_NoDup.
    - by apply assoc_del_forallb. }
  destruct (copy_sessions_ok _ Hm1) as (c & Hc & Heq & Hj & _).
  destruct (save_then_reload_run w1 c PNone Hc Hj Hro1)
    as (Hsave & Hfile & _).
  eexists c, w1, _. split; [reflexivity|]. split; [exact Hsave|].
  split; [exact Hfile|]. split; [|split].
  - specialize (Heq session_id). rewrite Hs1 in Heq. simpl in Heq.
    rewrite assoc_del_eq in Heq. by inversion Heq.
  - intros k Hne. specialize (Heq k). rewrite Hs1 in Heq. simpl in Heq.
    rewrite assoc_del_ne in Heq by exact Hne. by rewrite Hs.
  - intros m0.
    destruct (save_then_reload_run w1 c m0 Hc Hj Hro1) as (_ & _ & Hload).
    eexists. split; [exact Hload|]. reflexivity.
Qed.

Lemma deleted_session_stays_deleted_witness :
  exists doc w1 w2 w3,
    delete_session "demo" (demo_world_with (PStr "gone.mp4")) = (Ok tt, w1) /\
    save_sessions_to_file w1 = (Ok tt, w2) /\
    load_sessions_from_file (set_sessions (PDict []) w2) = (Ok tt, w3) /\
    sessions w3 = doc /\
    field "demo" doc = None.
Proof.
  assert (Hm : is_session_mapping
                 (sessions (demo_world_with (PStr "gone.mp4"))) = true)
    by (vm_compute; reflexivity).
  assert (Hro : sessions_file ∉ readonly (demo_world_with (PStr "gone.mp4")))
    by (vm_compute; set_solver).
  destruct (deleted_session_stays_deleted "demo" _
              (demo_session (PStr "gone.mp4"))
              (demo_world_with (PStr "gone.mp4")) eq_refl Hm eq_refl eq_refl
              Hro)
    as (doc & w1 & w2 & H1 & H2 & _ & H3 & _ & H4).
  destruct (H4 (PDict [])) as (w3 & H5 & H6).
  exists doc, w1, w2, w3. by repeat split.
Defined.

(** ** [main]: a generation, stored and saved *)

Lemma poll_loop_readonly fuel c i n o pc w :
  same_readonly w (snd (poll_loop fuel c i n o pc w)).
Proof.
  unfold same_readonly.
  revert o pc w. induction fuel as [|fuel IH]; intros o pc w; simpl.
  - by destruct (negb (op_done o) && (pc <? max_polls)%nat).
  - destruct (negb (op_done o) && (pc <? max_polls)%nat); [|done].
    unfold time_sleep, client_operations_get, st_progress, bind, gets, modify.
    rewrite remote_run. cbn [fst snd].
    destruct (operations_get c _ o) as [o1|e]; [|done].
    by rewrite IH.
Qed.

Lemma variation_readonly c prompt aspect_ratio model_version n image_gcs_uri
    image_mime_type i vs w :
  same_readonly w
    (snd (snd (variation c prompt aspect_ratio model_version n image_gcs_uri
                 image_mime_type i (vs, w)))).
Proof.
  unfold same_readonly. rewrite variation_run. cbv zeta.
  destruct (generate_videos c _ _) as [o|e]; [|done].
  match goal with
  | |- context [poll_loop ?f c i n o 0 ?w1] =>
      pose proof (poll_loop_readonly f c i n o 0 w1) as Hro;
      destruct (poll_loop f c i n o 0 w1) as [[[o' pc']|e] w2]
  end; unfold same_readonly in Hro; cbn [fst snd] in *; simpl in Hro;
    [|done].
  destruct (op_done o').
  - destruct (first_generated_video o') as [gv|e]; [|done].
    destruct (files_download c _ gv) as [[]|e]; [|done].
    destruct (video_save c _ gv _) as [[]|e]; [|done].
    cbn [fst snd]. unfold last_step. by destruct (Z.of_nat i =? n - 1)%Z.
  - cbn [fst snd]. unfold last_step. by destruct (Z.of_nat i =? n - 1)%Z.
Qed.

Lemma variations_readonly c prompt aspect_ratio model_version n image_gcs_uri
    image_mime_type (idx : list nat) vs w :
  same_readonly w
    (snd (snd (for_each idx
                 (variation c prompt aspect_ratio model_version n
                    image_gcs_uri image_mime_type) (vs, w)))).
Proof.
  unfold same_readonly.
  revert vs w. induction idx as [|i idx IH]; intros vs w; simpl; [done|].
  unfold bind.
  pose proof (variation_readonly c prompt aspect_ratio model_version n
                image_gcs_uri image_mime_type i vs w) as H.
  unfold same_readonly in H.
  destruct (variation c prompt aspect_ratio model_version n image_gcs_uri
              image_mime_type i (vs, w)) as [[[]|e] [vs1 w1]];
    cbn [fst snd] in *; [|exact H].
  by rewrite IH.
Qed.

(** The job returns, whatever the client does; what it returns and what it
    leaves as it was. *)
Lemma generate_run prompt aspect_ratio model_version n image_gcs_uri
    image_mime_type w :
  exists videos wj,
    generate_videos_with_veo3 prompt aspect_ratio model_version n
      image_gcs_uri image_mime_type w = (Ok videos, wj) /\
    sessions wj = sessions w /\
    same_readonly w wj /\
    Forall (fun v => is_video v = true) videos /\
    Forall (job_record prompt aspect_ratio model_version) videos.
Proof.
  unfold generate_videos_with_veo3.
  destruct (client w) as [c|].
  2:{ eexists _, _. split; [reflexivity|]. by repeat split. }
  eexists _, _. split; [reflexivity|].
  unfold generation_loop, try_except.
  destruct (variations_outcome c prompt aspect_ratio model_version n
              image_gcs_uri image_mime_type (range n) [] w)
    as (r & new & w' & Hrun & Hrec & _).
  pose proof (variations_job c prompt aspect_ratio model_version n
                image_gcs_uri image_mime_type (range n) [] w) as Hjob.
  pose proof (variations_readonly c prompt aspect_ratio model_version n
                image_gcs_uri image_mime_type (range n) [] w) as Hro.
  cbv zeta in Hjob. rewrite Hrun in *. cbn [fst snd app] in *.
  destruct Hjob as ((J1 & _) & _ & V).
  assert (Hrecs : Forall (job_record prompt aspect_ratio model_version) new).
  { apply Forall_lookup. intros k v Hk. eexists. by apply Hrec. }
  destruct r as [[]|e]; cbn [fst snd].
  - split; [exact J1|]. split; [exact Hro|]. split; [by apply V | exact Hrecs].
  - unfold bind, in_world, st_error, st_info, modify. cbn [fst snd].
    split; [exact J1|]. split; [exact Hro|]. split; [by apply V | exact Hrecs].
Qed.

(** A save returns, with the session mapping as it was. *)
Lemma save_sessions_to_file_run w :
  exists w', save_sessions_to_file w = (Ok tt, w') /\
             sessions w' = sessions w.
Proof.
  unfold save_sessions_to_file, try_except. rewrite save_body_run.
  destruct (copy_sessions (sessions w)) as [copy|e].
  - destruct (bool_decide (sessions_file ∈ readonly w)).
    + by eexists.
    + destruct (is_json copy); by eexists.
  - by eexists.
Qed.

(** The session once the generation is appended to it, and the mapping
    that holds it. *)
Lemma main_generate_run session_id prompt aspect_ratio model_version n
    image_gcs_uri image_mime_type d sd name gs ar mv w :
  sessions w = PDict d ->
  assoc session_id d = Some (PDict sd) ->
  assoc "name" sd = Some name ->
  assoc "generations" sd = Some (PList gs) ->
  table_get ASPECT_RATIOS aspect_ratio = Ok ar ->
  table_get MODEL_VERSIONS model_version = Ok mv ->
  exists videos wj,
    Forall (fun v => is_video v = true) videos /\
    Forall (job_record prompt ar mv) videos /\
    sessions wj = sessions w /\
    same_readonly w wj /\
    main_generate session_id prompt aspect_ratio model_version n
      image_gcs_uri image_mime_type w =
      match videos with
      | [] => (Ok videos, wj)
      | _ :: _ =>
          let generation :=
            generation_of (isoformat (rand wj) (clock wj)) prompt
              aspect_ratio model_version n image_gcs_uri videos in
          let updated :=
            PDict (assoc_set "generations" (PList (gs ++ [generation])) sd) in
          (Ok videos,
           snd (save_sessions_to_file
                  (set_sessions (PDict (assoc_set session_id updated d)) wj)))
      end.
Proof.
  intros Hs Hk Hn Hg Har Hmv.
  destruct (generate_run prompt ar mv n
              (if String.eqb image_gcs_uri "" then None
               else Some image_gcs_uri) image_mime_type w)
    as (videos & wj & Hrun & Hsj & Hro & Hv & Hr).
  exists videos, wj. do 4 (split; [assumption|]).
  unfold main_generate.
  unfold bind at 1, gets at 1. cbn [fst snd]. rewrite Hs.
  unfold bind at 1, lift_result at 1. simpl py_getitem. rewrite Hk.
  unfold bind at 1, lift_result at 1. simpl py_getitem. rewrite Hn.
  unfold bind at 1, lift_result at 1. rewrite Har.
  unfold bind at 1, lift_result at 1. rewrite Hmv.
  unfold bind at 1. rewrite Hrun.
  destruct videos as [|v videos]; [reflexivity|].
  cbv [bind now_isoformat gets lift_result modify ret py_getitem].
  rewrite Hg. cbv [py_append py_setitem]. rewrite Hsj, Hs.
  destruct (save_sessions_to_file_run
              (set_sessions
                 (PDict (assoc_set session_id
                    (PDict (assoc_set "generations"
                       (PList (gs ++ [generation_of
                          (isoformat (rand wj) (clock wj)) prompt
                          aspect_ratio model_version n image_gcs_uri
                          (v :: videos)])) sd)) d)) wj))
    as (w' & Hsave & _).
  by rewrite Hsave.
Qed.

Lemma assoc_forallb (P : pyval -> bool) k d v :
  assoc k d = Some v ->
  forallb (fun kv => P (snd kv)) d = true -> P v = true.
Proof.
  induction d as [|[k0 v0] d IH]; simpl; [discriminate|].
  intros Hk Hall. apply andb_prop in Hall as [H0 Hd].
  destruct (String.eqb k k0); [by injection Hk as <- | by apply IH].
Qed.

Lemma Forall_forallb {A} (f : A -> bool) (l : list A) :
  Forall (fun x => f x = true) l -> forallb f l = true.
Proof.
  induction 1 as [|x l Hx _ IH]; simpl; [done|]. by rewrite Hx, IH.
Qed.

Lemma Exists_existsb {A} (P : A -> Prop) (f : A -> bool) (l : list A) :
  (forall x, P x -> f x = true) -> Exists P l -> existsb f l = true.
Proof.
  intros Hf. induction 1 as [x l Hx|x l _ IH]; simpl.
  - by rewrite (Hf x Hx).
  - by rewrite IH, orb_true_r.
Qed.

Lemma forallb_weaken {A} (f g : A -> bool) (l : list A) :
  (forall x, f x = true -> g x = true) ->
  forallb f l = true -> forallb g l = true.
Proof.
  intros Hfg. induction l as [|x l IH]; simpl; [done|].
  intros H. apply andb_prop in H as [Hx Hl]. by rewrite (Hfg x Hx), IH.
Qed.

Lemma updated_session_fields gs sd k :
  k <> "generations" ->
  field k (PDict (assoc_set "generations" (PList gs) sd)) = field k (PDict sd).
Proof. intros Hk. simpl. by apply assoc_set_ne. Qed.

(** The session with one more generation is a session, if it was one and
    the videos are videos. *)
Lemma updated_session_is_session sd gs timestamp prompt aspect_ratio
    model_version n image_gcs_uri videos :
  is_session (PDict sd) = true ->
  assoc "generations" sd = Some (PList gs) ->
  Forall (fun v => is_video v = true) videos ->
  is_session
    (PDict (assoc_set "generations"
              (PList (gs ++ [generation_of timestamp prompt aspect_ratio
                               model_version n image_gcs_uri videos])) sd))
  = true.
Proof.
  intros Hses Hg Hv. unfold is_session in *.
  apply andb_prop in Hses as [Hf Hgs]. apply andb_true_intro. split.
  - unfold session_fields in *. simpl in Hf |- *. unfold has_json in *.
    rewrite !updated_session_fields by done. exact Hf.
  - unfold list_field in *. simpl in Hgs |- *. rewrite assoc_set_eq.
    rewrite Hg in Hgs. rewrite forallb_app, Hgs. simpl.
    rewrite andb_true_r. by apply Forall_forallb.
Qed.

(** X16. The Generate button, on a session of a session mapping, with
    labels of the two menus and a session file that can be written: the
    job's videos are returned; if there is none, the mapping is as it was;
    otherwise one generation is appended to the session's generations,
    holding the prompt, the labels chosen (each record holds the values
    they stand for), the count requested and the videos returned, the
    session's other fields and the other sessions are as they were, the
    mapping is still a session mapping, and the session file holds a
    document equivalent to it. *)
Theorem main_generate_stores session_id prompt aspect_ratio model_version n
    image_gcs_uri image_mime_type d s ar mv w :
  sessions w = PDict d ->
  is_session_mapping (sessions w) = true ->
  assoc session_id d = Some s ->
  table_get ASPECT_RATIOS aspect_ratio = Ok ar ->
  table_get MODEL_VERSIONS model_version = Ok mv ->
  sessions_file ∉ readonly w ->
  exists videos w',
    main_generate session_id prompt aspect_ratio model_version n
      image_gcs_uri image_mime_type w = (Ok videos, w') /\
    Forall (job_record prompt ar mv) videos /\
    (videos = [] -> sessions w' = sessions w) /\
    (videos <> [] ->
     exists timestamp gs s' doc,
       list_field "generations" s = Some gs /\
       field session_id (sessions w') = Some s' /\
       list_field "generations" s' =
         Some (gs ++ [generation_of timestamp prompt aspect_ratio
                        model_version n image_gcs_uri videos]) /\
       (forall k, k <> "generations" -> field k s' = field k s) /\
       (forall k, k <> session_id ->
          field k (sessions w') = field k (sessions w)) /\
       is_session_mapping (sessions w') = true /\
       files w' !! sessions_file = Some (FJson doc) /\
       equiv_sessions (sessions w') doc).
Proof.
  intros Hs Hm Hk Har Hmv Hro.
  rewrite Hs in Hm. simpl in Hm. apply andb_prop in Hm as [Hnd Hall].
  apply bool_decide_eq_true in Hnd.
  pose proof (assoc_forallb is_session _ _ _ Hk Hall) as Hses.
  destruct s as [| | | | |sd|]; try discriminate.
  assert (Hg : exists gs, assoc "generations" sd = Some (PList gs)).
  { unfold is_session, list_field in Hses. simpl in Hses.
    apply andb_prop in Hses as [_ Hgs].
    destruct (assoc "generations" sd) as [[| | | |gs| |]|];
      try discriminate. by exists gs. }
  destruct Hg as (gs & Hg).
  assert (Hn : exists name, assoc "name" sd = Some name).
  { unfold is_session, has_json in Hses. simpl in Hses.
    destruct (assoc "name" sd) as [name|]; [by exists name|].
    by rewrite !andb_false_r in Hses. }
  destruct Hn as (name & Hn).
  destruct (main_generate_run session_id prompt aspect_ratio model_version n
              image_gcs_uri image_mime_type d sd name gs ar mv w
              Hs Hk Hn Hg Har Hmv)
    as (videos & wj & Hv & Hr & Hsj & Hroj & Hrun).
  rewrite Hrun. destruct videos as [|v videos].
  - exists [], wj. split; [reflexivity|]. split; [exact Hr|].
    split; [by intros _ | by intros []].
  - cbv zeta.
    set (g := generation_of _ prompt aspect_ratio model_version n
                image_gcs_uri (v :: videos)).
    set (s' := PDict (assoc_set "generations" (PList (gs ++ [g])) sd)).
    set (ws := set_sessions (PDict (assoc_set session_id s' d)) wj).
    assert (Hms : is_session_mapping (sessions ws) = true).
    { simpl. apply andb_true_intro. split.
      - apply bool_decide_eq_true. by apply assoc_set_NoDup.
      - apply assoc_set_forallb; [|exact Hall].
        by apply updated_session_is_session. }
    destruct (copy_sessions_ok _ Hms) as (doc & Hc & Heq & Hj & _).
    assert (Hros : sessions_file ∉ readonly ws).
    { unfold same_readonly in Hroj. simpl. by rewrite Hroj. }
    destruct (save_then_load_run ws doc Hc Hj Hros) as [Hsave _].
    rewrite Hsave. cbn [snd].
    eexists _, _. split; [reflexivity|]. split; [exact Hr|].
    split; [discriminate|]. intros _.
    exists (isoformat (rand wj) (clock wj)), gs, s', doc.
    destruct (after_ops_fields ws [OpOpenWrite sessions_file;
                                   OpWriteJson sessions_file doc])
      as (A1 & _ & _ & _ & _ & _ & _ & A8).
    rewrite A1, A8. simpl sessions. rewrite Hs.
    split; [unfold list_field; simpl; by rewrite Hg|].
    split; [simpl; apply assoc_set_eq|].
    split; [unfold list_field; simpl; by rewrite assoc_set_eq|].
    split; [intros k Hne; by apply updated_session_fields|].
    split; [intros k Hne; simpl; by apply assoc_set_ne|].
    split; [exact Hms|].
    split; [|exact Heq].
    simpl. by rewrite lookup_insert_eq.
Qed.

Lemma main_generate_stores_witness :
  exists videos w',
    main_generate "demo" "a cat" "16:9 (Widescreen)" "Veo 3 Fast" 2 ""
      "image/png" (studio_world prompt_client) = (Ok videos, w') /\
    Forall (job_record "a cat" "16:9" "veo-3.0-fast-generate-preview") videos.
Proof.
  assert (H0 : is_session_mapping (sessions (studio_world prompt_client)) = true) by (vm_compute; reflexivity).
  assert (H5 : sessions_file ∉ readonly (studio_world prompt_client)) by (vm_compute; set_solver).
  pose proof (main_generate_stores "demo" "a cat" "16:9 (Widescreen)"
              "Veo 3 Fast" 2 "" "image/png" _
              (demo_session (PStr "gone.mp4")) "16:9"
              "veo-3.0-fast-generate-preview" (studio_world prompt_client)
              eq_refl H0 eq_refl eq_refl eq_refl H5) as H.
  destruct H as (videos & w' & H1 & H2 & _).
  exists videos, w'.
  split; [exact H1 | exact H2].
Defined.

Lemma job_record_path prompt aspect_ratio model_version v :
  job_record prompt aspect_ratio model_version v ->
  path_is_string v || path_is_none v = true /\
  (timed_out v -> path_is_none v = true).
Proof.
  intros (id & created_at & [(path & ->) | ->]); split; try reflexivity.
  intros H. discriminate H.
Qed.

(** X17. A timed-out variation makes its session impossible to delete.
    The Generate button on a session that has a name and a list of
    generations, and whose every path is a string (one that
    [delete_session] would delete), returns; and if one of the videos
    returned is of a variation that timed out, then deleting the session
    raises [TypeError] from then on, the session staying in the
    mapping. *)
Theorem timed_out_generation_blocks_delete session_id prompt aspect_ratio
    model_version n image_gcs_uri image_mime_type d s name gs ar mv w :
  sessions w = PDict d ->
  assoc session_id d = Some s ->
  field "name" s = Some name ->
  list_field "generations" s = Some gs ->
  paths_are_strings s = true ->
  table_get ASPECT_RATIOS aspect_ratio = Ok ar ->
  table_get MODEL_VERSIONS model_version = Ok mv ->
  exists videos w',
    main_generate session_id prompt aspect_ratio model_version n
      image_gcs_uri image_mime_type w = (Ok videos, w') /\
    (Exists timed_out videos ->
     exists w'',
       delete_session session_id w' = (Raise TypeError, w'') /\
       is_Some (field session_id (sessions w''))).
Proof.
  intros Hs Hk Hn Hgs Hp Har Hmv.
  destruct s as [| | | | |sd|]; try discriminate. simpl in Hn.
  assert (Hg : assoc "generations" sd = Some (PList gs)).
  { unfold list_field in Hgs. simpl in Hgs.
    destruct (assoc "generations" sd) as [[| | | |gs'| |]|];
      try discriminate. by injection Hgs as ->. }
  unfold paths_are_strings in Hp. rewrite Hg in Hp. simpl in Hp.
  destruct (main_generate_run session_id prompt aspect_ratio model_version n
              image_gcs_uri image_mime_type d sd name gs ar mv w
              Hs Hk Hn Hg Har Hmv)
    as (videos & wj & Hv & Hr & Hsj & Hroj & Hrun).
  rewrite Hrun. destruct videos as [|v videos].
  - exists [], wj. split; [reflexivity|]. intros H. by apply Exists_nil in H.
  - cbv zeta.
    set (g := generation_of _ prompt aspect_ratio model_version n
                image_gcs_uri (v :: videos)).
    set (sd' := assoc_set "generations" (PList (gs ++ [g])) sd).
    set (ws := set_sessions (PDict (assoc_set session_id (PDict sd') d)) wj).
    destruct (save_sessions_to_file_run ws) as (w' & Hsave & Hsw).
    rewrite Hsave. cbn [snd].
    exists (v :: videos), w'. split; [reflexivity|]. intros Hto.
    assert (Hnone : reaches_none_video g = true).
    { unfold g, generation_of, reaches_none_video.
      cbn [assoc String.eqb Ascii.eqb Bool.eqb default].
      apply andb_true_intro. split.
      - apply Forall_forallb. eapply Forall_impl; [exact Hr|].
        intros x Hx. by apply job_record_path in Hx as [Hx _].
      - assert (Hboth : Exists (fun x => job_record prompt ar mv x /\
                                         timed_out x) (v :: videos)).
        { apply Exists_exists. apply Exists_exists in Hto as (x & Hin & Hx).
          exists x. split; [exact Hin|]. split; [|exact Hx].
          by apply (proj1 (Forall_forall _ _) Hr). }
        eapply Exists_existsb; [|exact Hboth].
        intros x [Hx1 Hx2]. apply job_record_path in Hx1 as [_ Hx1].
        by apply Hx1. }
    assert (Hs' : sessions w' = PDict (assoc_set session_id (PDict sd') d))
      by (by rewrite Hsw).
    rewrite (delete_session_run session_id _ sd' (gs ++ [g]) w' Hs'
               (assoc_set_eq _ _ _)
               ltac:(unfold sd'; by rewrite assoc_set_eq)).
    assert (Hall : forallb (fun g => videos_have_string_paths g ||
                                     reaches_none_video g) (gs ++ [g]) = true).
    { rewrite forallb_app. apply andb_true_intro. split.
      - eapply forallb_weaken; [|exact Hp].
        intros x Hx. by rewrite Hx.
      - cbn [forallb]. by rewrite Hnone, orb_true_r. }
    assert (Hex : existsb reaches_none_video (gs ++ [g]) = true).
    { rewrite existsb_app. cbn [existsb]. by rewrite Hnone, orb_true_r. }
    destruct (for_each_raises videos_have_string_paths reaches_none_video
                remove_artifacts TypeError (gs ++ [g])
                remove_artifacts_returns remove_artifacts_none Hall Hex w')
      as (w'' & Hdel).
    assert (Hl : preserves same_session_state
                   (for_each (gs ++ [g]) remove_artifacts))
      by (apply preserves_for_each;
          [apply _ | apply remove_artifacts_session_state]).
    specialize (Hl w'). rewrite Hdel in *. destruct Hl as (H1 & _).
    exists w''. split; [reflexivity|]. cbn [snd] in H1.
    rewrite H1, Hs'. simpl. rewrite assoc_set_eq. eauto.
Qed.

Lemma timed_out_generation_blocks_delete_witness :
  exists videos w' w'',
    main_generate "demo" "a cat" "16:9 (Widescreen)" "Veo 3 Fast" 1 ""
      "image/png" (studio_world stalled_client) = (Ok videos, w') /\
    delete_session "demo" w' = (Raise TypeError, w'').
Proof.
  pose proof (timed_out_generation_blocks_delete "demo" "a cat"
              "16:9 (Widescreen)" "Veo 3 Fast" 1 "" "image/png" _
              (demo_session (PStr "gone.mp4")) _ _ "16:9"
              "veo-3.0-fast-generate-preview" (studio_world stalled_client)
              eq_refl eq_refl eq_refl eq_refl eq_refl eq_refl eq_refl) as H.
  destruct H as (videos & w' & H1 & H2).
  assert (Hto : Exists timed_out videos).
  { pose proof H1 as H. vm_compute in H. injection H as <- _.
    apply Exists_cons_hd. reflexivity. }
  destruct (H2 Hto) as (w'' & H3 & _).
  exists videos, w', w''.
  split; [exact H1 | exact H3].
Defined.
